(** * libcsvkit: a shallow embedding of the CSV parser and writer

    The development follows [src/parser.c], [src/writer.c] and
    [include/csvkit.h].  C objects are modelled as follows.

    - A value of type [char] is the integer it promotes to ([Z]); whether
      [char] is signed is a property of the platform ([Platform]).
    - A C string is the list of its characters before the terminating NUL.
    - A character source (an in-memory buffer, a [FILE*]) is the list of
      bytes not read yet: [read_char] pops the first one, [unread_char]
      (string_pos-- / ungetc) puts the byte just read back in front.
    - A character sink is the list of bytes written so far.
    - [size_t] counters are [nat]; allocation and write failures of the C
      library are outside the model (malloc, realloc and fputc succeed).
    - The [goto] loop of csvkit_read_row is a recursion on fuel; the call
      is shown to return on every handle ([csvkit_read_row_total]). *)

From Stdlib Require Import ZArith List Bool Lia String.
Import ListNotations.
Local Open Scope Z_scope.

(** ** Characters *)

Class Platform := { char_is_signed : bool }.

Definition EOF : Z := -1.
Definition LF : Z := 10.    (* '\n' *)
Definition CR : Z := 13.    (* '\r' *)

Definition cstring := list Z.

(** [(unsigned char)c], what fputc writes and what isspace receives. *)
Definition to_uchar (c : Z) : Z := c mod 256.

(** Conversion of an [int] to [char], as when the parser stores the [int c]
    it has read into its [char] buffer. *)
Definition to_char {plat : Platform} (c : Z) : Z :=
  if char_is_signed then (c + 128) mod 256 - 128 else c mod 256.

(** [isspace] in the C locale: space, \t, \n, \v, \f, \r. *)
Definition isspace (c : Z) : bool :=
  (c =? 32) || ((9 <=? c) && (c <=? 13)).

(** ** csvkit.h *)

Record csvkit_config_t := {
  delimiter : Z;
  quote_char : Z;
  escape_char : Z;
  trim_whitespace : bool;
  skip_empty_rows : bool;
  strict_mode : bool
}.

Record csvkit_row_t := {
  fields : list cstring;
  field_count : nat;
  row_number : nat
}.

Inductive csvkit_error_t :=
| CSVKIT_OK
| CSVKIT_ERROR_MEMORY
| CSVKIT_ERROR_IO
| CSVKIT_ERROR_PARSE
| CSVKIT_ERROR_INVALID_ARG
| CSVKIT_ERROR_EOF.

Definition csvkit_config_default : csvkit_config_t :=
  {| delimiter := 44; quote_char := 34; escape_char := 34;
     trim_whitespace := false; skip_empty_rows := false;
     strict_mode := false |}.

(** ** parser.c *)

Module Parser.

(** The handle of parser.c.  [source] is [None] for SOURCE_NONE and
    otherwise holds the bytes the bound source has not delivered yet. *)
Record csvkit_parser_t := {
  config : csvkit_config_t;
  source : option (list Z);
  parser_row_number : nat;
  error_msg : option string;
  expected_field_count : nat
}.

(** string_duplicate copies [len] bytes and terminates them with NUL; as a
    C string the copy ends at the first NUL it holds. *)
Fixpoint string_duplicate (str : list Z) : cstring :=
  match str with
  | [] => []
  | c :: str' => if c =? 0 then [] else c :: string_duplicate str'
  end.

(** [while (isspace((unsigned char)*start)) start++] *)
Fixpoint skip_spaces (start : cstring) : cstring :=
  match start with
  | [] => []
  | c :: start' => if isspace (to_uchar c) then skip_spaces start' else start
  end.

(** The scan for the last non-space character: [end_] is the offset of the
    character under inspection, the result the offset of [last_non_space]. *)
Fixpoint last_non_space (s : cstring) (end_ last : nat) : nat :=
  match s with
  | [] => last
  | c :: s' =>
    last_non_space s' (S end_) (if isspace (to_uchar c) then last else end_)
  end.

(** trim_whitespace_inplace: both ways of finishing (copying down to [str],
    or cutting after [last_non_space]) leave the characters
    [start .. last_non_space] as the string. *)
Definition trim_whitespace_inplace (str : cstring) : cstring :=
  match str with
  | [] => []
  | _ :: _ =>
    let start := skip_spaces str in
    match start with
    | [] => []
    | _ :: _ => firstn (S (last_non_space start 0 0)) start
    end
  end.

Definition set_error (parser : csvkit_parser_t) (msg : option string)
  : csvkit_parser_t :=
  {| config := config parser; source := source parser;
     parser_row_number := parser_row_number parser;
     error_msg := msg;
     expected_field_count := expected_field_count parser |}.

Definition validate_config (config : option csvkit_config_t) : bool :=
  match config with
  | None => false
  | Some config =>
    if (delimiter config =? LF) || (delimiter config =? CR) then false
    else if (escape_char config =? quote_char config)
            && (delimiter config =? quote_char config) then false
    else if delimiter config =? quote_char config then false
    else if (quote_char config =? LF) || (quote_char config =? CR) then false
    else if (escape_char config =? LF) || (escape_char config =? CR) then false
    else true
  end.

(** [None] is the NULL result. *)
Definition csvkit_parser_new_with_config (config : option csvkit_config_t)
  : option csvkit_parser_t :=
  match config with
  | None => None
  | Some cfg =>
    if negb (validate_config config) then None
    else Some {| config := cfg; source := None; parser_row_number := 0;
                 error_msg := None; expected_field_count := 0 |}
  end.

Definition csvkit_parser_new : option csvkit_parser_t :=
  csvkit_parser_new_with_config (Some csvkit_config_default).

Definition csvkit_close (parser : csvkit_parser_t) : csvkit_parser_t :=
  {| config := config parser; source := None;
     parser_row_number := parser_row_number parser;
     error_msg := error_msg parser;
     expected_field_count := expected_field_count parser |}.

(** csvkit_open_string on a non-null handle and buffer: [data] are the
    [len] characters of the buffer, delivered as unsigned chars. *)
Definition csvkit_open_string (parser : csvkit_parser_t) (data : list Z)
  : csvkit_error_t * csvkit_parser_t :=
  let parser := csvkit_close parser in
  (CSVKIT_OK,
   {| config := config parser; source := Some (map to_uchar data);
      parser_row_number := 0;
      error_msg := error_msg parser;
      expected_field_count := 0 |}).

(** csvkit_open_stream on a non-null handle and stream: [stream] are the
    bytes the stream delivers to fgetc. *)
Definition csvkit_open_stream (parser : csvkit_parser_t) (stream : list Z)
  : csvkit_error_t * csvkit_parser_t :=
  let parser := csvkit_close parser in
  (CSVKIT_OK,
   {| config := config parser; source := Some stream;
      parser_row_number := 0;
      error_msg := error_msg parser;
      expected_field_count := 0 |}).

(** csvkit_get_error_msg; [None] is the null handle, and the null
    message. *)
Definition csvkit_get_error_msg (parser : option csvkit_parser_t)
  : option string :=
  match parser with
  | Some parser => error_msg parser
  | None => None
  end.

(** The locals of parse_row_internal together with the row under
    construction. *)
Record loop_state := {
  buffer : list Z;
  row_fields : list cstring;
  row_field_count : nat;
  in_quotes : bool;
  field_started : bool;
  field_was_quoted : bool
}.

Inductive loop_result :=
| LoopReturn (e : csvkit_error_t) (st : loop_state) (src : list Z)
| LoopExit (c : Z) (st : loop_state) (src : list Z).

Section WithPlatform.
Context {plat : Platform}.

(** "Add character to buffer": [c] is stored at [buffer_len++] and the field
    is started. *)
Definition add_char (c : Z) (st : loop_state) : loop_state :=
  {| buffer := buffer st ++ [to_char c];
     row_fields := row_fields st; row_field_count := row_field_count st;
     in_quotes := in_quotes st; field_started := true;
     field_was_quoted := field_was_quoted st |}.

Definition set_in_quotes (b : bool) (st : loop_state) : loop_state :=
  {| buffer := buffer st;
     row_fields := row_fields st; row_field_count := row_field_count st;
     in_quotes := b; field_started := field_started st;
     field_was_quoted := field_was_quoted st |}.

Definition start_quoted (st : loop_state) : loop_state :=
  {| buffer := buffer st;
     row_fields := row_fields st; row_field_count := row_field_count st;
     in_quotes := true; field_started := true; field_was_quoted := true |}.

(** The field the buffer holds, as it is appended to the row. *)
Definition field_value (cfg : csvkit_config_t) (st : loop_state) : cstring :=
  let v := string_duplicate (buffer st) in
  if trim_whitespace cfg && negb (field_was_quoted st)
  then trim_whitespace_inplace v else v.

(** "End of field" *)
Definition end_field (cfg : csvkit_config_t) (st : loop_state) : loop_state :=
  {| buffer := [];
     row_fields := row_fields st ++ [field_value cfg st];
     row_field_count := S (row_field_count st);
     in_quotes := in_quotes st; field_started := false;
     field_was_quoted := false |}.

(** The test strict mode applies to the character after a closing quote. *)
Definition after_quote_ok (cfg : csvkit_config_t) (next : Z) : bool :=
  (next =? delimiter cfg) || (next =? LF) || (next =? CR).

(** The [while ((c = read_char(parser)) != EOF)] loop of parse_row_internal.
    [src] is the unread input; it leaves the loop with the last value of [c]
    (EOF, or the character at which it broke out) or returns an error. *)
Fixpoint parse_loop (cfg : csvkit_config_t) (st : loop_state) (src : list Z)
  {struct src} : loop_result :=
  match src with
  | [] => LoopExit EOF st []
  | c0 :: rest =>
    (* Handle CRLF outside quoted fields only *)
    let cr := negb (in_quotes st) && (c0 =? CR) in
    let c := if cr then LF else c0 in
    let src1 :=
      if cr then
        match rest with
        | [] => rest
        | next :: rest' => if next =? LF then rest' else rest
        end
      else rest in
    if negb (in_quotes st) then
      if (c =? quote_char cfg) && negb (field_started st) then
        parse_loop cfg (start_quoted st) src1
      else if c =? delimiter cfg then
        parse_loop cfg (end_field cfg st) src1
      else if c =? LF then
        LoopExit c st src1
      else
        parse_loop cfg (add_char c st) src1
    else
      if c =? escape_char cfg then
        match src1 with
        | [] => LoopExit c st []
        | next :: src2 =>
          if next =? quote_char cfg then
            parse_loop cfg (add_char (quote_char cfg) st) src2
          else if next =? escape_char cfg then
            parse_loop cfg (add_char (escape_char cfg) st) src2
          else if escape_char cfg =? quote_char cfg then
            if strict_mode cfg && negb (after_quote_ok cfg next) then
              LoopReturn CSVKIT_ERROR_PARSE st src2
            else
              parse_loop cfg (set_in_quotes false st) src1
          else
            parse_loop cfg (add_char next (add_char c st)) src2
        end
      else if (c =? quote_char cfg)
              && negb (escape_char cfg =? quote_char cfg) then
        if strict_mode cfg then
          match src1 with
          | [] => parse_loop cfg (set_in_quotes false st) src1
          | next :: src2 =>
            if negb (after_quote_ok cfg next) then
              LoopReturn CSVKIT_ERROR_PARSE (set_in_quotes false st) src2
            else
              parse_loop cfg (set_in_quotes false st) src1
          end
        else
          parse_loop cfg (set_in_quotes false st) src1
      else
        parse_loop cfg (add_char c st) src1
  end.

Definition initial_state (row : csvkit_row_t) : loop_state :=
  {| buffer := []; row_fields := fields row;
     row_field_count := field_count row;
     in_quotes := false; field_started := false;
     field_was_quoted := false |}.

(** parse_row_internal: the error code, the row as the call leaves it and
    the unread input. *)
Definition parse_row_internal (cfg : csvkit_config_t) (row : csvkit_row_t)
  (src : list Z) : csvkit_error_t * csvkit_row_t * list Z :=
  match parse_loop cfg (initial_state row) src with
  | LoopReturn e st src' =>
    (e, {| fields := row_fields st; field_count := row_field_count st;
           row_number := row_number row |}, src')
  | LoopExit c st src' =>
    let row' := {| fields := row_fields st;
                   field_count := row_field_count st;
                   row_number := row_number row |} in
    if (c =? EOF) && (Nat.eqb (List.length (buffer st)) 0)
       && (Nat.eqb (row_field_count st) 0) && negb (field_started st)
    then (CSVKIT_ERROR_EOF, row', src')
    else if in_quotes st then (CSVKIT_ERROR_PARSE, row', src')
    else
      (CSVKIT_OK,
       {| fields := row_fields st ++ [field_value cfg st];
          field_count := S (row_field_count st);
          row_number := row_number row |},
       src')
  end.


(** csvkit_row_is_empty; [None] is the null row. *)
Definition csvkit_row_is_empty (row : option csvkit_row_t) : bool :=
  match row with
  | None => true
  | Some row =>
    if Nat.eqb (field_count row) 0 then true
    else forallb (fun f => match f with [] => true | _ :: _ => false end)
                 (firstn (field_count row) (fields row))
  end.

Definition unread_input (parser : csvkit_parser_t) : list Z :=
  match source parser with Some src => src | None => [] end.

(** What one pass from the label read_next_row to a return or to the
    [goto] does to the handle: the source has advanced, the row counter
    and the expected field count are as given. *)
Definition advance (parser : csvkit_parser_t) (src : list Z)
  (row_no expected : nat) : csvkit_parser_t :=
  {| config := config parser;
     source := match source parser with Some _ => Some src | None => None end;
     parser_row_number := row_no;
     error_msg := error_msg parser;
     expected_field_count := expected |}.

Definition stamp (row : csvkit_row_t) (n : nat) : csvkit_row_t :=
  {| fields := fields row; field_count := field_count row; row_number := n |}.

(** The body of csvkit_read_row from the label read_next_row on.  The
    [goto] is the recursive call; [fuel] bounds the number of rows decoded
    by one call, and [None] means that it ran out. *)
Fixpoint read_next_row (fuel : nat) (parser : csvkit_parser_t)
  : option (csvkit_error_t * option csvkit_row_t * csvkit_parser_t) :=
  match fuel with
  | O => None
  | S fuel' =>
    let row := {| fields := []; field_count := 0; row_number := 0 |} in
    let '(result, row, src') :=
      parse_row_internal (config parser) row (unread_input parser) in
    match result with
    | CSVKIT_OK =>
      (* Update row number *)
      let row_no := S (parser_row_number parser) in
      let row := stamp row row_no in
      let expected := expected_field_count parser in
      if skip_empty_rows (config parser) && csvkit_row_is_empty (Some row)
      then read_next_row fuel' (advance parser src' row_no expected)
      else if strict_mode (config parser) then
        if Nat.eqb expected 0 then
          Some (CSVKIT_OK, Some row,
                advance parser src' row_no (field_count row))
        else if negb (Nat.eqb (field_count row) expected) then
          Some (CSVKIT_ERROR_PARSE, None,
                set_error (advance parser src' row_no expected)
                          (Some "Field count mismatch in strict mode"%string))
        else Some (CSVKIT_OK, Some row, advance parser src' row_no expected)
      else Some (CSVKIT_OK, Some row, advance parser src' row_no expected)
    | CSVKIT_ERROR_PARSE =>
      Some (result, None,
            set_error (advance parser src' (parser_row_number parser)
                               (expected_field_count parser))
                      (Some "Unclosed quoted field"%string))
    | CSVKIT_ERROR_MEMORY =>
      Some (result, None,
            set_error (advance parser src' (parser_row_number parser)
                               (expected_field_count parser))
                      (Some "Out of memory"%string))
    | _ =>
      Some (result, None,
            advance parser src' (parser_row_number parser)
                    (expected_field_count parser))
    end
  end.

(** csvkit_read_row on a non-null handle and a non-null [out_row]: the
    error code, [*out_row] and the handle afterwards.  Every decoded row
    consumes input, so one more pass than there are unread bytes is
    enough. *)
Definition csvkit_read_row (parser : csvkit_parser_t)
  : option (csvkit_error_t * option csvkit_row_t * csvkit_parser_t) :=
  match source parser with
  | None => Some (CSVKIT_ERROR_INVALID_ARG, None, parser)
  | Some src => read_next_row (S (List.length src)) parser
  end.

(** Calling csvkit_read_row until it stops returning CSVKIT_OK: the rows
    handed out, the code that ended the iteration and the handle. *)
Fixpoint read_rows (n : nat) (parser : csvkit_parser_t)
  : option (list csvkit_row_t * csvkit_error_t * csvkit_parser_t) :=
  match n with
  | O => None
  | S n' =>
    match csvkit_read_row parser with
    | None => None
    | Some (CSVKIT_OK, Some row, parser') =>
      match read_rows n' parser' with
      | Some (rows, e, parser'') => Some (row :: rows, e, parser'')
      | None => None
      end
    | Some (e, _, parser') => Some ([], e, parser')
    end
  end.

Definition read_all (parser : csvkit_parser_t)
  : option (list csvkit_row_t * csvkit_error_t * csvkit_parser_t) :=
  read_rows (S (List.length (unread_input parser))) parser.

End WithPlatform.

(** The outcome of reading [row->fields[index]]: [OutOfBounds] stands for
    an access outside the array. *)
Inductive field_ptr :=
| NULL
| Field (f : cstring)
| OutOfBounds.

Definition csvkit_row_get_field (row : option csvkit_row_t) (index : nat)
  : field_ptr :=
  match row with
  | None => NULL
  | Some row =>
    if Nat.leb (field_count row) index then NULL
    else match nth_error (fields row) index with
         | Some f => Field f
         | None => OutOfBounds
         end
  end.

Definition csvkit_row_field_count (row : option csvkit_row_t) : nat :=
  match row with Some row => field_count row | None => 0 end.

End Parser.

(** ** writer.c *)

Module Writer.

(** The handle of writer.c.  [file] is [None] while no sink is bound and
    otherwise holds the bytes written to the sink so far. *)
Record csvkit_writer_t := {
  config : csvkit_config_t;
  file : option (list Z);
  error_msg : option string
}.

Definition validate_config (config : option csvkit_config_t) : bool :=
  match config with
  | None => false
  | Some config =>
    if (delimiter config =? LF) || (delimiter config =? CR) then false
    else if delimiter config =? quote_char config then false
    else if (quote_char config =? LF) || (quote_char config =? CR) then false
    else if (escape_char config =? LF) || (escape_char config =? CR) then false
    else true
  end.

(** needs_quoting on a non-null field. *)
Fixpoint needs_quoting (field : cstring) (delimiter quote_char : Z) : bool :=
  match field with
  | [] => false
  | p :: field' =>
    if (p =? delimiter) || (p =? quote_char) || (p =? LF) || (p =? CR)
    then true
    else needs_quoting field' delimiter quote_char
  end.

Definition csvkit_writer_new_with_config (config : option csvkit_config_t)
  : option csvkit_writer_t :=
  match config with
  | None => None
  | Some cfg =>
    if negb (validate_config config) then None
    else Some {| config := cfg; file := None; error_msg := None |}
  end.

Definition csvkit_writer_new : option csvkit_writer_t :=
  csvkit_writer_new_with_config (Some csvkit_config_default).

(** csvkit_writer_open_stream on a stream that holds [written] already. *)
Definition csvkit_writer_open_stream (writer : csvkit_writer_t)
  (written : list Z) : csvkit_error_t * csvkit_writer_t :=
  (CSVKIT_OK,
   {| config := config writer; file := Some written;
      error_msg := error_msg writer |}).

Definition fputc (c : Z) (out : list Z) : list Z := out ++ [to_uchar c].

Definition fputs (s : cstring) (out : list Z) : list Z :=
  out ++ map to_uchar s.

(** The inner loop over the characters of a quoted field. *)
Fixpoint write_quoted_chars (cfg : csvkit_config_t) (p : cstring)
  (out : list Z) : list Z :=
  match p with
  | [] => out
  | c :: p' =>
    if c =? quote_char cfg
    then write_quoted_chars cfg p'
           (fputc (quote_char cfg) (fputc (escape_char cfg) out))
    else write_quoted_chars cfg p' (fputc c out)
  end.

(** The loop [for (i = 0; i < field_count; i++)] over the fields that are
    left, [i] being the index of the first of them; a null field pointer
    is [None]. *)
Fixpoint write_fields (cfg : csvkit_config_t) (i : nat)
  (fields : list (option cstring)) (out : list Z) : list Z :=
  match fields with
  | [] => out
  | fp :: fields' =>
    let out := if Nat.ltb 0 i then fputc (delimiter cfg) out else out in
    let field := match fp with Some f => f | None => [] end in
    let out :=
      if needs_quoting field (delimiter cfg) (quote_char cfg) then
        fputc (quote_char cfg)
          (write_quoted_chars cfg field (fputc (quote_char cfg) out))
      else fputs field out in
    write_fields cfg (S i) fields' out
  end.

(** csvkit_writer_write_row on a non-null handle; [fields] are the
    [field_count] entries of the array. *)
Definition csvkit_writer_write_row (writer : csvkit_writer_t)
  (fields : list (option cstring)) : csvkit_error_t * csvkit_writer_t :=
  match file writer with
  | None => (CSVKIT_ERROR_INVALID_ARG, writer)
  | Some out =>
    let out := write_fields (config writer) 0 fields out in
    let out := fputc LF out in
    (CSVKIT_OK,
     {| config := config writer; file := Some out;
        error_msg := error_msg writer |})
  end.

(** Writing rows one after the other, stopping at the first failure. *)
Fixpoint write_rows (writer : csvkit_writer_t)
  (rows : list (list (option cstring))) : csvkit_error_t * csvkit_writer_t :=
  match rows with
  | [] => (CSVKIT_OK, writer)
  | row :: rows' =>
    match csvkit_writer_write_row writer row with
    | (CSVKIT_OK, writer') => write_rows writer' rows'
    | failure => failure
    end
  end.

End Writer.

(** ** Notation for test data *)

(** The characters of a literal, as the ASCII codes a C compiler gives them. *)
Definition chars (s : string) : cstring :=
  map (fun a => Z.of_nat (Ascii.nat_of_ascii a)) (list_ascii_of_string s).

Definition DQ : Z := 34.    (* the double quote *)

(** The two ways a platform may treat [char]. *)
Definition signed_char_platform : Platform := {| char_is_signed := true |}.
Definition unsigned_char_platform : Platform := {| char_is_signed := false |}.

(** A parser for [cfg] reading the in-memory buffer [data]. *)
Definition parser_on {plat : Platform} (cfg : csvkit_config_t)
  (data : list Z) : option Parser.csvkit_parser_t :=
  match Parser.csvkit_parser_new_with_config (Some cfg) with
  | Some parser => Some (snd (Parser.csvkit_open_string parser data))
  | None => None
  end.

(** * Vocabulary of the specification and of the proofs *)

(** A configuration that breaks one of the invariants the constructors
    check: delimiter equal to quote_char, or a line terminator among the
    three characters. *)
Definition invalid_config (cfg : csvkit_config_t) : Prop :=
  delimiter cfg = quote_char cfg
  \/ delimiter cfg = LF \/ delimiter cfg = CR
  \/ quote_char cfg = LF \/ quote_char cfg = CR
  \/ escape_char cfg = LF \/ escape_char cfg = CR.

(** The encoding of a row as the specification words it: a field is
    quoted when it contains the delimiter, the quote character, '\n' or
    '\r'; a quoted field is wrapped in quote characters and each quote
    character inside is preceded by the escape character; a delimiter
    stands before every field but the first; one '\n' ends the row. *)
Definition is_special (cfg : csvkit_config_t) (c : Z) : Prop :=
  c = delimiter cfg \/ c = quote_char cfg \/ c = LF \/ c = CR.

Definition is_specialb (cfg : csvkit_config_t) (c : Z) : bool :=
  (c =? delimiter cfg) || (c =? quote_char cfg) || (c =? LF) || (c =? CR).

Definition spec_escape (cfg : csvkit_config_t) (f : cstring) : list Z :=
  flat_map (fun c => if c =? quote_char cfg
                     then [escape_char cfg; quote_char cfg] else [c]) f.

Definition spec_field (cfg : csvkit_config_t) (fp : option cstring) : list Z :=
  let f := match fp with Some f => f | None => [] end in
  if existsb (is_specialb cfg) f
  then [quote_char cfg] ++ spec_escape cfg f ++ [quote_char cfg]
  else f.

Fixpoint spec_fields (cfg : csvkit_config_t) (first : bool)
  (fields : list (option cstring)) : list Z :=
  match fields with
  | [] => []
  | fp :: fields' =>
    (if first then [] else [delimiter cfg])
    ++ spec_field cfg fp ++ spec_fields cfg false fields'
  end.

Definition spec_row (cfg : csvkit_config_t) (fields : list (option cstring))
  : list Z :=
  map to_uchar (spec_fields cfg true fields ++ [LF]).

(** A field pointer with NULL replaced by a pointer to the empty string. *)
Definition or_empty (fp : option cstring) : option cstring :=
  match fp with Some f => Some f | None => Some [] end.

(** A row whose [fields] array holds at least [field_count] entries. *)
Definition row_wf (row : csvkit_row_t) : Prop :=
  (field_count row <= List.length (fields row))%nat.

(** Reading every row of the in-memory buffer [data] under [cfg]: the
    fields of the rows handed out, in order, and the code that ended the
    iteration. *)
Definition parse {plat : Platform} (cfg : csvkit_config_t) (data : list Z)
  : option (list (list cstring) * csvkit_error_t) :=
  match parser_on cfg data with
  | Some parser =>
    match Parser.read_all parser with
    | Some (rows, e, _) => Some (map fields rows, e)
    | None => None
    end
  | None => None
  end.

(** The default dialect with the three flags as given. *)
Definition default_with (trim skip strict : bool) : csvkit_config_t :=
  {| delimiter := delimiter csvkit_config_default;
     quote_char := quote_char csvkit_config_default;
     escape_char := escape_char csvkit_config_default;
     trim_whitespace := trim; skip_empty_rows := skip;
     strict_mode := strict |}.

(** One iteration of the loop of parse_row_internal on the character [c0]
    just read and the input [rest] behind it: either the loop goes on from
    a new state and input, or it is left.  [parse_loop_step] shows that
    parse_loop is the iteration of this step. *)
Inductive step_result :=
| Continue (st : Parser.loop_state) (src : list Z)
| Leave (r : Parser.loop_result).

Definition loop_step {plat : Platform} (cfg : csvkit_config_t)
  (st : Parser.loop_state) (c0 : Z) (rest : list Z) : step_result :=
  let cr := negb (Parser.in_quotes st) && (c0 =? CR) in
  let c := if cr then LF else c0 in
  let src1 :=
    if cr then
      match rest with
      | [] => rest
      | next :: rest' => if next =? LF then rest' else rest
      end
    else rest in
  if negb (Parser.in_quotes st) then
    if (c =? quote_char cfg) && negb (Parser.field_started st) then
      Continue (Parser.start_quoted st) src1
    else if c =? delimiter cfg then
      Continue (Parser.end_field cfg st) src1
    else if c =? LF then
      Leave (Parser.LoopExit c st src1)
    else
      Continue (Parser.add_char c st) src1
  else
    if c =? escape_char cfg then
      match src1 with
      | [] => Leave (Parser.LoopExit c st [])
      | next :: src2 =>
        if next =? quote_char cfg then
          Continue (Parser.add_char (quote_char cfg) st) src2
        else if next =? escape_char cfg then
          Continue (Parser.add_char (escape_char cfg) st) src2
        else if escape_char cfg =? quote_char cfg then
          if strict_mode cfg && negb (Parser.after_quote_ok cfg next) then
            Leave (Parser.LoopReturn CSVKIT_ERROR_PARSE st src2)
          else
            Continue (Parser.set_in_quotes false st) src1
        else
          Continue (Parser.add_char next (Parser.add_char c st)) src2
      end
    else if (c =? quote_char cfg)
            && negb (escape_char cfg =? quote_char cfg) then
      if strict_mode cfg then
        match src1 with
        | [] => Continue (Parser.set_in_quotes false st) src1
        | next :: src2 =>
          if negb (Parser.after_quote_ok cfg next) then
            Leave (Parser.LoopReturn CSVKIT_ERROR_PARSE
                     (Parser.set_in_quotes false st) src2)
          else
            Continue (Parser.set_in_quotes false st) src1
        end
      else
        Continue (Parser.set_in_quotes false st) src1
    else
      Continue (Parser.add_char c st) src1.

(** The row under construction has got something: a started field or a
    finished one. *)
Definition row_begun (st : Parser.loop_state) : Prop :=
  Parser.field_started st = true \/ (0 < Parser.row_field_count st)%nat.

(** The condition under which parse_row_internal reports the end of input
    once the loop is left with [c] in state [st]. *)
Definition nothing_read (c : Z) (st : Parser.loop_state) : Prop :=
  c = EOF /\ Parser.buffer st = [] /\ Parser.row_field_count st = 0%nat
  /\ Parser.field_started st = false.

(** The row csvkit_read_row allocates before it calls parse_row_internal. *)
Definition fresh_row : csvkit_row_t :=
  {| fields := []; field_count := 0; row_number := 0 |}.

(** The input a finished loop leaves unread. *)
Definition remaining (r : Parser.loop_result) : list Z :=
  match r with
  | Parser.LoopReturn _ _ src => src
  | Parser.LoopExit _ _ src => src
  end.

Definition final_state (r : Parser.loop_result) : Parser.loop_state :=
  match r with
  | Parser.LoopReturn _ st _ => st
  | Parser.LoopExit _ st _ => st
  end.

(** [field_count] is the number of fields stored. *)
Definition counted (st : Parser.loop_state) : Prop :=
  Parser.row_field_count st = List.length (Parser.row_fields st).

(** One pass of csvkit_read_row from the label read_next_row: it ends the
    call with a result, or it has skipped an empty row and jumps back to
    the label.  [read_next_row_pass] shows that read_next_row iterates
    it. *)
Inductive pass_result :=
| Done (res : csvkit_error_t * option csvkit_row_t * Parser.csvkit_parser_t)
| Skip (parser : Parser.csvkit_parser_t).

Definition pass {plat : Platform} (parser : Parser.csvkit_parser_t)
  : pass_result :=
  let '(result, row, src') :=
    Parser.parse_row_internal (Parser.config parser) fresh_row
                              (Parser.unread_input parser) in
  match result with
  | CSVKIT_OK =>
    let row_no := S (Parser.parser_row_number parser) in
    let row := Parser.stamp row row_no in
    let expected := Parser.expected_field_count parser in
    if skip_empty_rows (Parser.config parser)
       && Parser.csvkit_row_is_empty (Some row)
    then Skip (Parser.advance parser src' row_no expected)
    else if strict_mode (Parser.config parser) then
      if Nat.eqb expected 0 then
        Done (CSVKIT_OK, Some row,
              Parser.advance parser src' row_no (field_count row))
      else if negb (Nat.eqb (field_count row) expected) then
        Done (CSVKIT_ERROR_PARSE, None,
              Parser.set_error (Parser.advance parser src' row_no expected)
                (Some "Field count mismatch in strict mode"%string))
      else Done (CSVKIT_OK, Some row,
                 Parser.advance parser src' row_no expected)
    else Done (CSVKIT_OK, Some row, Parser.advance parser src' row_no expected)
  | CSVKIT_ERROR_PARSE =>
    Done (result, None,
          Parser.set_error
            (Parser.advance parser src' (Parser.parser_row_number parser)
                            (Parser.expected_field_count parser))
            (Some "Unclosed quoted field"%string))
  | CSVKIT_ERROR_MEMORY =>
    Done (result, None,
          Parser.set_error
            (Parser.advance parser src' (Parser.parser_row_number parser)
                            (Parser.expected_field_count parser))
            (Some "Out of memory"%string))
  | _ =>
    Done (result, None,
          Parser.advance parser src' (Parser.parser_row_number parser)
                         (Parser.expected_field_count parser))
  end.

(** [skips_to parser n parser'] : [n] passes that skip an empty row each
    lead from the handle [parser] to [parser']. *)
Inductive skips_to {plat : Platform}
  : Parser.csvkit_parser_t -> nat -> Parser.csvkit_parser_t -> Prop :=
| skips_none parser : skips_to parser 0 parser
| skips_more parser parser' n parser'' :
    pass parser = Skip parser' -> skips_to parser' n parser'' ->
    skips_to parser (S n) parser''.

(** The results of two successive calls of csvkit_read_row on the buffer
    [data]: error code and row of each. *)
Definition read_twice {plat : Platform} (cfg : csvkit_config_t)
  (data : list Z)
  : option ((csvkit_error_t * option csvkit_row_t)
            * (csvkit_error_t * option csvkit_row_t)) :=
  match parser_on cfg data with
  | Some parser0 =>
    match Parser.csvkit_read_row parser0 with
    | Some (e1, row1, parser1) =>
      match Parser.csvkit_read_row parser1 with
      | Some (e2, row2, _) => Some ((e1, row1), (e2, row2))
      | None => None
      end
    | None => None
    end
  | None => None
  end.

(** A handle for [cfg] bound to a source with [data] unread, after [n] rows
    and with [k] as the expected field count. *)
Definition handle (cfg : csvkit_config_t) (data : list Z) (n k : nat)
  : Parser.csvkit_parser_t :=
  {| Parser.config := cfg; Parser.source := Some data;
     Parser.parser_row_number := n; Parser.error_msg := None;
     Parser.expected_field_count := k |}.

(** The row numbers of the rows that reading all of [data] hands out. *)
Definition row_numbers {plat : Platform} (cfg : csvkit_config_t)
  (data : list Z) : option (list nat) :=
  match parser_on cfg data with
  | Some parser =>
    match Parser.read_all parser with
    | Some (rows, _, _) => Some (map row_number rows)
    | None => None
    end
  | None => None
  end.

(** The default delimiter and quote character with a backslash as the
    escape character. *)
Definition backslash_config : csvkit_config_t :=
  {| delimiter := 44; quote_char := 34; escape_char := 92;
     trim_whitespace := false; skip_empty_rows := false;
     strict_mode := false |}.

(** The state of the loop inside a quoted field with [buf] accumulated. *)
Definition quoted_state (buf : list Z) (done : list cstring)
  : Parser.loop_state :=
  {| Parser.buffer := buf; Parser.row_fields := done;
     Parser.row_field_count := List.length done;
     Parser.in_quotes := true; Parser.field_started := true;
     Parser.field_was_quoted := true |}.

(** *** Round trip *)

Definition printable (c : Z) : Prop := 32 <= c <= 126.

Definition ascii_char (c : Z) : Prop := 0 <= c <= 127.

(** The sink after writing [rows], each field a non-null string, with a
    writer for [cfg] bound to an empty stream. *)
Definition write (cfg : csvkit_config_t) (rows : list (list cstring))
  : option (list Z) :=
  match Writer.csvkit_writer_new_with_config (Some cfg) with
  | Some writer =>
    match Writer.write_rows
            (snd (Writer.csvkit_writer_open_stream writer []))
            (map (map Some) rows) with
    | (CSVKIT_OK, writer') => Writer.file writer'
    | _ => None
    end
  | None => None
  end.

(** A field has no blank at either end. *)
Definition no_blank_ends (f : cstring) : Prop :=
  hd 0 f <> 32 /\ last f 0 <> 32.

(** What the writer does with the field [f]: it quotes it or not. *)
Definition quoted (cfg : csvkit_config_t) (f : cstring) : bool :=
  Writer.needs_quoting f (delimiter cfg) (quote_char cfg).

(** Every escape character of the field is followed by a character that is
    neither the escape nor the quote character. *)
Inductive escapes_kept (cfg : csvkit_config_t) : cstring -> Prop :=
| escapes_kept_nil : escapes_kept cfg []
| escapes_kept_plain x f :
    x <> escape_char cfg -> escapes_kept cfg f -> escapes_kept cfg (x :: f)
| escapes_kept_escape y f :
    y <> escape_char cfg -> y <> quote_char cfg -> escapes_kept cfg f ->
    escapes_kept cfg (escape_char cfg :: y :: f).

(** The fields for which the parser undoes what the writer does: printable
    characters; in a field that is written quoted, no escape character
    before another escape character, before a quote character or at the
    end; and, when trimming is on, no blank at either end of a field that
    is written unquoted. *)
Definition field_ok (cfg : csvkit_config_t) (f : cstring) : Prop :=
  Forall printable f
  /\ (quoted cfg f = true -> escapes_kept cfg f)
  /\ (trim_whitespace cfg = true -> quoted cfg f = false ->
      no_blank_ends f).

(** The rows for which it does: at least one field each, not skipped as
    empty when empty rows are skipped, and of one length in strict mode. *)
Definition row_ok (cfg : csvkit_config_t) (row : list cstring) : Prop :=
  row <> [] /\ Forall (field_ok cfg) row
  /\ (skip_empty_rows cfg = true -> exists f, In f row /\ f <> []).

Definition rows_ok (cfg : csvkit_config_t) (rows : list (list cstring))
  : Prop :=
  Forall (row_ok cfg) rows
  /\ (strict_mode cfg = true ->
      forall r1 r2, In r1 rows -> In r2 rows ->
                    List.length r1 = List.length r2).

(** A value of type char that is not negative: every ASCII character, and
    every character where char is unsigned. *)
Definition nonneg_char {plat : Platform} (c : Z) : Prop :=
  0 <= c /\ to_char c = c.

(** The dialects of the round trip: accepted by the constructors, the three
    characters pairwise distinct and not negative as chars. *)
Definition dialect_ok {plat : Platform} (cfg : csvkit_config_t) : Prop :=
  Parser.validate_config (Some cfg) = true
  /\ quote_char cfg <> escape_char cfg
  /\ escape_char cfg <> delimiter cfg
  /\ nonneg_char (delimiter cfg) /\ nonneg_char (quote_char cfg)
  /\ nonneg_char (escape_char cfg).

(** The state of the loop at the start of a field, [done] being the fields
    of the row so far, and after the characters of a field have been
    read. *)
Definition field_start (done : list cstring) : Parser.loop_state :=
  {| Parser.buffer := []; Parser.row_fields := done;
     Parser.row_field_count := List.length done;
     Parser.in_quotes := false; Parser.field_started := false;
     Parser.field_was_quoted := false |}.

Definition field_read (f : cstring) (was_quoted started : bool)
  (done : list cstring) : Parser.loop_state :=
  {| Parser.buffer := f; Parser.row_fields := done;
     Parser.row_field_count := List.length done;
     Parser.in_quotes := false; Parser.field_started := started;
     Parser.field_was_quoted := was_quoted |}.

(** The text of a row with the fields [f :: fs], field by field. *)
Fixpoint row_text (cfg : csvkit_config_t) (f : cstring) (fs : list cstring)
  : list Z :=
  spec_field cfg (Some f)
  ++ match fs with
     | [] => [LF]
     | f' :: fs' => delimiter cfg :: row_text cfg f' fs'
     end.

Definition rows_text (cfg : csvkit_config_t) (rows : list (list cstring))
  : list Z :=
  flat_map (fun row => match row with
                       | [] => [LF]
                       | f :: fs => row_text cfg f fs
                       end) rows.

(** What parse_row_internal does once the loop is over. *)
Definition finish {plat : Platform} (cfg : csvkit_config_t)
  (row : csvkit_row_t) (r : Parser.loop_result)
  : csvkit_error_t * csvkit_row_t * list Z :=
  match r with
  | Parser.LoopReturn e st src' =>
    (e, {| fields := Parser.row_fields st;
           field_count := Parser.row_field_count st;
           row_number := row_number row |}, src')
  | Parser.LoopExit c st src' =>
    let row' := {| fields := Parser.row_fields st;
                   field_count := Parser.row_field_count st;
                   row_number := row_number row |} in
    if (c =? EOF) && (Nat.eqb (List.length (Parser.buffer st)) 0)
       && (Nat.eqb (Parser.row_field_count st) 0)
       && negb (Parser.field_started st)
    then (CSVKIT_ERROR_EOF, row', src')
    else if Parser.in_quotes st then (CSVKIT_ERROR_PARSE, row', src')
    else
      (CSVKIT_OK,
       {| fields := Parser.row_fields st ++ [Parser.field_value cfg st];
          field_count := S (Parser.row_field_count st);
          row_number := row_number row |},
       src')
  end.

(** The loop state after the characters [f] have been appended. *)
Definition add_chars {plat : Platform} (f : list Z) (st : Parser.loop_state)
  : Parser.loop_state :=
  fold_left (fun s x => Parser.add_char x s) f st.

Definition nonempty (f : cstring) : bool :=
  match f with [] => false | _ :: _ => true end.

(** The row csvkit_read_row hands out for the fields [row] as its
    [n]-th. *)
Definition row_of (row : list cstring) (n : nat) : csvkit_row_t :=
  {| fields := row; field_count := List.length row; row_number := n |}.

(** The rows handed out for [rows] after [n] earlier ones. *)
Fixpoint numbered (n : nat) (rows : list (list cstring))
  : list csvkit_row_t :=
  match rows with
  | [] => []
  | row :: rows' => row_of row (S n) :: numbered (S n) rows'
  end.

(** The expected field count strict mode holds after the rows [rows], [k]
    being the count before them. *)
Definition expected_after (cfg : csvkit_config_t) (k : nat)
  (rows : list (list cstring)) : nat :=
  match rows with
  | [] => k
  | row :: _ =>
    if strict_mode cfg && Nat.eqb k 0 then List.length row else k
  end.

(** The dialect with a backslash as escape character and the flags as
    given. *)
Definition backslash_with (trim skip strict : bool) : csvkit_config_t :=
  {| delimiter := 44; quote_char := 34; escape_char := 92;
     trim_whitespace := trim; skip_empty_rows := skip;
     strict_mode := strict |}.

(** Writing [rows] and parsing the text under the same dialect gives the
    rows back. *)
Definition round_trip_holds {plat : Platform} (cfg : csvkit_config_t)
  (rows : list (list cstring)) : Prop :=
  exists text,
    write cfg rows = Some text
    /\ option_map fst (parse cfg text) = Some rows.

(** The premises of the round trip as the specification has them. *)
Definition distinct_dialect (cfg : csvkit_config_t) : Prop :=
  Parser.validate_config (Some cfg) = true
  /\ Writer.validate_config (Some cfg) = true
  /\ delimiter cfg <> quote_char cfg
  /\ quote_char cfg <> escape_char cfg
  /\ escape_char cfg <> delimiter cfg.

Definition printable_rows (rows : list (list cstring)) : Prop :=
  Forall (Forall (Forall printable)) rows.

(** *** Further vocabulary *)

(** A character that isspace accepts. *)
Definition space (c : Z) : Prop := isspace (to_uchar c) = true.

(** A string that does not begin and does not end with a space. *)
Definition trimmed (s : cstring) : Prop :=
  match s with
  | [] => True
  | c :: _ => ~ space c /\ ~ space (last s 0)
  end.

(** A character that is ordinary outside quotes. *)
Definition plain (cfg : csvkit_config_t) (x : Z) : Prop :=
  x <> delimiter cfg /\ x <> quote_char cfg /\ x <> LF /\ x <> CR.

(** The ways a line ends in front of [rest]: a newline, a carriage return
    with a newline, or a carriage return that no newline follows. *)
Definition line_end (term rest : list Z) : Prop :=
  term = [LF] \/ term = [CR; LF]
  \/ (term = [CR] /\ forall rest', rest <> LF :: rest').

(** The text of a line: the texts of its fields [a :: others] with
    delimiters between them, and [term] at the end. *)
Fixpoint line_text {A : Type} (cfg : csvkit_config_t) (text : A -> list Z)
  (a : A) (others : list A) (term : list Z) : list Z :=
  text a
  ++ match others with
     | [] => term
     | a' :: others' => delimiter cfg :: line_text cfg text a' others' term
     end.

(** The field the parser makes of the unquoted characters [f]. *)
Definition unquoted_value {plat : Platform} (cfg : csvkit_config_t)
  (f : list Z) : cstring :=
  let v := Parser.string_duplicate (map to_char f) in
  if trim_whitespace cfg then Parser.trim_whitespace_inplace v else v.

(** The characters between the quotes of a field are read back as they
    were written: the escape character doubles as the quote character, or
    every escape character in the field is kept. *)
Definition body_ok (cfg : csvkit_config_t) (f : cstring) : Prop :=
  escape_char cfg = quote_char cfg \/ escapes_kept cfg f.

(** Fields of ordinary characters, each followed by a delimiter. *)
Definition leading_fields (cfg : csvkit_config_t) (fs : list (list Z))
  : list Z :=
  flat_map (fun f => f ++ [delimiter cfg]) fs.

(** The field the parser makes of the characters [f] of a quoted field. *)
Definition quoted_value {plat : Platform} (f : list Z) : cstring :=
  Parser.string_duplicate (map to_char f).

(** *** Round trip, in general *)

(** A character of a field: not NUL, and not negative as a char. *)
Definition text_char {plat : Platform} (c : Z) : Prop :=
  0 < c /\ to_char c = c.

(** The fields the parser reads back as the writer wrote them, under any
    valid dialect: text characters; when the field is written quoted, its
    escaping is undone; when it is written unquoted and trimming is on, it
    neither begins nor ends with a space. *)
Definition field_ok_any {plat : Platform} (cfg : csvkit_config_t)
  (f : cstring) : Prop :=
  Forall text_char f
  /\ (quoted cfg f = true -> body_ok cfg f)
  /\ (trim_whitespace cfg = true -> quoted cfg f = false -> trimmed f).

Definition row_ok_any {plat : Platform} (cfg : csvkit_config_t)
  (row : list cstring) : Prop :=
  row <> [] /\ Forall (field_ok_any cfg) row
  /\ (skip_empty_rows cfg = true -> exists f, In f row /\ f <> []).

Definition rows_ok_any {plat : Platform} (cfg : csvkit_config_t)
  (rows : list (list cstring)) : Prop :=
  Forall (row_ok_any cfg) rows
  /\ (strict_mode cfg = true ->
      forall r1 r2, In r1 rows -> In r2 rows ->
                    List.length r1 = List.length r2).

(** A dialect the constructors accept whose characters are not negative as
    chars. *)
Definition dialect_any {plat : Platform} (cfg : csvkit_config_t) : Prop :=
  Parser.validate_config (Some cfg) = true
  /\ nonneg_char (delimiter cfg) /\ nonneg_char (quote_char cfg)
  /\ nonneg_char (escape_char cfg).

(** *** Handles that are used again *)

(** Two handles that differ at most in the stored message. *)
Definition same_input (p q : Parser.csvkit_parser_t) : Prop :=
  Parser.config p = Parser.config q
  /\ Parser.source p = Parser.source q
  /\ Parser.parser_row_number p = Parser.parser_row_number q
  /\ Parser.expected_field_count p = Parser.expected_field_count q.

(** Two calls of csvkit_read_row with the same code and row that leave
    such handles. *)
Definition same_result
  (r1 r2 : option (csvkit_error_t * option csvkit_row_t
                   * Parser.csvkit_parser_t)) : Prop :=
  match r1, r2 with
  | Some (e1, o1, p1), Some (e2, o2, p2) =>
    e1 = e2 /\ o1 = o2 /\ same_input p1 p2
  | None, None => True
  | _, _ => False
  end.

(** The same for an iteration to the first code other than CSVKIT_OK. *)
Definition same_rows
  (r1 r2 : option (list csvkit_row_t * csvkit_error_t
                   * Parser.csvkit_parser_t)) : Prop :=
  match r1, r2 with
  | Some (rows1, e1, p1), Some (rows2, e2, p2) =>
    rows1 = rows2 /\ e1 = e2 /\ same_input p1 p2
  | None, None => True
  | _, _ => False
  end.

(** * The C++ wrapper: extras/cpp/csvkit.cpp *)

(** csvkit_writer_get_error_msg of writer.c; [None] is the null handle, and
    the null message. *)
Definition csvkit_writer_get_error_msg
  (writer : option Writer.csvkit_writer_t) : option string :=
  match writer with
  | Some writer => Writer.error_msg writer
  | None => None
  end.

Module Cpp.

(** What a function of the wrapper throws. *)
Inductive exception :=
| Exception (what : string)        (* csvkit::Exception *)
| out_of_range (what : string).    (* std::out_of_range *)

(** How a call ends: with a value, or with an exception. *)
Inductive outcome (A : Type) :=
| Return (a : A)
| Throw (e : exception).

Arguments Return {A} a.
Arguments Throw {A} e.

(** A std::string is the list of its characters, NUL included where it
    holds one.  What a C function reads at c_str() are the characters in
    front of the first NUL. *)
Fixpoint c_str (s : list Z) : cstring :=
  match s with
  | [] => []
  | c :: s' => if c =? 0 then [] else c :: c_str s'
  end.

(** ** Row *)

(** The members fields_ and row_number_; row_ stays null. *)
Record Row := {
  fields_ : list (list Z);
  row_number_ : nat
}.

(** Row::Row(csvkit_row_t* ): the [field_count] strings of the array are
    copied. *)
Definition Row_new (row : option csvkit_row_t) : outcome Row :=
  match row with
  | None => Throw (Exception "Null row pointer")
  | Some row =>
    Return {| fields_ := firstn (field_count row) (fields row);
              row_number_ := row_number row |}
  end.

Definition Row_size (row : Row) : nat := List.length (fields_ row).

Definition Row_at (row : Row) (index : nat) : outcome (list Z) :=
  if Nat.leb (Row_size row) index
  then Throw (out_of_range "Field index out of range")
  else Return (nth index (fields_ row) []).

(** ** Parser *)

(** A member function of Parser: from the handle parser_ to the outcome
    and the handle afterwards.  [None] stands for no outcome: an
    undefined step, or a loop cut short by its bound. *)
Definition M (A : Type) : Type :=
  Parser.csvkit_parser_t -> option (outcome A * Parser.csvkit_parser_t).

Definition ret {A : Type} (a : A) : M A :=
  fun parser_ => Some (Return a, parser_).

Definition throw {A : Type} (e : exception) : M A :=
  fun parser_ => Some (Throw e, parser_).

Definition undefined {A : Type} : M A := fun _ => None.

Definition bind {A B : Type} (m : M A) (f : A -> M B) : M B :=
  fun parser_ =>
    match m parser_ with
    | Some (Return a, parser_) => f a parser_
    | Some (Throw e, parser_) => Some (Throw e, parser_)
    | None => None
    end.

Notation "'do' x <- m ; f" := (bind m (fun x => f))
  (at level 10, x name, m at level 100, f at level 200).

(** Parser::Parser(const Config&) *)
Definition Parser_new (config : csvkit_config_t)
  : outcome Parser.csvkit_parser_t :=
  match Parser.csvkit_parser_new_with_config (Some config) with
  | Some parser_ => Return parser_
  | None => Throw (Exception "Failed to create parser with config")
  end.

Definition get_error_message (parser_ : Parser.csvkit_parser_t) : string :=
  match Parser.csvkit_get_error_msg (Some parser_) with
  | Some msg => msg
  | None => "Unknown error"
  end.

Definition open_string (data : list Z) : M unit :=
  fun parser_ =>
    let '(err, parser_) := Parser.csvkit_open_string parser_ data in
    match err with
    | CSVKIT_OK => Some (Return tt, parser_)
    | _ => Some (Throw (Exception (get_error_message parser_)), parser_)
    end.

Definition close : M unit :=
  fun parser_ => Some (Return tt, Parser.csvkit_close parser_).

Section WithPlatform.
Context {plat : Platform}.

(** Parser::read_row; the null unique_ptr is [None]. *)
Definition read_row : M (option Row) :=
  fun parser_ =>
    match Parser.csvkit_read_row parser_ with
    | None => None
    | Some (err, row, parser_) =>
      match err with
      | CSVKIT_ERROR_EOF => Some (Return None, parser_)
      | CSVKIT_OK =>
        match Row_new row with
        | Return r => Some (Return (Some r), parser_)
        | Throw e => Some (Throw e, parser_)
        end
      | _ => Some (Throw (Exception (get_error_message parser_)), parser_)
      end
    end.

(** The loop [while (auto row = read_row()) rows.push_back(...)], at most
    [n] times round. *)
Fixpoint read_all_loop (n : nat) (rows : list Row) : M (list Row) :=
  match n with
  | O => undefined
  | S n' =>
    do row <- read_row;
    match row with
    | Some r => read_all_loop n' (rows ++ [r])
    | None => ret rows
    end
  end.

(** Parser::read_all.  Every row read consumes input, so the loop goes
    round at most once more than there are unread bytes. *)
Definition read_all : M (list Row) :=
  fun parser_ =>
    read_all_loop (S (List.length (Parser.unread_input parser_))) [] parser_.

(** read_string(data, config); the parser is destroyed on the way out. *)
Definition read_string (data : list Z) (config : csvkit_config_t)
  : option (outcome (list Row)) :=
  match Parser_new config with
  | Throw e => Some (Throw e)
  | Return parser =>
    match (do _u <- open_string data; read_all) parser with
    | Some (rows, _) => Some rows
    | None => None
    end
  end.

(** ** Parser::Iterator *)

(** The members is_end_, initialized_ and current_ of an iterator made by
    begin() or end() of the parser at hand; the null current_ is [None]. *)
Record Iterator := {
  current_ : option Row;
  is_end_ : bool;
  initialized_ : bool
}.

Definition Iterator_new (is_end : bool) : Iterator :=
  {| current_ := None; is_end_ := is_end; initialized_ := false |}.

Definition begin : Iterator := Iterator_new false.

Definition end_ : Iterator := Iterator_new true.

Definition advance (it : Iterator) : M Iterator :=
  let it := {| current_ := current_ it; is_end_ := is_end_ it;
               initialized_ := true |} in
  if negb (is_end_ it) then
    do row <- read_row;
    ret {| current_ := row;
           is_end_ := match row with None => true | Some _ => is_end_ it end;
           initialized_ := initialized_ it |}
  else ret it.

(** operator++ *)
Definition incr (it : Iterator) : M Iterator := advance it.

(** operator*: the row current_ points to, none when current_ is null. *)
Definition deref (it : Iterator) : M (Row * Iterator) :=
  do it <- (if negb (initialized_ it) then advance it else ret it);
  match current_ it with
  | Some row => ret (row, it)
  | None => undefined
  end.

(** operator!= *)
Definition neq (it other : Iterator) : M (bool * Iterator) :=
  do it <- (if negb (initialized_ it) && negb (is_end_ it)
            then advance it else ret it);
  ret (xorb (is_end_ it) (is_end_ other), it).

(** The statement [for (auto& row : parser) ...] over begin() and end(),
    that is [for (; it != end; ++it) { auto& row = *it; ... }], at most [n]
    times round: the rows its body is run on. *)
Fixpoint range_for_loop (n : nat) (it end_it : Iterator) (seen : list Row)
  : M (list Row) :=
  match n with
  | O => undefined
  | S n' =>
    do c <- neq it end_it;
    if fst c then
      do r <- deref (snd c);
      do it <- incr (snd r);
      range_for_loop n' it end_it (seen ++ [fst r])
    else ret seen
  end.

Definition range_for : M (list Row) :=
  fun parser_ =>
    range_for_loop (S (List.length (Parser.unread_input parser_)))
                   begin end_ [] parser_.

End WithPlatform.

(** ** Writer *)

(** Writer::Writer(const Config&) *)
Definition Writer_new (config : csvkit_config_t)
  : outcome Writer.csvkit_writer_t :=
  match Writer.csvkit_writer_new_with_config (Some config) with
  | Some writer_ => Return writer_
  | None => Throw (Exception "Failed to create writer with config")
  end.

Definition writer_get_error_message (writer_ : Writer.csvkit_writer_t)
  : string :=
  match csvkit_writer_get_error_msg (Some writer_) with
  | Some msg => msg
  | None => "Unknown error"
  end.

(** Writer::open(FILE* ) on a stream that holds [written] already. *)
Definition Writer_open (written : list Z) (writer_ : Writer.csvkit_writer_t)
  : outcome unit * Writer.csvkit_writer_t :=
  let '(err, writer_) := Writer.csvkit_writer_open_stream writer_ written in
  match err with
  | CSVKIT_OK => (Return tt, writer_)
  | _ => (Throw (Exception (writer_get_error_message writer_)), writer_)
  end.

(** Writer::write_row(const std::vector<std::string>&) *)
Definition write_row (fields : list (list Z))
  (writer_ : Writer.csvkit_writer_t)
  : outcome unit * Writer.csvkit_writer_t :=
  let c_fields := map (fun field => Some (c_str field)) fields in
  let '(err, writer_) := Writer.csvkit_writer_write_row writer_ c_fields in
  match err with
  | CSVKIT_OK => (Return tt, writer_)
  | _ => (Throw (Exception (writer_get_error_message writer_)), writer_)
  end.

End Cpp.

(** The Row made of a row of the C library. *)
Definition cpp_row (row : csvkit_row_t) : Cpp.Row :=
  {| Cpp.fields_ := fields row; Cpp.row_number_ := row_number row |}.

(** Writer::write_row on each of [rows] in turn, up to the first
    exception. *)
Fixpoint cpp_write_rows (rows : list (list (list Z)))
  (writer_ : Writer.csvkit_writer_t)
  : Cpp.outcome unit * Writer.csvkit_writer_t :=
  match rows with
  | [] => (Cpp.Return tt, writer_)
  | row :: rows' =>
    match Cpp.write_row row writer_ with
    | (Cpp.Return _, writer_) => cpp_write_rows rows' writer_
    | failure => failure
    end
  end.

(** What a Writer for [cfg], opened on an empty stream, has written after
    [rows]. *)
Definition cpp_write (cfg : csvkit_config_t) (rows : list (list (list Z)))
  : Cpp.outcome (option (list Z)) :=
  match Cpp.Writer_new cfg with
  | Cpp.Throw e => Cpp.Throw e
  | Cpp.Return writer =>
    match Cpp.Writer_open [] writer with
    | (Cpp.Throw e, _) => Cpp.Throw e
    | (Cpp.Return _, writer) =>
      match cpp_write_rows rows writer with
      | (Cpp.Throw e, _) => Cpp.Throw e
      | (Cpp.Return _, writer) => Cpp.Return (Writer.file writer)
      end
    end
  end.

(** What reading rows with the wrapper comes to when the calls of
    csvkit_read_row hand out [rows] and end with [e], leaving [parser']:
    the rows behind those [seen] before, or the exception. *)
Definition cpp_outcome (rows : list csvkit_row_t) (e : csvkit_error_t)
  (parser' : Parser.csvkit_parser_t) (seen : list Cpp.Row)
  : Cpp.outcome (list Cpp.Row) * Parser.csvkit_parser_t :=
  (match e with
   | CSVKIT_ERROR_EOF => Cpp.Return (seen ++ map cpp_row rows)
   | _ => Cpp.Throw (Cpp.Exception (Cpp.get_error_message parser'))
   end, parser').

(** An iterator that has read [r] and is not at the end. *)
Definition iterator_at (r : Cpp.Row) : Cpp.Iterator :=
  {| Cpp.current_ := Some r; Cpp.is_end_ := false;
     Cpp.initialized_ := true |}.

(** * Properties *)

(** ** Configuration validation *)

Lemma parser_validate_config_spec (cfg : csvkit_config_t) :
  Parser.validate_config (Some cfg) = false <-> invalid_config cfg.
Proof.
  unfold Parser.validate_config, invalid_config, LF, CR.
  destruct (Z.eqb_spec (delimiter cfg) 10), (Z.eqb_spec (delimiter cfg) 13),
    (Z.eqb_spec (escape_char cfg) (quote_char cfg)),
    (Z.eqb_spec (delimiter cfg) (quote_char cfg)),
    (Z.eqb_spec (quote_char cfg) 10), (Z.eqb_spec (quote_char cfg) 13),
    (Z.eqb_spec (escape_char cfg) 10), (Z.eqb_spec (escape_char cfg) 13);
    simpl; split; intros; try discriminate; try tauto; try lia.
Qed.

Lemma writer_validate_config_spec (cfg : csvkit_config_t) :
  Writer.validate_config (Some cfg) = false <-> invalid_config cfg.
Proof.
  unfold Writer.validate_config, invalid_config, LF, CR.
  destruct (Z.eqb_spec (delimiter cfg) 10), (Z.eqb_spec (delimiter cfg) 13),
    (Z.eqb_spec (delimiter cfg) (quote_char cfg)),
    (Z.eqb_spec (quote_char cfg) 10), (Z.eqb_spec (quote_char cfg) 13),
    (Z.eqb_spec (escape_char cfg) 10), (Z.eqb_spec (escape_char cfg) 13);
    simpl; split; intros; try discriminate; try tauto; try lia.
Qed.

Lemma validate_config_agree (config : option csvkit_config_t) :
  Parser.validate_config config = Writer.validate_config config.
Proof.
  destruct config as [cfg|]; [|reflexivity].
  destruct (Writer.validate_config (Some cfg)) eqn:W.
  - destruct (Parser.validate_config (Some cfg)) eqn:P; [reflexivity|].
    apply parser_validate_config_spec, writer_validate_config_spec in P.
    congruence.
  - apply parser_validate_config_spec, writer_validate_config_spec, W.
Qed.

(** C9: a configuration with delimiter = quote_char, or with '\n' or '\r'
    as delimiter, quote_char or escape_char, makes both
    csvkit_parser_new_with_config and csvkit_writer_new_with_config return
    NULL; a configuration with escape_char = quote_char that keeps the
    other invariants is accepted by both. *)
Theorem config_validation (cfg : csvkit_config_t) :
  (invalid_config cfg ->
     Parser.csvkit_parser_new_with_config (Some cfg) = None
     /\ Writer.csvkit_writer_new_with_config (Some cfg) = None)
  /\ (escape_char cfg = quote_char cfg -> ~ invalid_config cfg ->
     (exists parser, Parser.csvkit_parser_new_with_config (Some cfg) = Some parser
                     /\ Parser.config parser = cfg)
     /\ (exists writer, Writer.csvkit_writer_new_with_config (Some cfg) = Some writer
                        /\ Writer.config writer = cfg)).
Proof.
  unfold Parser.csvkit_parser_new_with_config,
    Writer.csvkit_writer_new_with_config.
  split.
  - intros Hbad.
    pose proof (proj2 (parser_validate_config_spec cfg) Hbad) as HP.
    pose proof (proj2 (writer_validate_config_spec cfg) Hbad) as HW.
    rewrite HP, HW. split; reflexivity.
  - intros _ Hok.
    destruct (Parser.validate_config (Some cfg)) eqn:HP.
    2:{ apply parser_validate_config_spec in HP. contradiction. }
    destruct (Writer.validate_config (Some cfg)) eqn:HW.
    2:{ apply writer_validate_config_spec in HW. contradiction. }
    simpl. split; eexists; split; reflexivity.
Qed.

Lemma config_validation_witness :
  (Parser.csvkit_parser_new_with_config
     (Some {| delimiter := 34; quote_char := 34; escape_char := 92;
              trim_whitespace := false; skip_empty_rows := false;
              strict_mode := false |}) = None
   /\ Writer.csvkit_writer_new_with_config
     (Some {| delimiter := 34; quote_char := 34; escape_char := 92;
              trim_whitespace := false; skip_empty_rows := false;
              strict_mode := false |}) = None)
  /\ ((exists parser,
        Parser.csvkit_parser_new_with_config (Some csvkit_config_default)
          = Some parser /\ Parser.config parser = csvkit_config_default)
      /\ (exists writer,
        Writer.csvkit_writer_new_with_config (Some csvkit_config_default)
          = Some writer /\ Writer.config writer = csvkit_config_default)).
Proof.
  split.
  - apply (proj1 (config_validation _)).
    left. reflexivity.
  - apply (proj2 (config_validation csvkit_config_default)).
    + reflexivity.
    + unfold invalid_config, LF, CR. simpl. lia.
Defined.

(** ** The writer *)

Lemma is_specialb_spec (cfg : csvkit_config_t) (c : Z) :
  is_specialb cfg c = true <-> is_special cfg c.
Proof.
  unfold is_specialb, is_special.
  rewrite !orb_true_iff, !Z.eqb_eq. tauto.
Qed.

Lemma needs_quoting_existsb (cfg : csvkit_config_t) (f : cstring) :
  Writer.needs_quoting f (delimiter cfg) (quote_char cfg)
  = existsb (is_specialb cfg) f.
Proof.
  induction f as [|c f IH]; simpl; [reflexivity|].
  fold (is_specialb cfg c). rewrite IH.
  destruct (is_specialb cfg c); reflexivity.
Qed.

Lemma needs_quoting_iff (cfg : csvkit_config_t) (f : cstring) :
  Writer.needs_quoting f (delimiter cfg) (quote_char cfg) = true
  <-> exists c, In c f /\ is_special cfg c.
Proof.
  rewrite needs_quoting_existsb, existsb_exists.
  split; intros [c [Hin Hc]]; exists c; split; auto;
    apply is_specialb_spec; assumption.
Qed.

Lemma write_quoted_chars_spec (cfg : csvkit_config_t) (p : cstring) :
  forall out,
    Writer.write_quoted_chars cfg p out
    = out ++ map to_uchar (spec_escape cfg p).
Proof.
  induction p as [|c p IH]; intros out; simpl.
  - now rewrite app_nil_r.
  - destruct (c =? quote_char cfg); rewrite IH; unfold Writer.fputc;
      simpl; rewrite <- ?app_assoc; reflexivity.
Qed.

Lemma write_fields_spec (cfg : csvkit_config_t)
  (fields : list (option cstring)) :
  forall i out,
    Writer.write_fields cfg i fields out
    = out ++ map to_uchar (spec_fields cfg (Nat.eqb i 0) fields).
Proof.
  induction fields as [|fp fields IH]; intros i out; simpl.
  - now rewrite app_nil_r.
  - rewrite IH. simpl Nat.eqb. unfold spec_field.
    rewrite <- needs_quoting_existsb.
    set (f := match fp with Some f => f | None => [] end).
    destruct (Writer.needs_quoting f (delimiter cfg) (quote_char cfg));
      destruct i; simpl Nat.ltb; simpl Nat.eqb; cbv iota;
      rewrite ?write_quoted_chars_spec; unfold Writer.fputc, Writer.fputs;
      rewrite ?map_app; simpl; rewrite <- ?app_assoc; simpl;
      rewrite <- ?app_assoc; reflexivity.
Qed.

Lemma spec_fields_or_empty (cfg : csvkit_config_t)
  (fields : list (option cstring)) :
  forall first,
    spec_fields cfg first (map or_empty fields) = spec_fields cfg first fields.
Proof.
  induction fields as [|fp fields IH]; intros first; [reflexivity|].
  simpl. rewrite IH. destruct fp; reflexivity.
Qed.

(** C6: csvkit_writer_write_row appends to the sink the fields in order,
    a delimiter before every field but the first, each field quoted (with
    every inner quote character preceded by the escape character) exactly
    when it contains the delimiter, the quote character, '\n' or '\r', a
    null field written as the empty string, and one '\n' at the end.  Under
    the default dialect the four fields [a], [b,c], [d+e] and [f\ng], where
    + stands for the double quote, give [a,+b,c+,+d++e+,+f\ng+] and a
    newline. *)
Theorem writer_write_row_spec :
  (forall (writer : Writer.csvkit_writer_t) (fields : list (option cstring))
          (out : list Z),
      Writer.file writer = Some out ->
      Writer.csvkit_writer_write_row writer fields
      = (CSVKIT_OK,
         {| Writer.config := Writer.config writer;
            Writer.file := Some (out ++ spec_row (Writer.config writer) fields);
            Writer.error_msg := Writer.error_msg writer |}))
  /\ (forall cfg f,
      Writer.needs_quoting f (delimiter cfg) (quote_char cfg) = true
      <-> exists c, In c f /\ is_special cfg c)
  /\ (forall writer fields,
      Writer.csvkit_writer_write_row writer fields
      = Writer.csvkit_writer_write_row writer (map or_empty fields))
  /\ option_map
       (fun writer =>
          Writer.csvkit_writer_write_row
            (snd (Writer.csvkit_writer_open_stream writer []))
            [Some (chars "a"); Some (chars "b,c");
             Some (chars "d" ++ [DQ] ++ chars "e");
             Some (chars "f" ++ [LF] ++ chars "g")])
       Writer.csvkit_writer_new
     = Some (CSVKIT_OK,
         {| Writer.config := csvkit_config_default;
            Writer.file :=
              Some (chars "a," ++ [DQ] ++ chars "b,c" ++ [DQ]
                    ++ chars "," ++ [DQ] ++ chars "d" ++ [DQ; DQ]
                    ++ chars "e" ++ [DQ] ++ chars "," ++ [DQ]
                    ++ chars "f" ++ [LF] ++ chars "g" ++ [DQ] ++ [LF]);
            Writer.error_msg := None |}).
Proof.
  split; [|split; [|split]].
  - intros writer fields out Hfile.
    unfold Writer.csvkit_writer_write_row. rewrite Hfile.
    rewrite write_fields_spec. unfold Writer.fputc, spec_row.
    simpl Nat.eqb. rewrite map_app, <- app_assoc. reflexivity.
  - intros cfg f. apply needs_quoting_iff.
  - intros writer fields. unfold Writer.csvkit_writer_write_row.
    destruct (Writer.file writer) as [out|]; [|reflexivity].
    rewrite !write_fields_spec, spec_fields_or_empty. reflexivity.
  - vm_compute. reflexivity.
Qed.

Lemma writer_write_row_spec_witness :
  Writer.csvkit_writer_write_row
    {| Writer.config := csvkit_config_default; Writer.file := Some [];
       Writer.error_msg := None |}
    [None; Some (chars "x,y")]
  = (CSVKIT_OK,
     {| Writer.config := csvkit_config_default;
        Writer.file := Some (chars "," ++ [DQ] ++ chars "x,y" ++ [DQ; LF]);
        Writer.error_msg := None |}).
Proof.
  exact (proj1 writer_write_row_spec
           {| Writer.config := csvkit_config_default; Writer.file := Some [];
              Writer.error_msg := None |}
           [None; Some (chars "x,y")] [] eq_refl).
Defined.

(** ** Concrete scenarios of the parser *)

(** C2, as the code has it: with trim_whitespace on and the default
    delimiter and quote character, the input [  x  , +  y  +] (+ standing
    for the double quote) gives one row with the fields [x] and [+  y  +]:
    the blank before the quote starts the second field, so the quotes are
    ordinary characters of an unquoted field, which is trimmed.  With the
    quote at the very start of the field and the line ended by '\n', the
    input [  x  ,+  y  +] gives the fields [x] and [  y  ], the quoted field
    keeping its inner blanks. *)
Theorem trim_scenario {plat : Platform} (skip strict : bool) :
  parse (default_with true skip strict)
        (chars "  x  , " ++ [DQ] ++ chars "  y  " ++ [DQ])
  = Some ([[chars "x"; [DQ] ++ chars "  y  " ++ [DQ]]], CSVKIT_ERROR_EOF)
  /\ parse (default_with true skip strict)
           (chars "  x  ," ++ [DQ] ++ chars "  y  " ++ [DQ; LF])
     = Some ([[chars "x"; chars "  y  "]], CSVKIT_ERROR_EOF).
Proof.
  destruct plat as [[|]], skip, strict; split; vm_compute; reflexivity.
Qed.

Lemma trim_scenario_counterexample :
  option_map fst
    (@parse signed_char_platform (default_with true false false)
            (chars "  x  , " ++ [DQ] ++ chars "  y  " ++ [DQ]))
  <> Some [[chars "x"; chars "  y  "]]
  /\ option_map fst
       (@parse unsigned_char_platform (default_with true false false)
               (chars "  x  , " ++ [DQ] ++ chars "  y  " ++ [DQ]))
     <> Some [[chars "x"; chars "  y  "]].
Proof.
  split; vm_compute; discriminate.
Qed.

(** C5 on the code: under the default dialect the input [+ab+] without a
    final newline (+ standing for the double quote) is refused with a parse
    error and no row is handed out, because the loop is left on the end of
    input after the closing quote with in_quotes still set. *)
Theorem closing_quote_at_eof {plat : Platform} :
  parse csvkit_config_default ([DQ] ++ chars "ab" ++ [DQ])
  = Some ([], CSVKIT_ERROR_PARSE)
  /\ option_map (fun r => (fst (fst r), snd (fst r)))
       (match parser_on csvkit_config_default ([DQ] ++ chars "ab" ++ [DQ]) with
        | Some parser => Parser.csvkit_read_row parser
        | None => None
        end)
     = Some (CSVKIT_ERROR_PARSE, None)
  /\ parse csvkit_config_default ([DQ] ++ chars "ab" ++ [DQ; LF])
     = Some ([[chars "ab"]], CSVKIT_ERROR_EOF).
Proof.
  destruct plat as [[|]]; repeat split; vm_compute; reflexivity.
Qed.

(** ** The loop of parse_row_internal, one iteration at a time *)

Section Loop.
Context {plat : Platform}.
Variable cfg : csvkit_config_t.

Lemma parse_loop_nil (st : Parser.loop_state) :
  Parser.parse_loop cfg st [] = Parser.LoopExit EOF st [].
Proof. reflexivity. Qed.

Lemma parse_loop_step (st : Parser.loop_state) (c0 : Z) (rest : list Z) :
  Parser.parse_loop cfg st (c0 :: rest)
  = match loop_step cfg st c0 rest with
    | Continue st' src' => Parser.parse_loop cfg st' src'
    | Leave r => r
    end.
Proof.
  unfold loop_step. cbn [Parser.parse_loop].
  repeat match goal with
         | |- context [if ?b then _ else _] => destruct b
         | |- context [match ?l with [] => _ | _ :: _ => _ end] =>
           destruct l
         end; reflexivity.
Qed.

Lemma loop_step_shorter (st st' : Parser.loop_state) (c0 : Z)
  (rest src' : list Z) :
  loop_step cfg st c0 rest = Continue st' src' ->
  (List.length src' <= List.length rest)%nat.
Proof.
  unfold loop_step.
  set (cr := negb (Parser.in_quotes st) && (c0 =? CR)).
  set (src1 := if cr then _ else rest).
  assert (Hsrc1 : (List.length src1 <= List.length rest)%nat).
  { subst src1. destruct cr; [|lia].
    destruct rest as [|next rest']; [simpl; lia|].
    destruct (next =? LF); simpl; lia. }
  clearbody src1 cr. cbv zeta.
  destruct src1 as [|next src2];
    repeat match goal with
           | |- context [if ?b then _ else _] => destruct b
           end; intros H; inversion H; subst; simpl in *; lia.
Qed.

(** Induction over the iterations of the loop. *)
Lemma parse_loop_induction
  (R : Parser.loop_state -> list Z -> Parser.loop_result -> Prop) :
  (forall st, R st [] (Parser.LoopExit EOF st [])) ->
  (forall st c0 rest r,
      loop_step cfg st c0 rest = Leave r -> R st (c0 :: rest) r) ->
  (forall st c0 rest st' src',
      loop_step cfg st c0 rest = Continue st' src' ->
      R st' src' (Parser.parse_loop cfg st' src') ->
      R st (c0 :: rest) (Parser.parse_loop cfg st' src')) ->
  forall st src, R st src (Parser.parse_loop cfg st src).
Proof.
  intros Hnil Hleave Hcont st src.
  remember (List.length src) as n eqn:Hn.
  revert st src Hn.
  induction n as [n IH] using (well_founded_induction lt_wf).
  intros st [|c0 rest] Hn.
  - apply Hnil.
  - rewrite parse_loop_step.
    destruct (loop_step cfg st c0 rest) as [st' src'|r] eqn:Hstep.
    + apply Hcont with (1 := Hstep).
      apply (IH (List.length src')); [|reflexivity].
      apply loop_step_shorter in Hstep. simpl in Hn. lia.
    + apply Hleave, Hstep.
Qed.

End Loop.

(** ** Invariants of the loop *)

Section LoopInvariants.
Context {plat : Platform}.
Variable cfg : csvkit_config_t.

Ltac step_cases H :=
  unfold loop_step in H; cbv zeta in H;
  try match type of H with
      | context [Parser.in_quotes ?s] =>
        let Hin := fresh "Hin" in
        destruct (Parser.in_quotes s) eqn:Hin; cbn [negb andb] in H
      end;
  repeat match type of H with
         | context [if ?b then _ else _] => destruct b eqn:?
         | context [match ?l with [] => _ | _ :: _ => _ end] =>
           destruct l eqn:?
         end;
  inversion H; subst; clear H.

Lemma loop_step_begun st c0 rest st' src' :
  (Parser.in_quotes st = true -> row_begun st) ->
  loop_step cfg st c0 rest = Continue st' src' ->
  row_begun st'.
Proof.
  intros Hq H. unfold row_begun in *.
  step_cases H; simpl; try (left; reflexivity); try (right; lia);
    apply Hq; reflexivity.
Qed.

Lemma loop_step_leave st c0 rest r :
  loop_step cfg st c0 rest = Leave r ->
  Parser.row_fields (final_state r) = Parser.row_fields st
  /\ Parser.row_field_count (final_state r) = Parser.row_field_count st
  /\ Parser.buffer (final_state r) = Parser.buffer st
  /\ Parser.field_started (final_state r) = Parser.field_started st
  /\ (Parser.in_quotes st = false ->
      exists src', r = Parser.LoopExit LF st src').
Proof.
  intros H.
  step_cases H; simpl; repeat split; try discriminate; intros _.
  all: eexists; f_equal; try reflexivity; apply Z.eqb_eq; assumption.
Qed.

Lemma parse_loop_begun st src :
  row_begun st -> row_begun (final_state (Parser.parse_loop cfg st src)).
Proof.
  apply (parse_loop_induction cfg
           (fun st _ r => row_begun st -> row_begun (final_state r))).
  - auto.
  - intros s c0 rest r H Hb. apply loop_step_leave in H.
    unfold row_begun in *. destruct H as (_ & -> & _ & -> & _). exact Hb.
  - intros s c0 rest s' src' H IH Hb. apply IH.
    apply loop_step_begun with (2 := H). auto.
Qed.

Lemma parse_loop_remaining st src :
  (List.length (remaining (Parser.parse_loop cfg st src))
   <= Nat.pred (List.length src))%nat.
Proof.
  apply (parse_loop_induction cfg
           (fun _ src r =>
              (List.length (remaining r) <= Nat.pred (List.length src))%nat)).
  - simpl. lia.
  - intros s c0 rest r H. simpl.
    unfold loop_step in H.
    set (cr := negb (Parser.in_quotes s) && (c0 =? CR)) in H.
    set (src1 := if cr then _ else rest) in H.
    assert (Hsrc1 : (List.length src1 <= List.length rest)%nat).
    { subst src1. destruct cr; [|lia].
      destruct rest as [|next rest']; [simpl; lia|].
      destruct (next =? LF); simpl; lia. }
    clearbody src1 cr. cbv zeta in H.
    destruct src1 as [|next src2];
      repeat match type of H with
             | context [if ?b then _ else _] => destruct b
             end; inversion H; subst; simpl in *; lia.
  - intros s c0 rest s' src' H IH. apply loop_step_shorter in H.
    simpl. lia.
Qed.

Lemma loop_step_counted st c0 rest st' src' :
  counted st -> loop_step cfg st c0 rest = Continue st' src' -> counted st'.
Proof.
  unfold counted. intros Hc H.
  step_cases H; simpl; rewrite ?length_app; simpl; lia.
Qed.

Lemma parse_loop_counted st src :
  counted st -> counted (final_state (Parser.parse_loop cfg st src)).
Proof.
  apply (parse_loop_induction cfg
           (fun st _ r => counted st -> counted (final_state r))).
  - auto.
  - intros s c0 rest r H Hc. apply loop_step_leave in H.
    unfold counted in *. destruct H as (-> & -> & _). exact Hc.
  - intros s c0 rest s' src' H IH Hc. apply IH.
    apply loop_step_counted with (2 := H). exact Hc.
Qed.

(** From the state parse_row_internal starts in, a loop that has read a
    character is left with a row that has begun, or by a line end. *)
Lemma parse_loop_initial row c0 rest :
  let r := Parser.parse_loop cfg (Parser.initial_state row) (c0 :: rest) in
  row_begun (final_state r) \/ exists st src', r = Parser.LoopExit LF st src'.
Proof.
  cbv zeta. rewrite parse_loop_step.
  destruct (loop_step cfg (Parser.initial_state row) c0 rest)
    as [st' src'|r] eqn:Hstep.
  - left. apply parse_loop_begun.
    apply loop_step_begun with (2 := Hstep). discriminate.
  - right. apply loop_step_leave in Hstep.
    destruct Hstep as (_ & _ & _ & _ & H).
    destruct (H eq_refl) as [src' ->]. eauto.
Qed.

End LoopInvariants.

(** ** parse_row_internal *)

Section ParseRow.
Context {plat : Platform}.
Variable cfg : csvkit_config_t.

Lemma nothing_read_test (c : Z) (st : Parser.loop_state) :
  (c =? EOF) && Nat.eqb (List.length (Parser.buffer st)) 0
  && Nat.eqb (Parser.row_field_count st) 0
  && negb (Parser.field_started st) = true
  <-> nothing_read c st.
Proof.
  unfold nothing_read.
  rewrite !andb_true_iff, Z.eqb_eq, !Nat.eqb_eq, negb_true_iff.
  rewrite length_zero_iff_nil. tauto.
Qed.

Lemma begun_not_nothing_read (c : Z) (st : Parser.loop_state) :
  row_begun st -> ~ nothing_read c st.
Proof.
  unfold row_begun, nothing_read. intros [H|H] (_ & _ & H1 & H2);
    [congruence|lia].
Qed.

Lemma parse_loop_return st src e st' src' :
  Parser.parse_loop cfg st src = Parser.LoopReturn e st' src' ->
  e = CSVKIT_ERROR_PARSE.
Proof.
  revert e st' src'.
  apply (parse_loop_induction cfg
           (fun _ _ r => forall e st' src',
                r = Parser.LoopReturn e st' src' ->
                e = CSVKIT_ERROR_PARSE));
    [discriminate| |auto].
  intros s c0 rest r H e st' src' ->.
  unfold loop_step in H; cbv zeta in H.
  repeat match type of H with
         | context [if ?b then _ else _] => destruct b
         | context [match ?l with [] => _ | _ :: _ => _ end] => destruct l
         end; inversion H; reflexivity.
Qed.

(** On an exhausted source a fresh row gives the end of input; on any other
    source it does not. *)
Lemma parse_row_internal_eof (row : csvkit_row_t) (src : list Z) :
  field_count row = 0%nat ->
  (fst (fst (Parser.parse_row_internal cfg row src)) = CSVKIT_ERROR_EOF
   <-> src = []).
Proof.
  intros Hrow. unfold Parser.parse_row_internal. split.
  - destruct src as [|c0 rest]; [reflexivity|]. intros H. exfalso.
    pose proof (parse_loop_initial cfg row c0 rest) as Hinit.
    cbv zeta in Hinit.
    destruct (Parser.parse_loop cfg (Parser.initial_state row) (c0 :: rest))
      as [e st s|c st s] eqn:Hloop.
    + apply parse_loop_return in Hloop. subst e. discriminate.
    + destruct ((c =? EOF) && Nat.eqb (List.length (Parser.buffer st)) 0
                && Nat.eqb (Parser.row_field_count st) 0
                && negb (Parser.field_started st)) eqn:Htest.
      * apply nothing_read_test in Htest.
        destruct Hinit as [Hb|(st' & s' & Heq)].
        -- exact (begun_not_nothing_read _ _ Hb Htest).
        -- inversion Heq; subst. destruct Htest as [Hc _]. discriminate.
      * destruct (Parser.in_quotes st); discriminate.
  - intros ->. simpl. rewrite Hrow. reflexivity.
Qed.

(** A row that is returned has consumed input. *)
Lemma parse_row_internal_consumes (row row' : csvkit_row_t)
  (src src' : list Z) (e : csvkit_error_t) :
  Parser.parse_row_internal cfg row src = (e, row', src') ->
  (List.length src' <= Nat.pred (List.length src))%nat.
Proof.
  unfold Parser.parse_row_internal.
  pose proof (parse_loop_remaining cfg (Parser.initial_state row) src) as H.
  destruct (Parser.parse_loop cfg (Parser.initial_state row) src)
    as [e0 st s|c st s]; simpl in H.
  - intros E. inversion E; subst. exact H.
  - repeat match goal with
           | |- context [if ?b then _ else _] => destruct b
           end; intros E; inversion E; subst; exact H.
Qed.

Lemma parse_row_internal_ok (row row' : csvkit_row_t) (src src' : list Z) :
  field_count row = List.length (fields row) ->
  Parser.parse_row_internal cfg row src = (CSVKIT_OK, row', src') ->
  field_count row' = List.length (fields row')
  /\ (0 < field_count row')%nat
  /\ row_number row' = row_number row.
Proof.
  intros Hrow. unfold Parser.parse_row_internal.
  pose proof (parse_loop_counted cfg (Parser.initial_state row) src Hrow) as H.
  destruct (Parser.parse_loop cfg (Parser.initial_state row) src)
    as [e0 st s|c st s] eqn:Hloop; simpl in H.
  - apply parse_loop_return in Hloop. subst e0. discriminate.
  - repeat match goal with
           | |- context [if ?b then _ else _] => destruct b
           end; intros E; inversion E; subst; simpl.
    unfold counted in H. rewrite length_app. simpl. lia.
Qed.

End ParseRow.

(** ** csvkit_read_row *)

Section ReadRow.
Context {plat : Platform}.

Lemma read_next_row_pass (fuel : nat) (parser : Parser.csvkit_parser_t) :
  Parser.read_next_row (S fuel) parser
  = match pass parser with
    | Done res => Some res
    | Skip parser' => Parser.read_next_row fuel parser'
    end.
Proof.
  unfold pass. cbn [Parser.read_next_row]. fold fresh_row.
  destruct (Parser.parse_row_internal (Parser.config parser) fresh_row
              (Parser.unread_input parser)) as [[result row] src'].
  destruct result; try reflexivity.
  repeat match goal with
         | |- context [if ?b then _ else _] => destruct b
         end; reflexivity.
Qed.

Lemma unread_input_advance parser src n e :
  Parser.source parser <> None ->
  Parser.unread_input (Parser.advance parser src n e) = src.
Proof.
  unfold Parser.unread_input, Parser.advance. simpl.
  destruct (Parser.source parser); [reflexivity|congruence].
Qed.

Lemma source_advance parser src n e :
  Parser.source parser <> None ->
  Parser.source (Parser.advance parser src n e) = Some src.
Proof.
  unfold Parser.advance. simpl.
  destruct (Parser.source parser); [reflexivity|congruence].
Qed.

(** A pass that skips a row has consumed input and leaves the handle bound
    to its source, with the same configuration. *)
Lemma pass_skip parser parser' :
  pass parser = Skip parser' ->
  Parser.source parser <> None
  /\ Parser.source parser' <> None
  /\ (List.length (Parser.unread_input parser')
      < List.length (Parser.unread_input parser))%nat
  /\ Parser.config parser' = Parser.config parser
  /\ Parser.parser_row_number parser' = S (Parser.parser_row_number parser)
  /\ Parser.expected_field_count parser'
     = Parser.expected_field_count parser.
Proof.
  unfold pass.
  destruct (Parser.parse_row_internal (Parser.config parser) fresh_row
              (Parser.unread_input parser)) as [[result row] src'] eqn:Hp.
  destruct result; try discriminate.
  assert (Hne : Parser.unread_input parser <> []).
  { intros E.
    pose proof (proj2 (parse_row_internal_eof (Parser.config parser)
                         fresh_row (Parser.unread_input parser) eq_refl) E)
      as H.
    rewrite Hp in H. discriminate. }
  assert (Hsrc : Parser.source parser <> None).
  { unfold Parser.unread_input in Hne.
    destruct (Parser.source parser); congruence. }
  apply parse_row_internal_consumes in Hp.
  repeat match goal with
         | |- context [if ?b then _ else _] => destruct b
         end; intros E; inversion E; subst.
  rewrite unread_input_advance, source_advance by assumption.
  repeat split; try assumption; try discriminate.
  destruct (Parser.unread_input parser); [congruence|simpl in *; lia].
Qed.

(** csvkit_read_row gives a result on every handle: the passes one call can
    make are bounded by the unread input. *)
Lemma read_next_row_total (fuel : nat) :
  forall parser,
    (List.length (Parser.unread_input parser) < fuel)%nat ->
    exists res, Parser.read_next_row fuel parser = Some res.
Proof.
  induction fuel as [|fuel IH]; intros parser Hlen; [lia|].
  rewrite read_next_row_pass.
  destruct (pass parser) as [res|parser'] eqn:Hpass; [eauto|].
  apply IH. apply pass_skip in Hpass. lia.
Qed.

Lemma csvkit_read_row_total (parser : Parser.csvkit_parser_t) :
  exists res, Parser.csvkit_read_row parser = Some res.
Proof.
  unfold Parser.csvkit_read_row.
  destruct (Parser.source parser) as [src|] eqn:Hsrc; [|eauto].
  apply read_next_row_total.
  unfold Parser.unread_input. rewrite Hsrc. lia.
Qed.

(** Induction over the passes of one call. *)
Lemma read_next_row_induction
  (R : Parser.csvkit_parser_t
       -> csvkit_error_t * option csvkit_row_t * Parser.csvkit_parser_t
       -> Prop) :
  (forall parser res, pass parser = Done res -> R parser res) ->
  (forall parser parser' res,
      pass parser = Skip parser' -> R parser' res -> R parser res) ->
  forall fuel parser res,
    Parser.read_next_row fuel parser = Some res -> R parser res.
Proof.
  intros Hdone Hskip.
  induction fuel as [|fuel IH]; intros parser res H; [discriminate|].
  rewrite read_next_row_pass in H.
  destruct (pass parser) as [res'|parser'] eqn:Hpass.
  - injection H as <-. auto.
  - eauto.
Qed.

(** The same, for a call of csvkit_read_row on a bound handle. *)
Lemma csvkit_read_row_induction
  (R : Parser.csvkit_parser_t
       -> csvkit_error_t * option csvkit_row_t * Parser.csvkit_parser_t
       -> Prop) :
  (forall parser res, pass parser = Done res -> R parser res) ->
  (forall parser parser' res,
      pass parser = Skip parser' -> R parser' res -> R parser res) ->
  forall parser res,
    Parser.source parser <> None ->
    Parser.csvkit_read_row parser = Some res -> R parser res.
Proof.
  intros Hdone Hskip parser res Hsrc. unfold Parser.csvkit_read_row.
  destruct (Parser.source parser); [|congruence].
  apply read_next_row_induction; assumption.
Qed.

End ReadRow.

Section PassResults.
Context {plat : Platform}.

Ltac pass_cases H :=
  unfold pass in H;
  match type of H with
  | context [Parser.parse_row_internal ?c ?r ?s] =>
    let Hp := fresh "Hparse" in
    destruct (Parser.parse_row_internal c r s) as [[?result ?row] ?src']
      eqn:Hp
  end;
  match type of H with
  | context [match ?r with CSVKIT_OK => _ | _ => _ end] => destruct r
  end;
  cbv zeta in H;
  repeat match type of H with
         | context [if ?b then _ else _] => destruct b eqn:?
         end;
  inversion H; subst; clear H.

Lemma parse_ok_source parser row src' :
  Parser.parse_row_internal (Parser.config parser) fresh_row
    (Parser.unread_input parser) = (CSVKIT_OK, row, src') ->
  Parser.source parser <> None
  /\ (List.length src' < List.length (Parser.unread_input parser))%nat.
Proof.
  intros Hp.
  assert (Hne : Parser.unread_input parser <> []).
  { intros E.
    pose proof (proj2 (parse_row_internal_eof (Parser.config parser)
                         fresh_row (Parser.unread_input parser) eq_refl) E)
      as H.
    rewrite Hp in H. discriminate. }
  split.
  - unfold Parser.unread_input in Hne.
    destruct (Parser.source parser); congruence.
  - apply parse_row_internal_consumes in Hp.
    destruct (Parser.unread_input parser); [congruence|simpl in *; lia].
Qed.

(** A pass that hands out a row. *)
Lemma pass_done_ok parser out parser' :
  pass parser = Done (CSVKIT_OK, out, parser') ->
  exists row,
    out = Some row
    /\ field_count row = List.length (fields row)
    /\ (0 < field_count row)%nat
    /\ row_number row = S (Parser.parser_row_number parser)
    /\ Parser.parser_row_number parser' = S (Parser.parser_row_number parser)
    /\ Parser.config parser' = Parser.config parser
    /\ Parser.source parser <> None
    /\ Parser.source parser' <> None
    /\ (List.length (Parser.unread_input parser')
        < List.length (Parser.unread_input parser))%nat
    /\ (skip_empty_rows (Parser.config parser) = true ->
        Parser.csvkit_row_is_empty (Some row) = false)
    /\ Parser.expected_field_count parser'
       = (if strict_mode (Parser.config parser)
             && Nat.eqb (Parser.expected_field_count parser) 0
          then field_count row
          else Parser.expected_field_count parser)
    /\ (strict_mode (Parser.config parser) = true ->
        field_count row = Parser.expected_field_count parser').
Proof.
  intros H. pass_cases H.
  all: destruct (parse_ok_source _ _ _ Hparse) as [Hsrc Hlen].
  all: apply parse_row_internal_ok in Hparse; [|reflexivity].
  all: destruct Hparse as (Hc & Hpos & Hno).
  all: eexists; split; [reflexivity|].
  all: rewrite unread_input_advance, source_advance by assumption.
  all: unfold Parser.stamp; simpl.
  all: repeat match goal with
              | E : _ && _ = false |- _ => apply andb_false_iff in E
              | E : negb _ = false |- _ => apply negb_false_iff in E
              | E : Nat.eqb _ _ = true |- _ => apply Nat.eqb_eq in E
              end.
  all: unfold Parser.stamp, Parser.csvkit_row_is_empty in *; simpl in *.
  all: repeat split; try assumption; try discriminate; try reflexivity;
    try congruence.
  all: intros Hs; try assumption;
    match goal with
    | E : _ \/ _ |- _ => destruct E; [congruence|assumption]
    end.
Qed.

(** A pass that reports the end of input. *)
Lemma pass_done_eof parser out parser' :
  pass parser = Done (CSVKIT_ERROR_EOF, out, parser') ->
  out = None /\ Parser.unread_input parser = []
  /\ Parser.unread_input parser' = []
  /\ Parser.parser_row_number parser' = Parser.parser_row_number parser.
Proof.
  intros H. pass_cases H.
  pose proof (proj1 (parse_row_internal_eof (Parser.config parser) fresh_row
                       (Parser.unread_input parser) eq_refl)) as Hsrc.
  rewrite Hparse in Hsrc. specialize (Hsrc eq_refl).
  rewrite Hsrc in Hparse. vm_compute in Hparse.
  inversion Hparse; subst.
  repeat split; try assumption.
  unfold Parser.unread_input, Parser.advance; simpl.
  destruct (Parser.source parser); reflexivity.
Qed.

(** Only CSVKIT_OK comes with a row. *)
Lemma pass_done_row parser e out parser' :
  pass parser = Done (e, out, parser') ->
  e <> CSVKIT_OK -> out = None.
Proof.
  intros H He. pass_cases H; congruence.
Qed.

End PassResults.

(** ** End of input *)

Section EndOfInput.
Context {plat : Platform}.

(** The result of a call is the result of its last pass, which earlier
    passes reach by skipping rows. *)
Lemma read_row_last_pass parser res :
  Parser.source parser <> None ->
  Parser.csvkit_read_row parser = Some res ->
  exists n last, skips_to parser n last /\ pass last = Done res.
Proof.
  apply (csvkit_read_row_induction
           (fun parser res =>
              exists n last,
                skips_to parser n last /\ pass last = Done res)).
  - intros p r Hp. exists 0%nat, p. split; [constructor|assumption].
  - intros p p' r Hp (n & last & Hs & Hl). exists (S n), last.
    split; [econstructor; eassumption|assumption].
Qed.

Lemma read_row_bound parser e out parser' :
  Parser.csvkit_read_row parser = Some (e, out, parser') ->
  e <> CSVKIT_ERROR_INVALID_ARG ->
  Parser.source parser <> None.
Proof.
  unfold Parser.csvkit_read_row.
  destruct (Parser.source parser); [discriminate|].
  intros H. injection H as <- _ _. congruence.
Qed.

Lemma skips_to_facts parser n last :
  skips_to parser n last ->
  Parser.config last = Parser.config parser
  /\ Parser.expected_field_count last = Parser.expected_field_count parser
  /\ Parser.parser_row_number last
     = (Parser.parser_row_number parser + n)%nat
  /\ (skip_empty_rows (Parser.config parser) = false ->
      n = 0%nat /\ last = parser)
  /\ (Parser.source parser <> None -> Parser.source last <> None)
  /\ (List.length (Parser.unread_input last)
      <= List.length (Parser.unread_input parser))%nat.
Proof.
  induction 1 as [p|p p' n p'' Hp Hs IH].
  - repeat split; auto.
  - pose proof (pass_skip _ _ Hp) as (Hsrc & Hsrc' & Hlen & Hc & Hn & He).
    destruct IH as (IHc & IHe & IHn & IHk & IHs & IHl).
    assert (Hon : skip_empty_rows (Parser.config p) = false -> False).
    { intros Hskip. unfold pass in Hp.
      destruct (Parser.parse_row_internal (Parser.config p) fresh_row
                  (Parser.unread_input p)) as [[result row] src'].
      rewrite Hskip in Hp. simpl in Hp.
      destruct result; try discriminate.
      repeat match type of Hp with
             | context [if ?b then _ else _] => destruct b
             end; discriminate. }
    split; [congruence|]. split; [congruence|]. split; [lia|].
    split; [intros Hskip; destruct (Hon Hskip)|].
    split; [auto|lia].
Qed.

Lemma read_next_row_last_pass (fuel : nat) parser n last res :
  skips_to parser n last -> pass last = Done res ->
  (List.length (Parser.unread_input parser) < fuel)%nat ->
  Parser.read_next_row fuel parser = Some res.
Proof.
  intros Hs Hl. revert fuel.
  induction Hs as [p|p p' n p'' Hp Hs IH]; intros fuel Hlen.
  - destruct fuel as [|fuel]; [lia|].
    rewrite read_next_row_pass, Hl. reflexivity.
  - destruct fuel as [|fuel]; [lia|].
    rewrite read_next_row_pass, Hp. apply IH; [assumption|].
    apply pass_skip in Hp. lia.
Qed.

(** A call returns what the pass that ends it returns. *)
Lemma read_row_from_last_pass parser n last res :
  Parser.source parser <> None ->
  skips_to parser n last -> pass last = Done res ->
  Parser.csvkit_read_row parser = Some res.
Proof.
  intros Hsrc Hs Hl. unfold Parser.csvkit_read_row.
  destruct (Parser.source parser) as [src|] eqn:E; [|congruence].
  apply read_next_row_last_pass with (1 := Hs) (2 := Hl).
  unfold Parser.unread_input. rewrite E. lia.
Qed.

Lemma read_row_eof parser out parser' :
  Parser.csvkit_read_row parser = Some (CSVKIT_ERROR_EOF, out, parser') ->
  out = None /\ Parser.unread_input parser' = [].
Proof.
  intros H.
  destruct (read_row_last_pass parser _ (read_row_bound _ _ _ _ H ltac:(discriminate)) H)
    as (n & last & _ & Hl).
  apply pass_done_eof in Hl. tauto.
Qed.

Lemma read_row_ok parser out parser' :
  Parser.csvkit_read_row parser = Some (CSVKIT_OK, out, parser') ->
  exists row, out = Some row /\ (0 < field_count row)%nat
              /\ field_count row = List.length (fields row).
Proof.
  intros H.
  destruct (read_row_last_pass parser _ (read_row_bound _ _ _ _ H ltac:(discriminate)) H)
    as (n & last & _ & Hl).
  apply pass_done_ok in Hl.
  destruct Hl as (row & -> & Hc & Hpos & _). eauto.
Qed.

Lemma read_row_exhausted parser :
  Parser.source parser = Some [] ->
  Parser.csvkit_read_row parser = Some (CSVKIT_ERROR_EOF, None, parser).
Proof.
  intros Hsrc. unfold Parser.csvkit_read_row. rewrite Hsrc.
  destruct parser as [cfg src n msg expected]. simpl in Hsrc. subst src.
  reflexivity.
Qed.

Lemma pass_exhausted parser :
  Parser.unread_input parser = [] ->
  pass parser
  = Done (CSVKIT_ERROR_EOF, None,
          Parser.advance parser [] (Parser.parser_row_number parser)
                         (Parser.expected_field_count parser)).
Proof.
  intros H. unfold pass. rewrite H. reflexivity.
Qed.

(** A call reports the end of input exactly when, behind the rows it skips,
    the source is exhausted. *)
Lemma read_row_eof_iff parser :
  Parser.source parser <> None ->
  (exists out parser',
      Parser.csvkit_read_row parser = Some (CSVKIT_ERROR_EOF, out, parser'))
  <-> (exists n last,
          skips_to parser n last /\ Parser.unread_input last = []).
Proof.
  intros Hsrc. split.
  - intros (out & parser' & H).
    destruct (read_row_last_pass parser _ Hsrc H) as (n & last & Hs & Hl).
    exists n, last. split; [exact Hs|].
    apply pass_done_eof in Hl. tauto.
  - intros (n & last & Hs & Hl).
    exists None. eexists.
    apply read_row_from_last_pass with (2 := Hs); [exact Hsrc|].
    apply pass_exhausted, Hl.
Qed.

(** C8: parse_row_internal reports the end of input exactly when the loop
    is left on the end of the source with no field appended, nothing in
    the buffer and the field not started, which happens exactly when the
    source is exhausted at the call; csvkit_read_row on an exhausted source
    returns CSVKIT_ERROR_EOF at once, without a row, so an empty source
    gives no rows; a call returns CSVKIT_ERROR_EOF exactly when the source
    is exhausted behind the rows the call skips, and then it leaves no row;
    and a row returned with CSVKIT_OK has at least one field. *)
Theorem end_of_input_spec :
  (forall cfg src,
      (fst (fst (Parser.parse_row_internal cfg fresh_row src))
         = CSVKIT_ERROR_EOF
       <-> exists c st src',
             Parser.parse_loop cfg (Parser.initial_state fresh_row) src
             = Parser.LoopExit c st src' /\ nothing_read c st)
      /\ (fst (fst (Parser.parse_row_internal cfg fresh_row src))
            = CSVKIT_ERROR_EOF
          <-> src = []))
  /\ (forall parser,
      Parser.source parser = Some [] ->
      Parser.csvkit_read_row parser = Some (CSVKIT_ERROR_EOF, None, parser))
  /\ (forall cfg,
      Parser.validate_config (Some cfg) = true ->
      parse cfg [] = Some ([], CSVKIT_ERROR_EOF))
  /\ (forall parser out parser',
      Parser.csvkit_read_row parser = Some (CSVKIT_ERROR_EOF, out, parser') ->
      out = None /\ Parser.unread_input parser' = [])
  /\ (forall parser,
      Parser.source parser <> None ->
      (exists out parser',
          Parser.csvkit_read_row parser
          = Some (CSVKIT_ERROR_EOF, out, parser'))
      <-> (exists n last,
              skips_to parser n last /\ Parser.unread_input last = []))
  /\ (forall parser out parser',
      Parser.csvkit_read_row parser = Some (CSVKIT_OK, out, parser') ->
      exists row, out = Some row /\ (0 < field_count row)%nat
                  /\ field_count row = List.length (fields row)).
Proof.
  split; [|split; [|split; [|split; [|split]]]].
  - intros cfg src. split; [|apply parse_row_internal_eof; reflexivity].
    unfold Parser.parse_row_internal.
    destruct (Parser.parse_loop cfg (Parser.initial_state fresh_row) src)
      as [e st s|c st s] eqn:Hloop.
    + apply parse_loop_return in Hloop. subst e. simpl.
      split; [discriminate|]. intros (c & st' & s' & E & _). discriminate.
    + destruct ((c =? EOF) && Nat.eqb (List.length (Parser.buffer st)) 0
                && Nat.eqb (Parser.row_field_count st) 0
                && negb (Parser.field_started st)) eqn:Htest.
      * simpl. split; [|reflexivity]. intros _.
        exists c, st, s. split; [reflexivity|].
        apply nothing_read_test, Htest.
      * split.
        -- destruct (Parser.in_quotes st); discriminate.
        -- intros (c' & st' & s' & E & Hn). inversion E; subst.
           apply nothing_read_test in Hn. congruence.
  - apply read_row_exhausted.
  - intros cfg Hv. unfold parse, parser_on,
      Parser.csvkit_parser_new_with_config. rewrite Hv. reflexivity.
  - apply read_row_eof.
  - apply read_row_eof_iff.
  - apply read_row_ok.
Qed.

End EndOfInput.

Lemma end_of_input_spec_witness :
  @Parser.csvkit_read_row signed_char_platform
    (handle csvkit_config_default [] 0 0)
  = Some (CSVKIT_ERROR_EOF, None, handle csvkit_config_default [] 0 0)
  /\ @parse signed_char_platform csvkit_config_default []
     = Some ([], CSVKIT_ERROR_EOF)
  /\ ((@None csvkit_row_t) = None
      /\ Parser.unread_input (handle csvkit_config_default [] 0 0) = [])
  /\ ((exists out parser',
         @Parser.csvkit_read_row signed_char_platform
           (handle (default_with false true false) [LF; LF] 0 0)
         = Some (CSVKIT_ERROR_EOF, out, parser'))
      <-> (exists n last,
             @skips_to signed_char_platform
               (handle (default_with false true false) [LF; LF] 0 0) n last
             /\ Parser.unread_input last = []))
  /\ exists row,
       Some {| fields := [chars "a"]; field_count := 1; row_number := 1 |}
       = Some row
       /\ (0 < field_count row)%nat
       /\ field_count row = List.length (fields row).
Proof.
  pose proof (@end_of_input_spec signed_char_platform)
    as (_ & Hexhausted & Hempty & Heof & Hiff & Hok).
  split; [|split; [|split; [|split]]].
  - apply Hexhausted. reflexivity.
  - apply Hempty. reflexivity.
  - apply (Heof (handle csvkit_config_default [] 0 0) None
             (handle csvkit_config_default [] 0 0)).
    reflexivity.
  - apply Hiff. discriminate.
  - apply (Hok (handle csvkit_config_default (chars "a") 0 0) _
             (handle csvkit_config_default [] 1 0)).
    reflexivity.
Defined.

(** ** Rows *)

(** The rows csvkit_read_row hands out hold as many fields as they
    count. *)
Lemma read_row_wf {plat : Platform} parser row parser' :
  Parser.csvkit_read_row parser = Some (CSVKIT_OK, Some row, parser') ->
  row_wf row.
Proof.
  intros H. apply read_row_ok in H.
  destruct H as (row' & E & _ & Hc). injection E as <-.
  unfold row_wf. lia.
Qed.

(** C10: csvkit_row_get_field returns NULL for a null row and for an index
    that is not below field_count; below field_count it returns the field
    stored at the index and does not leave the fields array, which holds
    at least field_count entries in every row that csvkit_read_row hands
    out. *)
Theorem row_get_field_spec {plat : Platform} (row : csvkit_row_t)
  (index : nat) :
  Parser.csvkit_row_get_field None index = Parser.NULL
  /\ ((field_count row <= index)%nat ->
      Parser.csvkit_row_get_field (Some row) index = Parser.NULL)
  /\ (row_wf row -> (index < field_count row)%nat ->
      exists f, nth_error (fields row) index = Some f
                /\ Parser.csvkit_row_get_field (Some row) index
                   = Parser.Field f)
  /\ (row_wf row ->
      Parser.csvkit_row_get_field (Some row) index <> Parser.OutOfBounds)
  /\ (forall parser parser',
      Parser.csvkit_read_row parser = Some (CSVKIT_OK, Some row, parser') ->
      Parser.csvkit_row_get_field (Some row) index <> Parser.OutOfBounds).
Proof.
  assert (Hin : row_wf row ->
                Parser.csvkit_row_get_field (Some row) index
                <> Parser.OutOfBounds).
  { unfold row_wf, Parser.csvkit_row_get_field. intros Hwf.
    destruct (Nat.leb_spec (field_count row) index) as [Hle|Hlt];
      [discriminate|].
    destruct (nth_error (fields row) index) as [f|] eqn:Hnth;
      [discriminate|].
    apply nth_error_None in Hnth. lia. }
  split; [reflexivity|]. split; [|split; [|split]].
  - unfold Parser.csvkit_row_get_field.
    intros Hle. apply Nat.leb_le in Hle. now rewrite Hle.
  - unfold row_wf, Parser.csvkit_row_get_field. intros Hwf Hlt.
    destruct (nth_error (fields row) index) as [f|] eqn:Hnth.
    + exists f. split; [reflexivity|].
      apply Nat.leb_gt in Hlt. now rewrite Hlt.
    + apply nth_error_None in Hnth. lia.
  - exact Hin.
  - intros parser parser' H. apply Hin. eapply read_row_wf, H.
Qed.

Lemma row_get_field_spec_witness :
  Parser.csvkit_row_get_field (Some (row_of [chars "a"; chars "b"] 1)) 2
  = Parser.NULL
  /\ (exists f,
       nth_error [chars "a"; chars "b"] 1%nat = Some f
       /\ Parser.csvkit_row_get_field
            (Some (row_of [chars "a"; chars "b"] 1)) 1 = Parser.Field f)
  /\ Parser.csvkit_row_get_field (Some (row_of [chars "a"; chars "b"] 1)) 5
     <> Parser.OutOfBounds
  /\ Parser.csvkit_row_get_field (Some (row_of [chars "a"; chars "b"] 1)) 0
     <> Parser.OutOfBounds.
Proof.
  split; [|split; [|split]].
  - apply (proj1 (proj2 (@row_get_field_spec signed_char_platform
                           (row_of [chars "a"; chars "b"] 1) 2))).
    simpl. lia.
  - apply (proj1 (proj2 (proj2 (@row_get_field_spec signed_char_platform
                                  (row_of [chars "a"; chars "b"] 1) 1)))).
    + unfold row_wf. simpl. lia.
    + simpl. lia.
  - apply (proj1 (proj2 (proj2 (proj2
             (@row_get_field_spec signed_char_platform
                (row_of [chars "a"; chars "b"] 1) 5))))).
    unfold row_wf. simpl. lia.
  - apply (proj2 (proj2 (proj2 (proj2
             (@row_get_field_spec signed_char_platform
                (row_of [chars "a"; chars "b"] 1) 0))))
             (handle csvkit_config_default (chars "a,b") 0 0)
             (handle csvkit_config_default [] 1 0)).
    reflexivity.
Defined.

(** ** Strict mode *)

Section StrictMode.
Context {plat : Platform}.

(** A pass that skips a row hands the call over to the next pass. *)
Lemma read_row_after_skip parser parser' :
  pass parser = Skip parser' ->
  Parser.csvkit_read_row parser = Parser.csvkit_read_row parser'.
Proof.
  intros Hp. pose proof (pass_skip _ _ Hp) as (Hsrc & Hsrc' & _).
  destruct (csvkit_read_row_total parser') as (res & H). rewrite H.
  destruct (read_row_last_pass parser' _ Hsrc' H) as (n & last & Hs & Hl).
  apply read_row_from_last_pass with (n := S n) (last := last);
    [exact Hsrc| |exact Hl].
  apply skips_more with (parser' := parser'); assumption.
Qed.

(** C3, as the code has it: in strict mode the first row handed out fixes
    the expected field count; from then on a call whose decoded row that
    is not skipped as empty has another field count returns
    CSVKIT_ERROR_PARSE and hands out no row, a call that returns CSVKIT_OK
    hands out a row with the expected count, and no call that fails hands
    out a row.  The count is checked on the rows that are not skipped
    only: with skip_empty_rows on, a decoded row of empty fields is
    skipped whatever its field count, and the call goes on behind it.  On
    [a,b,c] followed by [a,b] the first call returns the row a, b, c and
    the second call fails with CSVKIT_ERROR_PARSE and no row. *)
Theorem strict_mode_field_count :
  (forall parser out parser',
      strict_mode (Parser.config parser) = true ->
      Parser.expected_field_count parser = 0%nat ->
      Parser.csvkit_read_row parser = Some (CSVKIT_OK, out, parser') ->
      exists row, out = Some row
                  /\ Parser.expected_field_count parser' = field_count row
                  /\ field_count row <> 0%nat)
  /\ (forall parser n last row src',
      Parser.source parser <> None ->
      strict_mode (Parser.config parser) = true ->
      Parser.expected_field_count parser <> 0%nat ->
      skips_to parser n last ->
      Parser.parse_row_internal (Parser.config parser) fresh_row
        (Parser.unread_input last) = (CSVKIT_OK, row, src') ->
      skip_empty_rows (Parser.config parser)
        && Parser.csvkit_row_is_empty (Some row) = false ->
      field_count row <> Parser.expected_field_count parser ->
      exists parser',
        Parser.csvkit_read_row parser
        = Some (CSVKIT_ERROR_PARSE, None, parser')
        /\ Parser.expected_field_count parser'
           = Parser.expected_field_count parser)
  /\ (forall parser out parser',
      strict_mode (Parser.config parser) = true ->
      Parser.expected_field_count parser <> 0%nat ->
      Parser.csvkit_read_row parser = Some (CSVKIT_OK, out, parser') ->
      exists row, out = Some row
                  /\ field_count row = Parser.expected_field_count parser
                  /\ Parser.expected_field_count parser'
                     = Parser.expected_field_count parser)
  /\ (forall parser e out parser',
      Parser.csvkit_read_row parser = Some (e, out, parser') ->
      e <> CSVKIT_OK -> out = None)
  /\ (forall parser row src',
      skip_empty_rows (Parser.config parser) = true ->
      Parser.parse_row_internal (Parser.config parser) fresh_row
        (Parser.unread_input parser) = (CSVKIT_OK, row, src') ->
      Parser.csvkit_row_is_empty (Some row) = true ->
      Parser.csvkit_read_row parser
      = Parser.csvkit_read_row
          (Parser.advance parser src'
             (S (Parser.parser_row_number parser))
             (Parser.expected_field_count parser)))
  /\ (forall trim skip,
      read_twice (default_with trim skip true)
                 (chars "a,b,c" ++ [LF] ++ chars "a,b")
      = Some ((CSVKIT_OK,
               Some {| fields := [chars "a"; chars "b"; chars "c"];
                       field_count := 3; row_number := 1 |}),
              (CSVKIT_ERROR_PARSE, None))).
Proof.
  split; [|split; [|split; [|split; [|split]]]].
  - intros parser out parser' Hstrict Hexp H.
    destruct (read_row_last_pass parser _
                (read_row_bound _ _ _ _ H ltac:(discriminate)) H)
      as (n & last & Hs & Hl).
    apply skips_to_facts in Hs. destruct Hs as (Hc & He & _).
    apply pass_done_ok in Hl.
    destruct Hl as (row & -> & _ & Hpos & _ & _ & _ & _ & _ & _ & _ & Hx & _).
    exists row. rewrite Hc, He, Hstrict, Hexp in Hx. simpl in Hx.
    repeat split; [assumption|lia].
  - intros parser n last row src' Hsrc Hstrict Hexp Hs Hp Hskip Hcount.
    pose proof (skips_to_facts _ _ _ Hs) as (Hc & He & _).
    eexists. split.
    + apply read_row_from_last_pass with (2 := Hs); [assumption|].
      unfold pass. rewrite Hc, Hp. cbv zeta.
      replace (Parser.csvkit_row_is_empty
                 (Some (Parser.stamp row
                          (S (Parser.parser_row_number last)))))
        with (Parser.csvkit_row_is_empty (Some row)) by reflexivity.
      rewrite Hskip, Hstrict, He.
      apply Nat.eqb_neq in Hexp. rewrite Hexp.
      replace (field_count (Parser.stamp row
                              (S (Parser.parser_row_number last))))
        with (field_count row) by reflexivity.
      apply Nat.eqb_neq in Hcount. rewrite Hcount. simpl. reflexivity.
    + reflexivity.
  - intros parser out parser' Hstrict Hexp H.
    destruct (read_row_last_pass parser _
                (read_row_bound _ _ _ _ H ltac:(discriminate)) H)
      as (n & last & Hs & Hl).
    apply skips_to_facts in Hs. destruct Hs as (Hc & He & _).
    apply pass_done_ok in Hl.
    destruct Hl as (row & -> & _ & _ & _ & _ & _ & _ & _ & _ & _ & Hx & Hy).
    exists row. rewrite Hc, He, Hstrict in Hx. rewrite Hc, Hstrict in Hy.
    apply Nat.eqb_neq in Hexp. rewrite Hexp in Hx. simpl in Hx.
    specialize (Hy eq_refl). repeat split; congruence.
  - intros parser e out parser' H He.
    destruct (Parser.source parser) eqn:Hsrc.
    + destruct (read_row_last_pass parser _ ltac:(congruence) H)
        as (n & last & _ & Hl).
      eapply pass_done_row; eassumption.
    + unfold Parser.csvkit_read_row in H. rewrite Hsrc in H.
      congruence.
  - intros parser row src' Hskip Hp Hempty.
    apply read_row_after_skip.
    unfold pass. rewrite Hp. cbv zeta.
    replace (Parser.csvkit_row_is_empty
               (Some (Parser.stamp row
                        (S (Parser.parser_row_number parser)))))
      with (Parser.csvkit_row_is_empty (Some row)) by reflexivity.
    rewrite Hskip, Hempty. reflexivity.
  - intros trim skip.
    destruct plat as [[|]], trim, skip; vm_compute; reflexivity.
Qed.

End StrictMode.

Lemma strict_mode_field_count_witness :
  (exists row,
      Some {| fields := [chars "a"; chars "b"; chars "c"];
              field_count := 3; row_number := 1 |} = Some row
      /\ Parser.expected_field_count
           (handle (default_with false false true) (chars "a,b") 1 3)
         = field_count row
      /\ field_count row <> 0%nat)
  /\ (exists parser',
      @Parser.csvkit_read_row signed_char_platform
        (handle (default_with false false true) (chars "a,b") 1 3)
      = Some (CSVKIT_ERROR_PARSE, None, parser')
      /\ Parser.expected_field_count parser' = 3%nat)
  /\ (exists row,
      Some {| fields := [chars "x"; chars "y"; chars "z"];
              field_count := 3; row_number := 2 |} = Some row
      /\ field_count row = 3%nat
      /\ Parser.expected_field_count
           (handle (default_with false false true) [] 2 3) = 3%nat)
  /\ (@None csvkit_row_t) = None
  /\ @Parser.csvkit_read_row signed_char_platform
       (handle (default_with false true true)
               (chars "," ++ [LF] ++ chars "x,y,z" ++ [LF]) 1 3)
     = @Parser.csvkit_read_row signed_char_platform
         (Parser.advance
            (handle (default_with false true true)
                    (chars "," ++ [LF] ++ chars "x,y,z" ++ [LF]) 1 3)
            (chars "x,y,z" ++ [LF]) 2 3).
Proof.
  pose proof (@strict_mode_field_count signed_char_platform)
    as (Hfirst & Hreject & Haccept & Hrow & Hskipped & _).
  split; [|split; [|split; [|split]]].
  - apply (Hfirst (handle (default_with false false true)
                     (chars "a,b,c" ++ [LF] ++ chars "a,b") 0 0));
      reflexivity.
  - apply (Hreject (handle (default_with false false true) (chars "a,b") 1 3)
             0%nat (handle (default_with false false true) (chars "a,b") 1 3)
             {| fields := [chars "a"; chars "b"]; field_count := 2;
                row_number := 0 |} []).
    + discriminate.
    + reflexivity.
    + simpl. lia.
    + constructor.
    + reflexivity.
    + reflexivity.
    + simpl. lia.
  - apply (Haccept (handle (default_with false false true)
                      (chars "x,y,z" ++ [LF]) 1 3)).
    + reflexivity.
    + simpl. lia.
    + reflexivity.
  - apply (Hrow (handle (default_with false false true) (chars "a,b") 1 3)
             CSVKIT_ERROR_PARSE None
             (Parser.set_error
                (handle (default_with false false true) [] 2 3)
                (Some "Field count mismatch in strict mode"%string))).
    + reflexivity.
    + discriminate.
  - apply (Hskipped
             (handle (default_with false true true)
                     (chars "," ++ [LF] ++ chars "x,y,z" ++ [LF]) 1 3)
             {| fields := [[]; []]; field_count := 2; row_number := 0 |}
             (chars "x,y,z" ++ [LF])); reflexivity.
Defined.

(** A row with another field count that is not refused: with
    skip_empty_rows on, after [a,b,c] has fixed three fields, the call
    that decodes the two empty fields of the line [,] skips them and hands
    out x, y, z with CSVKIT_OK. *)
Lemma strict_mode_counterexample :
  @read_twice signed_char_platform (default_with false true true)
    (chars "a,b,c" ++ [LF] ++ chars "," ++ [LF] ++ chars "x,y,z" ++ [LF])
  = Some ((CSVKIT_OK,
           Some {| fields := [chars "a"; chars "b"; chars "c"];
                   field_count := 3; row_number := 1 |}),
          (CSVKIT_OK,
           Some {| fields := [chars "x"; chars "y"; chars "z"];
                   field_count := 3; row_number := 3 |}))
  /\ @Parser.parse_row_internal signed_char_platform
       (default_with false true true) fresh_row
       (chars "," ++ [LF] ++ chars "x,y,z" ++ [LF])
     = (CSVKIT_OK,
        {| fields := [[]; []]; field_count := 2; row_number := 0 |},
        chars "x,y,z" ++ [LF])
  /\ 2%nat <> 3%nat.
Proof.
  repeat split; try (vm_compute; reflexivity). discriminate.
Qed.

(** ** Row numbers *)

Section RowNumbers.
Context {plat : Platform}.

(** What a successful call leaves behind, relative to the pass that ended
    it. *)
Lemma read_row_ok_facts parser out parser' :
  Parser.csvkit_read_row parser = Some (CSVKIT_OK, out, parser') ->
  exists n last row,
    skips_to parser n last /\ out = Some row
    /\ row_number row = (Parser.parser_row_number parser + n + 1)%nat
    /\ Parser.parser_row_number parser' = row_number row
    /\ Parser.config parser' = Parser.config parser
    /\ Parser.source parser' <> None
    /\ (List.length (Parser.unread_input parser')
        < List.length (Parser.unread_input parser))%nat.
Proof.
  intros H.
  destruct (read_row_last_pass parser _
              (read_row_bound _ _ _ _ H ltac:(discriminate)) H)
    as (n & last & Hs & Hl).
  pose proof (skips_to_facts _ _ _ Hs) as (Hc & _ & Hn & _ & _ & Hlen).
  apply pass_done_ok in Hl.
  destruct Hl as (row & -> & _ & _ & Hno & Hno' & Hc' & _ & Hsrc' & Hlen' & _).
  exists n, last, row. repeat split; try assumption; try lia; congruence.
Qed.

(** Reading all rows gives a result: every row handed out has consumed
    input. *)
Lemma read_rows_total (k : nat) :
  forall parser,
    (List.length (Parser.unread_input parser) < k)%nat ->
    exists res, Parser.read_rows k parser = Some res.
Proof.
  induction k as [|k IH]; intros parser Hlen; [lia|].
  cbn [Parser.read_rows].
  destruct (csvkit_read_row_total parser) as ([[e out] parser'] & H).
  rewrite H. destruct e; eauto. destruct out as [row|]; eauto.
  apply read_row_ok_facts in H.
  destruct H as (_ & _ & _ & _ & _ & _ & _ & _ & _ & Hshort).
  destruct (IH parser') as ([[rows e'] parser''] & Hrest); [lia|].
  rewrite Hrest. eauto.
Qed.

Lemma read_all_total (parser : Parser.csvkit_parser_t) :
  exists res, Parser.read_all parser = Some res.
Proof. apply read_rows_total. lia. Qed.

Lemma read_rows_numbers (k : nat) :
  forall parser rows e parser',
    skip_empty_rows (Parser.config parser) = false ->
    Parser.read_rows k parser = Some (rows, e, parser') ->
    map row_number rows
    = seq (S (Parser.parser_row_number parser)) (List.length rows).
Proof.
  induction k as [|k IH]; intros parser rows e parser' Hskip H;
    [discriminate|].
  cbn [Parser.read_rows] in H.
  destruct (Parser.csvkit_read_row parser) as [[[e1 out1] parser1]|] eqn:H1;
    [|discriminate].
  destruct e1; try (injection H as <- _ _; reflexivity).
  destruct out1 as [row|]; [|injection H as <- _ _; reflexivity].
  destruct (Parser.read_rows k parser1) as [[[rows' e'] parser'']|] eqn:H2;
    [|discriminate].
  injection H as <- _ _.
  apply read_row_ok_facts in H1.
  destruct H1 as (n & last & row' & Hs & Hrow & Hno & Hno' & Hc & _).
  injection Hrow as <-.
  apply skips_to_facts in Hs. destruct Hs as (_ & _ & _ & Hzero & _).
  destruct (Hzero Hskip) as [-> _].
  apply IH in H2; [|congruence].
  simpl. rewrite H2, Hno', Hno. f_equal; [lia|].
  f_equal. lia.
Qed.

(** The passes that skip a row lead to one pass that ends the call. *)
Lemma skips_to_unique parser n last res :
  skips_to parser n last -> pass last = Done res ->
  forall m last' res',
    skips_to parser m last' -> pass last' = Done res' ->
    m = n /\ last' = last.
Proof.
  induction 1 as [p|p p' n p'' Hp Hs IH]; intros Hl m last' res' Hs' Hl'.
  - inversion Hs' as [|? p1 m' ? Hp1 Hs1]; subst; [auto|congruence].
  - inversion Hs' as [|? p1 m' ? Hp1 Hs1]; subst; [congruence|].
    assert (p1 = p') by congruence. subst p1.
    destruct (IH Hl _ _ _ Hs1 Hl') as [-> ->]. auto.
Qed.

(** A blank line is a row of one empty field, and skipped as one. *)
Lemma pass_blank_line (cfg : csvkit_config_t) (rest : list Z) (n k : nat) :
  Parser.validate_config (Some cfg) = true ->
  skip_empty_rows cfg = true ->
  pass (handle cfg (LF :: rest) n k) = Skip (handle cfg rest (S n) k).
Proof.
  intros Hv Hskip.
  assert (Hn : ~ invalid_config cfg).
  { intros Hbad. apply parser_validate_config_spec in Hbad. congruence. }
  assert (Hq : quote_char cfg <> LF /\ delimiter cfg <> LF)
    by (unfold invalid_config in Hn; tauto).
  destruct Hq as [Hq Hd].
  assert (E1 : (LF =? quote_char cfg) = false)
    by (apply Z.eqb_neq; congruence).
  assert (E2 : (LF =? delimiter cfg) = false)
    by (apply Z.eqb_neq; congruence).
  unfold pass. cbn [handle Parser.config Parser.unread_input Parser.source].
  unfold Parser.parse_row_internal.
  rewrite parse_loop_step. unfold loop_step.
  cbn [Parser.initial_state Parser.in_quotes negb andb].
  change (LF =? CR) with false. cbv iota. rewrite E1, E2. cbn [andb].
  rewrite Z.eqb_refl.
  change (LF =? EOF) with false. cbn [andb Parser.in_quotes].
  cbv zeta. rewrite Hskip. cbn [andb].
  assert (Ev : Parser.field_value cfg (Parser.initial_state fresh_row) = []).
  { unfold Parser.field_value. cbn.
    destruct (trim_whitespace cfg); reflexivity. }
  cbn [Parser.row_fields Parser.initial_state fresh_row fields app
       Parser.row_field_count field_count].
  rewrite Ev. reflexivity.
Qed.

Lemma read_row_blank_lines (cfg : csvkit_config_t) (m : nat) :
  forall rest n k,
    Parser.validate_config (Some cfg) = true ->
    skip_empty_rows cfg = true ->
    Parser.csvkit_read_row (handle cfg (repeat LF m ++ rest) n k)
    = Parser.csvkit_read_row (handle cfg rest (n + m) k).
Proof.
  induction m as [|m IH]; intros rest n k Hv Hskip.
  - cbn [repeat app]. rewrite Nat.add_0_r. reflexivity.
  - cbn [repeat app].
    rewrite (read_row_after_skip _ _
               (pass_blank_line cfg (repeat LF m ++ rest) n k Hv Hskip)).
    rewrite IH by assumption. f_equal. f_equal. lia.
Qed.

(** C4, as the code has it: the row number of a returned row is the number
    of rows the parser has decoded from its source up to and including it,
    the rows skipped as empty being counted.  A call that returns a row
    ends with one pass that hands the row out, after a number of passes
    that skip a row each, and that number is fixed by the call; the row
    number is one more than the counter before the call plus the number of
    rows the call skipped, and the handle keeps it as its counter.  With
    skip_empty_rows on, blank lines in front of the input make the call
    behave as on the input behind them with the counter raised by their
    number.  With skip_empty_rows off a call skips nothing, and the rows
    that successive successful calls return from an opened source are
    numbered 1, 2, 3, ... *)
Theorem row_number_counts_decoded_rows :
  (forall parser e row parser',
      Parser.csvkit_read_row parser = Some (e, Some row, parser') ->
      exists n last,
        skips_to parser n last
        /\ pass last = Done (CSVKIT_OK, Some row, parser')
        /\ (forall m last' res,
               skips_to parser m last' -> pass last' = Done res ->
               m = n /\ last' = last)
        /\ row_number row = (Parser.parser_row_number parser + n + 1)%nat
        /\ Parser.parser_row_number parser' = row_number row
        /\ (skip_empty_rows (Parser.config parser) = false -> n = 0%nat))
  /\ (forall cfg m rest n k,
      Parser.validate_config (Some cfg) = true ->
      skip_empty_rows cfg = true ->
      Parser.csvkit_read_row (handle cfg (repeat LF m ++ rest) n k)
      = Parser.csvkit_read_row (handle cfg rest (n + m) k))
  /\ (forall cfg data parser rows e parser',
      skip_empty_rows cfg = false ->
      parser_on cfg data = Some parser ->
      Parser.read_all parser = Some (rows, e, parser') ->
      map row_number rows = seq 1 (List.length rows)).
Proof.
  split; [|split].
  - intros parser e row parser' H.
    assert (Hsrc : Parser.source parser <> None).
    { intros Hsrc. unfold Parser.csvkit_read_row in H.
      rewrite Hsrc in H. discriminate. }
    destruct (read_row_last_pass parser _ Hsrc H) as (n & last & Hs & Hl).
    assert (e = CSVKIT_OK) as ->.
    { destruct e; try reflexivity.
      all: apply pass_done_row in Hl; [discriminate|discriminate]. }
    exists n, last. split; [exact Hs|]. split; [exact Hl|].
    split; [intros m last' res; apply (skips_to_unique _ _ _ _ Hs Hl)|].
    pose proof (skips_to_facts _ _ _ Hs) as (_ & _ & Hn & Hzero & _).
    apply pass_done_ok in Hl.
    destruct Hl as (row' & Hrow & _ & _ & Hno & Hno' & _).
    injection Hrow as <-.
    repeat split; [lia|lia|]. intros Hskip. apply Hzero, Hskip.
  - intros cfg m rest n k. apply read_row_blank_lines.
  - intros cfg data parser rows e parser' Hskip Hon H.
    unfold parser_on, Parser.csvkit_parser_new_with_config in Hon.
    destruct (negb (Parser.validate_config (Some cfg))); [discriminate|].
    injection Hon as <-.
    apply read_rows_numbers in H; [exact H|exact Hskip].
Qed.

End RowNumbers.

Lemma row_number_counts_decoded_rows_witness :
  (exists n last,
      @skips_to signed_char_platform
        (handle (default_with false true false)
                ([LF] ++ chars "a" ++ [LF]) 0 0) n last
      /\ @pass signed_char_platform last
         = Done (CSVKIT_OK,
                 Some {| fields := [chars "a"]; field_count := 1;
                         row_number := 2 |},
                 handle (default_with false true false) [] 2 0)
      /\ (forall m last' res,
             @skips_to signed_char_platform
               (handle (default_with false true false)
                       ([LF] ++ chars "a" ++ [LF]) 0 0) m last' ->
             @pass signed_char_platform last' = Done res ->
             m = n /\ last' = last)
      /\ row_number {| fields := [chars "a"]; field_count := 1;
                       row_number := 2 |} = (0 + n + 1)%nat
      /\ Parser.parser_row_number
           (handle (default_with false true false) [] 2 0)
         = row_number {| fields := [chars "a"]; field_count := 1;
                         row_number := 2 |}
      /\ (skip_empty_rows (default_with false true false) = false ->
          n = 0%nat))
  /\ @Parser.csvkit_read_row signed_char_platform
       (handle (default_with false true false)
               (repeat LF 2 ++ chars "a" ++ [LF]) 0 0)
     = @Parser.csvkit_read_row signed_char_platform
         (handle (default_with false true false) (chars "a" ++ [LF])
                 (0 + 2) 0)
  /\ map row_number
       [ {| fields := [chars "a"]; field_count := 1; row_number := 1 |};
         {| fields := [chars "b"]; field_count := 1; row_number := 2 |} ]
     = seq 1 2.
Proof.
  pose proof (@row_number_counts_decoded_rows signed_char_platform)
    as (Hcall & Hblank & Hall).
  split; [|split].
  - apply (Hcall (handle (default_with false true false)
                    ([LF] ++ chars "a" ++ [LF]) 0 0) CSVKIT_OK).
    reflexivity.
  - apply (Hblank (default_with false true false) 2%nat
             (chars "a" ++ [LF]) 0%nat 0%nat); reflexivity.
  - refine (Hall csvkit_config_default
              (chars "a" ++ [LF] ++ chars "b" ++ [LF])
              (handle csvkit_config_default
                 (chars "a" ++ [LF] ++ chars "b" ++ [LF]) 0 0)
              [ {| fields := [chars "a"]; field_count := 1;
                   row_number := 1 |};
                {| fields := [chars "b"]; field_count := 1;
                   row_number := 2 |} ]
              CSVKIT_ERROR_EOF
              (handle csvkit_config_default [] 2 0) _ _ _).
    + reflexivity.
    + reflexivity.
    + reflexivity.
Defined.

Lemma row_number_counterexample :
  @row_numbers signed_char_platform (default_with false true false)
    ([LF] ++ chars "a" ++ [LF]) = Some [2%nat]
  /\ @row_numbers unsigned_char_platform (default_with false true false)
       ([LF] ++ chars "a" ++ [LF]) = Some [2%nat]
  /\ [2%nat] <> seq 1 1.
Proof.
  repeat split; try (vm_compute; reflexivity). discriminate.
Qed.

(** ** Single iterations of the loop *)

Section Iterations.
Context {plat : Platform}.
Variable cfg : csvkit_config_t.

Ltac one_step :=
  rewrite parse_loop_step; unfold loop_step;
  repeat match goal with
         | H : Parser.in_quotes _ = _ |- _ => rewrite H
         end;
  cbn [negb andb].

Ltac eqb_false x y :=
  let E := fresh "E" in
  assert (E : (x =? y) = false) by (apply Z.eqb_neq; assumption);
  rewrite ?E; clear E.

(** An ordinary character outside quotes is appended. *)
Lemma step_plain st x rest :
  Parser.in_quotes st = false ->
  x <> CR -> x <> quote_char cfg -> x <> delimiter cfg -> x <> LF ->
  Parser.parse_loop cfg st (x :: rest)
  = Parser.parse_loop cfg (Parser.add_char x st) rest.
Proof.
  intros Hin H1 H2 H3 H4. one_step.
  eqb_false x CR. cbn [andb]. eqb_false x (quote_char cfg).
  eqb_false x (delimiter cfg). eqb_false x LF. reflexivity.
Qed.

(** The quote character at the start of a field opens quoted mode. *)
Lemma step_open_quote st rest :
  Parser.in_quotes st = false -> Parser.field_started st = false ->
  quote_char cfg <> CR ->
  Parser.parse_loop cfg st (quote_char cfg :: rest)
  = Parser.parse_loop cfg (Parser.start_quoted st) rest.
Proof.
  intros Hin Hs H1. one_step.
  eqb_false (quote_char cfg) CR. rewrite Z.eqb_refl, Hs. reflexivity.
Qed.

(** The delimiter outside quotes ends the field. *)
Lemma step_delimiter st rest :
  Parser.in_quotes st = false ->
  delimiter cfg <> CR -> delimiter cfg <> quote_char cfg ->
  Parser.parse_loop cfg st (delimiter cfg :: rest)
  = Parser.parse_loop cfg (Parser.end_field cfg st) rest.
Proof.
  intros Hin H1 H2. one_step.
  eqb_false (delimiter cfg) CR. eqb_false (delimiter cfg) (quote_char cfg).
  cbn [andb]. rewrite Z.eqb_refl. reflexivity.
Qed.

(** A newline outside quotes ends the row. *)
Lemma step_newline st rest :
  Parser.in_quotes st = false ->
  quote_char cfg <> LF -> delimiter cfg <> LF ->
  Parser.parse_loop cfg st (LF :: rest) = Parser.LoopExit LF st rest.
Proof.
  intros Hin H1 H2. one_step.
  assert (E1 : (LF =? quote_char cfg) = false) by (apply Z.eqb_neq; congruence).
  assert (E2 : (LF =? delimiter cfg) = false) by (apply Z.eqb_neq; congruence).
  change (LF =? CR) with false. cbv iota. rewrite E1, E2. reflexivity.
Qed.

(** An ordinary character inside quotes is appended. *)
Lemma step_quoted_plain st x rest :
  Parser.in_quotes st = true ->
  x <> escape_char cfg -> x <> quote_char cfg ->
  Parser.parse_loop cfg st (x :: rest)
  = Parser.parse_loop cfg (Parser.add_char x st) rest.
Proof.
  intros Hin H1 H2. one_step.
  eqb_false x (escape_char cfg). eqb_false x (quote_char cfg).
  reflexivity.
Qed.

(** The escape character followed by the quote character gives a quote. *)
Lemma step_escaped_quote st rest :
  Parser.in_quotes st = true ->
  Parser.parse_loop cfg st (escape_char cfg :: quote_char cfg :: rest)
  = Parser.parse_loop cfg (Parser.add_char (quote_char cfg) st) rest.
Proof.
  intros Hin. one_step. rewrite !Z.eqb_refl. reflexivity.
Qed.

(** With distinct escape and quote characters, the escape character
    followed by a character that is neither of them is kept, and so is the
    character. *)
Lemma step_escaped_other st y rest :
  Parser.in_quotes st = true ->
  escape_char cfg <> quote_char cfg ->
  y <> quote_char cfg -> y <> escape_char cfg ->
  Parser.parse_loop cfg st (escape_char cfg :: y :: rest)
  = Parser.parse_loop cfg
      (Parser.add_char y (Parser.add_char (escape_char cfg) st)) rest.
Proof.
  intros Hin H1 H2 H3. one_step. rewrite Z.eqb_refl.
  eqb_false y (quote_char cfg). eqb_false y (escape_char cfg).
  eqb_false (escape_char cfg) (quote_char cfg). reflexivity.
Qed.

(** With distinct escape and quote characters, a quote character followed
    by the delimiter or a newline closes the quoted field. *)
Lemma step_close_quote st t rest :
  Parser.in_quotes st = true ->
  escape_char cfg <> quote_char cfg ->
  t = delimiter cfg \/ t = LF ->
  Parser.parse_loop cfg st (quote_char cfg :: t :: rest)
  = Parser.parse_loop cfg (Parser.set_in_quotes false st) (t :: rest).
Proof.
  intros Hin H1 Ht. one_step.
  assert (E1 : (quote_char cfg =? escape_char cfg) = false)
    by (apply Z.eqb_neq; congruence).
  eqb_false (escape_char cfg) (quote_char cfg).
  rewrite E1, Z.eqb_refl. cbn [negb andb].
  assert (E2 : Parser.after_quote_ok cfg t = true).
  { unfold Parser.after_quote_ok.
    destruct Ht as [-> | ->]; rewrite Z.eqb_refl, ?orb_true_r; reflexivity. }
  rewrite E2. destruct (strict_mode cfg); reflexivity.
Qed.

End Iterations.

(** ** Characters and fields of the round trip *)

Section RoundTripChars.
Context {plat : Platform}.

Lemma to_uchar_byte (c : Z) : 0 <= c < 256 -> to_uchar c = c.
Proof. intros H. unfold to_uchar. apply Z.mod_small. exact H. Qed.

Lemma to_char_ascii (c : Z) : ascii_char c -> to_char c = c.
Proof.
  unfold ascii_char, to_char. intros H. destruct char_is_signed.
  - rewrite Z.mod_small; lia.
  - apply Z.mod_small. lia.
Qed.

Lemma nonneg_char_byte (c : Z) : nonneg_char c -> 0 <= c < 256.
Proof.
  unfold nonneg_char, to_char. intros [H0 H].
  destruct char_is_signed.
  - pose proof (Z.mod_pos_bound (c + 128) 256 ltac:(lia)). lia.
  - pose proof (Z.mod_pos_bound c 256 ltac:(lia)). lia.
Qed.

Lemma printable_ascii (c : Z) : printable c -> ascii_char c.
Proof. unfold printable, ascii_char. lia. Qed.

Lemma map_to_char_printable (f : cstring) :
  Forall printable f -> map to_char f = f.
Proof.
  induction 1 as [|c f Hc _ IH]; simpl; [reflexivity|].
  rewrite IH, to_char_ascii; [reflexivity|].
  apply printable_ascii, Hc.
Qed.

Lemma string_duplicate_printable (f : cstring) :
  Forall printable f -> Parser.string_duplicate f = f.
Proof.
  induction 1 as [|c f Hc _ IH]; simpl; [reflexivity|].
  rewrite IH. unfold printable in Hc.
  destruct (Z.eqb_spec c 0); [lia|reflexivity].
Qed.

Lemma isspace_printable (c : Z) :
  printable c -> isspace (to_uchar c) = (c =? 32).
Proof.
  unfold printable. intros H. rewrite to_uchar_byte by lia.
  unfold isspace.
  destruct (Z.eqb_spec c 32), (Z.leb_spec 9 c), (Z.leb_spec c 13);
    simpl; try reflexivity; lia.
Qed.

Lemma last_non_space_end (s : cstring) :
  forall end_ last,
    s <> [] -> isspace (to_uchar (List.last s 0)) = false ->
    Parser.last_non_space s end_ last = (end_ + List.length s - 1)%nat.
Proof.
  induction s as [|c s IH]; intros end_ last Hne Hlast; [congruence|].
  cbn [Parser.last_non_space].
  destruct s as [|c' s'].
  - simpl in *. rewrite Hlast. lia.
  - rewrite IH; [simpl; lia|discriminate|exact Hlast].
Qed.

(** A printable field without blanks at its ends is left alone by the
    trimming. *)
Lemma trim_no_blank_ends (f : cstring) :
  Forall printable f -> no_blank_ends f ->
  Parser.trim_whitespace_inplace f = f.
Proof.
  intros Hp [Hhd Hlast]. destruct f as [|c f']; [reflexivity|].
  unfold Parser.trim_whitespace_inplace.
  assert (Hc : isspace (to_uchar c) = false).
  { rewrite isspace_printable by (inversion Hp; assumption).
    apply Z.eqb_neq. exact Hhd. }
  assert (Hskip : Parser.skip_spaces (c :: f') = c :: f').
  { simpl. rewrite Hc. reflexivity. }
  rewrite Hskip. cbv zeta iota.
  rewrite last_non_space_end.
  - replace (S (0 + List.length (c :: f') - 1)) with (List.length (c :: f'))
      by (simpl; lia).
    apply firstn_all.
  - discriminate.
  - rewrite isspace_printable.
    + apply Z.eqb_neq. exact Hlast.
    + assert (Hin : In (List.last (c :: f') 0) (c :: f')).
      { destruct (exists_last (l := c :: f') ltac:(discriminate))
          as (l' & a & E).
        rewrite E, last_last. apply in_or_app. right. left. reflexivity. }
      rewrite Forall_forall in Hp. apply Hp, Hin.
Qed.

End RoundTripChars.

(** ** Reading back what the writer wrote: one field *)

Section RoundTripField.
Context {plat : Platform}.
Variable cfg : csvkit_config_t.
Hypothesis Hdialect : dialect_ok cfg.

Lemma dialect_distinct :
  delimiter cfg <> quote_char cfg
  /\ delimiter cfg <> LF /\ delimiter cfg <> CR
  /\ quote_char cfg <> LF /\ quote_char cfg <> CR
  /\ escape_char cfg <> LF /\ escape_char cfg <> CR.
Proof.
  destruct Hdialect as (Hv & _).
  assert (Hn : ~ invalid_config cfg).
  { intros Hbad. apply parser_validate_config_spec in Hbad. congruence. }
  unfold invalid_config in Hn. tauto.
Qed.

Lemma add_chars_state (f : list Z) :
  forall st,
    add_chars f st
    = {| Parser.buffer := Parser.buffer st ++ map to_char f;
         Parser.row_fields := Parser.row_fields st;
         Parser.row_field_count := Parser.row_field_count st;
         Parser.in_quotes := Parser.in_quotes st;
         Parser.field_started := Parser.field_started st || nonempty f;
         Parser.field_was_quoted := Parser.field_was_quoted st |}.
Proof.
  unfold add_chars.
  induction f as [|x f IH]; intros st.
  - simpl. rewrite app_nil_r, orb_false_r. destruct st; reflexivity.
  - cbn [fold_left]. rewrite IH. unfold Parser.add_char. simpl.
    rewrite <- app_assoc, orb_true_r. reflexivity.
Qed.

(** The characters of a field that is written without quotes. *)
Lemma loop_unquoted (f : cstring) :
  forall st tail,
    Parser.in_quotes st = false ->
    Forall printable f -> quoted cfg f = false ->
    Parser.parse_loop cfg st (f ++ tail)
    = Parser.parse_loop cfg (add_chars f st) tail.
Proof.
  unfold quoted.
  induction f as [|x f IH]; intros st tail Hin Hp Hq; [reflexivity|].
  inversion Hp as [|? ? Hx Hp']; subst.
  cbn [Writer.needs_quoting] in Hq.
  destruct ((x =? delimiter cfg) || (x =? quote_char cfg) || (x =? LF)
            || (x =? CR)) eqn:Hx'; [discriminate|].
  rewrite !orb_false_iff, !Z.eqb_neq in Hx'.
  destruct Hx' as (((H1 & H2) & H3) & H4).
  cbn [app]. rewrite step_plain by assumption.
  unfold add_chars. cbn [fold_left]. apply IH; auto.
Qed.

(** The characters of a field between the quotes. *)
Lemma loop_quoted_body (f : cstring) :
  escapes_kept cfg f ->
  forall st tail,
    Parser.in_quotes st = true ->
    Parser.parse_loop cfg st (spec_escape cfg f ++ tail)
    = Parser.parse_loop cfg (add_chars f st) tail.
Proof.
  destruct Hdialect as (_ & Hqe & _).
  assert (Hcons : forall x l,
             spec_escape cfg (x :: l)
             = (if x =? quote_char cfg
                then [escape_char cfg; quote_char cfg] else [x])
               ++ spec_escape cfg l) by reflexivity.
  induction 1 as [|x f Hx _ IH|y f Hye Hyq _ IH]; intros st tail Hin.
  - reflexivity.
  - rewrite Hcons.
    change (add_chars (x :: f) st) with (add_chars f (Parser.add_char x st)).
    destruct (Z.eqb_spec x (quote_char cfg)) as [->|Hq].
    + cbn [app]. rewrite step_escaped_quote by assumption.
      apply IH. exact Hin.
    + cbn [app]. rewrite step_quoted_plain by assumption.
      apply IH. exact Hin.
  - rewrite !Hcons.
    change (add_chars (escape_char cfg :: y :: f) st)
      with (add_chars f (Parser.add_char y
                           (Parser.add_char (escape_char cfg) st))).
    assert (E1 : (escape_char cfg =? quote_char cfg) = false)
      by (apply Z.eqb_neq; congruence).
    assert (E2 : (y =? quote_char cfg) = false)
      by (apply Z.eqb_neq; assumption).
    rewrite E1, E2. cbn [app].
    rewrite step_escaped_other by (auto; congruence).
    apply IH. exact Hin.
Qed.

(** A field as the writer wrote it, followed by the delimiter or a
    newline, leaves the loop with the field in the buffer. *)
Lemma loop_field (f : cstring) (done : list cstring) (t : Z)
  (tail : list Z) :
  field_ok cfg f ->
  t = delimiter cfg \/ t = LF ->
  Parser.parse_loop cfg (field_start done)
    (spec_field cfg (Some f) ++ t :: tail)
  = Parser.parse_loop cfg
      (field_read f (quoted cfg f) (quoted cfg f || nonempty f) done)
      (t :: tail).
Proof.
  intros (Hp & He & _) Ht.
  destruct dialect_distinct as (Hdq & HdL & HdC & HqL & HqC & HeL & HeC).
  destruct Hdialect as (_ & Hqe & Hed & _).
  unfold spec_field. rewrite <- needs_quoting_existsb. fold (quoted cfg f).
  destruct (quoted cfg f) eqn:Hq.
  - rewrite <- !app_assoc. cbn [app].
    rewrite step_open_quote by (auto; reflexivity).
    rewrite loop_quoted_body by (auto; reflexivity).
    rewrite step_close_quote;
      [|rewrite add_chars_state; reflexivity|congruence|exact Ht].
    f_equal. rewrite add_chars_state. unfold field_read, field_start.
    simpl. rewrite map_to_char_printable by assumption. reflexivity.
  - rewrite loop_unquoted by (auto; reflexivity).
    f_equal. rewrite add_chars_state. unfold field_read, field_start.
    simpl. rewrite map_to_char_printable by assumption. reflexivity.
Qed.

(** The value the parser takes from the buffer is the field. *)
Lemma field_value_read (f : cstring) (done : list cstring) :
  field_ok cfg f ->
  Parser.field_value cfg
    (field_read f (quoted cfg f) (quoted cfg f || nonempty f) done) = f.
Proof.
  intros (Hp & _ & Htrim). unfold Parser.field_value, field_read. simpl.
  rewrite string_duplicate_printable by assumption.
  destruct (trim_whitespace cfg) eqn:Ht, (quoted cfg f) eqn:Hq;
    try reflexivity.
  simpl. apply trim_no_blank_ends; auto.
Qed.

End RoundTripField.

(** ** Reading back what the writer wrote: one row *)

Section RoundTripRow.
Context {plat : Platform}.
Variable cfg : csvkit_config_t.
Hypothesis Hdialect : dialect_ok cfg.

Lemma parse_row_internal_finish (row : csvkit_row_t) (src : list Z) :
  Parser.parse_row_internal cfg row src
  = finish cfg row (Parser.parse_loop cfg (Parser.initial_state row) src).
Proof. reflexivity. Qed.

Lemma finish_row (row : csvkit_row_t) (fs : list cstring) :
  forall f done more,
    Forall (field_ok cfg) (f :: fs) ->
    finish cfg row
      (Parser.parse_loop cfg (field_start done) (row_text cfg f fs ++ more))
    = (CSVKIT_OK,
       {| fields := done ++ f :: fs;
          field_count := List.length (done ++ f :: fs);
          row_number := row_number row |},
       more).
Proof.
  destruct (dialect_distinct cfg Hdialect)
    as (Hdq & HdL & HdC & HqL & HqC & HeL & HeC).
  induction fs as [|f' fs IH]; intros f done more Hok;
    inversion Hok as [|? ? Hf Hfs]; subst.
  - cbn [row_text]. rewrite <- app_assoc. cbn [app].
    rewrite loop_field by (auto; right; reflexivity).
    rewrite step_newline by (auto; reflexivity).
    unfold finish. change (LF =? EOF) with false. cbn [andb].
    rewrite field_value_read by assumption.
    unfold field_read. simpl. rewrite length_app. simpl.
    repeat f_equal. lia.
  - cbn [row_text]. rewrite <- app_assoc. cbn [app].
    rewrite loop_field by (auto; left; reflexivity).
    rewrite step_delimiter by (auto; reflexivity).
    replace (Parser.end_field cfg
               (field_read f (quoted cfg f) (quoted cfg f || nonempty f)
                           done))
      with (field_start (done ++ [f])).
    + rewrite IH by assumption. rewrite <- app_assoc. reflexivity.
    + unfold Parser.end_field. rewrite field_value_read by assumption.
      unfold field_start, field_read. simpl. rewrite length_app. simpl.
      f_equal. lia.
Qed.

(** parse_row_internal gives back the fields of a row the writer wrote and
    stops behind its newline. *)
Lemma parse_written_row (f : cstring) (fs : list cstring) (more : list Z) :
  Forall (field_ok cfg) (f :: fs) ->
  Parser.parse_row_internal cfg fresh_row (row_text cfg f fs ++ more)
  = (CSVKIT_OK, row_of (f :: fs) 0, more).
Proof.
  intros Hok. rewrite parse_row_internal_finish.
  change (Parser.initial_state fresh_row) with (field_start []).
  rewrite finish_row by assumption. reflexivity.
Qed.

Lemma row_is_empty_false (row : list cstring) (n : nat) :
  (exists f, In f row /\ f <> []) ->
  Parser.csvkit_row_is_empty (Some (row_of row n)) = false.
Proof.
  intros (f & Hin & Hf). unfold Parser.csvkit_row_is_empty, row_of.
  cbn [field_count fields]. rewrite firstn_all.
  destruct row as [|f0 row']; [destruct Hin|]. cbn [List.length Nat.eqb].
  apply not_true_is_false. intros Hall.
  rewrite forallb_forall in Hall. specialize (Hall f Hin).
  destruct f; [congruence|discriminate].
Qed.

(** One call of csvkit_read_row on the text of a row, [more] being what
    follows the row in the source. *)
Lemma read_written_row (f : cstring) (fs : list cstring) (more : list Z)
  (n k : nat) :
  row_ok cfg (f :: fs) ->
  (strict_mode cfg = true -> k = 0%nat \/ k = List.length (f :: fs)) ->
  Parser.csvkit_read_row (handle cfg (row_text cfg f fs ++ more) n k)
  = Some (CSVKIT_OK, Some (row_of (f :: fs) (S n)),
          handle cfg more (S n) (expected_after cfg k [f :: fs])).
Proof.
  intros (_ & Hok & Hskip) Hstrict.
  apply read_row_from_last_pass
    with (n := 0%nat) (last := handle cfg (row_text cfg f fs ++ more) n k);
    [discriminate|constructor|].
  unfold pass. cbn [handle Parser.config Parser.unread_input Parser.source].
  rewrite parse_written_row by assumption. cbv zeta.
  change (Parser.parser_row_number
            (handle cfg (row_text cfg f fs ++ more) n k)) with n.
  change (Parser.expected_field_count
            (handle cfg (row_text cfg f fs ++ more) n k)) with k.
  change (Parser.stamp (row_of (f :: fs) 0) (S n))
    with (row_of (f :: fs) (S n)).
  change (Parser.advance (handle cfg (row_text cfg f fs ++ more) n k) more)
    with (handle cfg more).
  assert (Hempty : skip_empty_rows cfg
                   && Parser.csvkit_row_is_empty
                        (Some (row_of (f :: fs) (S n))) = false).
  { destruct (skip_empty_rows cfg); [|reflexivity].
    cbn [andb]. apply row_is_empty_false, Hskip. reflexivity. }
  rewrite Hempty. unfold expected_after.
  destruct (strict_mode cfg); [|reflexivity].
  cbn [andb]. destruct (Nat.eqb_spec k 0) as [->|Hk]; [reflexivity|].
  destruct (Hstrict eq_refl) as [->| ->]; [congruence|].
  change (field_count (row_of (f :: fs) (S n))) with (List.length (f :: fs)).
  rewrite Nat.eqb_refl. reflexivity.
Qed.

End RoundTripRow.

(** ** Reading back what the writer wrote: all rows *)

Section RoundTripRows.
Context {plat : Platform}.
Variable cfg : csvkit_config_t.
Hypothesis Hdialect : dialect_ok cfg.

Lemma read_written_rows (rows : list (list cstring)) :
  forall fuel n k,
    Forall (row_ok cfg) rows ->
    (strict_mode cfg = true ->
     exists m, (k = 0%nat \/ k = m)
               /\ Forall (fun r => List.length r = m) rows) ->
    (List.length rows < fuel)%nat ->
    exists parser',
      Parser.read_rows fuel (handle cfg (rows_text cfg rows) n k)
      = Some (numbered n rows, CSVKIT_ERROR_EOF, parser').
Proof.
  induction rows as [|row rows IH]; intros fuel n k Hok Hstrict Hfuel;
    (destruct fuel as [|fuel]; [simpl in Hfuel; lia|]).
  - cbn [Parser.read_rows rows_text flat_map].
    rewrite read_row_exhausted by reflexivity. eauto.
  - inversion Hok as [|? ? Hrow Hrows]; subst.
    destruct row as [|f fs]; [destruct Hrow as (H & _); congruence|].
    cbn [Parser.read_rows rows_text flat_map].
    fold (rows_text cfg rows).
    rewrite (read_written_row cfg Hdialect f fs (rows_text cfg rows) n k Hrow).
    + destruct (IH fuel (S n) (expected_after cfg k [f :: fs]) Hrows)
        as (parser' & Hrest).
      * intros Hs. destruct (Hstrict Hs) as (m & Hk & Hm).
        inversion Hm as [|? ? Hlen Hm']; subst.
        exists (List.length (f :: fs)). split; [|assumption].
        right. unfold expected_after. rewrite Hs. cbn [andb].
        destruct (Nat.eqb_spec k 0); [reflexivity|].
        destruct Hk; congruence.
      * simpl in Hfuel. lia.
      * rewrite Hrest. eauto.
    + intros Hs. destruct (Hstrict Hs) as (m & Hk & Hm).
      inversion Hm; subst. exact Hk.
Qed.

Lemma fields_numbered (rows : list (list cstring)) :
  forall n, map fields (numbered n rows) = rows.
Proof.
  induction rows as [|row rows IH]; intros n; simpl;
    [reflexivity|now rewrite IH].
Qed.

Lemma rows_text_length (rows : list (list cstring)) :
  (List.length rows <= List.length (rows_text cfg rows))%nat.
Proof.
  induction rows as [|row rows IH]; [simpl; lia|].
  cbn [rows_text flat_map]. fold (rows_text cfg rows).
  rewrite length_app. simpl.
  assert (1 <= List.length (match row with
                            | [] => [LF]
                            | f :: fs => row_text cfg f fs
                            end))%nat; [|lia].
  destruct row as [|f fs]; [simpl; lia|].
  destruct fs; cbn [row_text]; rewrite length_app; simpl; lia.
Qed.

(** *** The writer's side *)

Lemma write_rows_output (rows : list (list (option cstring))) :
  forall writer out,
    Writer.file writer = Some out ->
    Writer.write_rows writer rows
    = (CSVKIT_OK,
       {| Writer.config := Writer.config writer;
          Writer.file :=
            Some (out ++ flat_map (spec_row (Writer.config writer)) rows);
          Writer.error_msg := Writer.error_msg writer |}).
Proof.
  induction rows as [|row rows IH]; intros writer out Hfile.
  - simpl. rewrite app_nil_r. destruct writer; simpl in *. now subst.
  - cbn [Writer.write_rows]. unfold Writer.csvkit_writer_write_row.
    rewrite Hfile, write_fields_spec. unfold Writer.fputc.
    rewrite (IH _ ((out ++ map to_uchar
                            (spec_fields (Writer.config writer)
                                         (Nat.eqb 0 0) row))
                   ++ [to_uchar LF])) by reflexivity.
    cbn [Writer.config Writer.error_msg flat_map]. unfold spec_row.
    rewrite map_app, <- !app_assoc. reflexivity.
Qed.

Lemma map_to_uchar_bytes (l : list Z) :
  Forall (fun c => 0 <= c < 256) l -> map to_uchar l = l.
Proof.
  induction 1 as [|c l Hc _ IH]; simpl; [reflexivity|].
  now rewrite IH, to_uchar_byte.
Qed.

Lemma spec_field_bytes (f : cstring) :
  Forall printable f ->
  Forall (fun c => 0 <= c < 256) (spec_field cfg (Some f)).
Proof.
  destruct Hdialect as (_ & _ & _ & Hd & Hq & He).
  apply nonneg_char_byte in Hd, Hq, He. intros Hp.
  assert (Hf : Forall (fun c => 0 <= c < 256) f).
  { eapply Forall_impl; [|exact Hp]. unfold printable. simpl. lia. }
  unfold spec_field. destruct (existsb (is_specialb cfg) f); [|exact Hf].
  apply Forall_app. split; [repeat constructor; lia|].
  apply Forall_app. split; [|repeat constructor; lia].
  unfold spec_escape. apply Forall_flat_map.
  eapply Forall_impl; [|exact Hf]. simpl. intros c Hc.
  destruct (c =? quote_char cfg); repeat constructor; lia.
Qed.

Lemma row_text_bytes (fs : list cstring) :
  forall f,
    Forall (Forall printable) (f :: fs) ->
    Forall (fun c => 0 <= c < 256) (row_text cfg f fs).
Proof.
  destruct Hdialect as (_ & _ & _ & Hd & _). apply nonneg_char_byte in Hd.
  induction fs as [|f' fs IH]; intros f Hp;
    inversion Hp as [|? ? Hf Hfs]; subst; cbn [row_text];
    apply Forall_app; split; try (apply spec_field_bytes; assumption).
  - repeat constructor; unfold LF; lia.
  - constructor; [lia|]. apply IH. assumption.
Qed.

Lemma spec_fields_row_text (fs : list cstring) :
  forall f first,
    spec_fields cfg first (map Some (f :: fs)) ++ [LF]
    = (if first then [] else [delimiter cfg]) ++ row_text cfg f fs.
Proof.
  assert (Hcons : forall first fp l,
             spec_fields cfg first (fp :: l)
             = (if first then [] else [delimiter cfg])
               ++ spec_field cfg fp ++ spec_fields cfg false l)
    by reflexivity.
  induction fs as [|f' fs IH]; intros f first.
  - simpl. rewrite app_nil_r, <- app_assoc. reflexivity.
  - change (map Some (f :: f' :: fs))
      with (Some f :: map Some (f' :: fs)).
    rewrite Hcons, <- !app_assoc, (IH f' false). reflexivity.
Qed.

Lemma spec_row_text (row : list cstring) :
  Forall (Forall printable) row ->
  spec_row cfg (map Some row)
  = match row with
    | [] => [LF]
    | f :: fs => row_text cfg f fs
    end.
Proof.
  intros Hp. unfold spec_row. destruct row as [|f fs]; [reflexivity|].
  rewrite spec_fields_row_text. cbn [app].
  apply map_to_uchar_bytes, row_text_bytes, Hp.
Qed.

Lemma rows_text_bytes (rows : list (list cstring)) :
  Forall (Forall (Forall printable)) rows ->
  Forall (fun c => 0 <= c < 256) (rows_text cfg rows).
Proof.
  induction 1 as [|row rows Hrow _ IH]; [constructor|].
  cbn [rows_text flat_map]. apply Forall_app. split; [|exact IH].
  destruct row as [|f fs]; [repeat constructor; unfold LF; lia|].
  apply row_text_bytes, Hrow.
Qed.

(** The writer puts the text of the rows into the sink. *)
Lemma write_output (rows : list (list cstring)) :
  Forall (Forall (Forall printable)) rows ->
  write cfg rows = Some (rows_text cfg rows).
Proof.
  intros Hp. unfold write, Writer.csvkit_writer_new_with_config.
  rewrite <- validate_config_agree.
  destruct Hdialect as (Hv & _). rewrite Hv. cbn [negb].
  rewrite (write_rows_output _ _ []) by reflexivity.
  cbn [Writer.file Writer.config Writer.csvkit_writer_open_stream snd app].
  f_equal. unfold rows_text. clear Hv.
  induction Hp as [|row rows Hrow _ IH]; [reflexivity|].
  cbn [map flat_map]. rewrite IH, spec_row_text by assumption.
  reflexivity.
Qed.

(** The parser reads the rows back from that text. *)
Lemma parse_rows_text (rows : list (list cstring)) :
  rows_ok cfg rows ->
  parse cfg (rows_text cfg rows) = Some (rows, CSVKIT_ERROR_EOF).
Proof.
  intros (Hok & Hstrict).
  assert (Hp : Forall (Forall (Forall printable)) rows).
  { eapply Forall_impl; [|exact Hok].
    intros row (_ & Hf & _). eapply Forall_impl; [|exact Hf].
    intros f (H & _). exact H. }
  unfold parse, parser_on, Parser.csvkit_parser_new_with_config.
  destruct Hdialect as (Hv & _). rewrite Hv. cbn [negb].
  unfold Parser.csvkit_open_string, Parser.csvkit_close.
  cbn [snd Parser.config Parser.error_msg].
  rewrite map_to_uchar_bytes by (apply rows_text_bytes; assumption).
  change {| Parser.config := cfg;
            Parser.source := Some (rows_text cfg rows);
            Parser.parser_row_number := 0; Parser.error_msg := None;
            Parser.expected_field_count := 0 |}
    with (handle cfg (rows_text cfg rows) 0 0).
  unfold Parser.read_all.
  destruct (read_written_rows rows
              (S (List.length
                    (Parser.unread_input
                       (handle cfg (rows_text cfg rows) 0 0))))
              0 0 Hok) as (parser' & Hread).
  - intros Hs. specialize (Hstrict Hs).
    destruct rows as [|row rows'].
    + exists 0%nat. split; [left; reflexivity|constructor].
    + exists (List.length row). split; [left; reflexivity|].
      apply Forall_forall. intros r Hr. apply Hstrict; [exact Hr|].
      left. reflexivity.
  - cbn [Parser.unread_input handle Parser.source].
    pose proof (rows_text_length rows). lia.
  - rewrite Hread, fields_numbered. reflexivity.
Qed.

End RoundTripRows.

(** ** The round trip *)

(** C1, as the code has it: for a dialect the constructors accept, with
    delimiter, quote_char and escape_char pairwise distinct and not
    negative as chars (so: ASCII characters, or any characters where char
    is unsigned), and for rows of printable strings such that every row has
    at least one field, in a field that the writer quotes every escape
    character is followed by a character other than the escape and the
    quote character, no field written unquoted begins or ends with a blank
    when trim_whitespace is on, no row consists of empty fields only when
    skip_empty_rows is on, and all rows have the same number of fields when
    strict_mode is on, csvkit_writer_write_row on each row followed by
    csvkit_read_row until the end of input gives back exactly the rows. *)
Theorem write_then_parse {plat : Platform} (cfg : csvkit_config_t)
  (rows : list (list cstring)) :
  dialect_ok cfg -> rows_ok cfg rows ->
  exists text,
    write cfg rows = Some text
    /\ parse cfg text = Some (rows, CSVKIT_ERROR_EOF).
Proof.
  intros Hd Hr. exists (rows_text cfg rows). split.
  - apply write_output; [exact Hd|].
    destruct Hr as (Hok & _).
    eapply Forall_impl; [|exact Hok].
    intros row (_ & Hf & _). eapply Forall_impl; [|exact Hf].
    intros f (H & _). exact H.
  - apply parse_rows_text; assumption.
Qed.

Ltac printable_field :=
  match goal with
  | |- Forall printable ?f =>
    let l := eval vm_compute in f in
    change (Forall printable l);
    repeat (apply Forall_cons; [unfold printable; lia|]);
    apply Forall_nil
  end.

Ltac kept_field :=
  match goal with
  | |- escapes_kept ?cfg ?f =>
    let l := eval vm_compute in f in
    change (escapes_kept cfg l);
    repeat (first [ apply escapes_kept_nil
                  | apply escapes_kept_escape; [simpl; lia|simpl; lia|]
                  | apply escapes_kept_plain; [simpl; lia|] ])
  end.

Lemma write_then_parse_witness :
  exists text,
    write (backslash_with true true true)
          [[chars "a,b\c"; chars "say " ++ [DQ] ++ chars "hi" ++ [DQ]];
           [chars "x\y"; chars ""]]
    = Some text
    /\ @parse signed_char_platform (backslash_with true true true) text
       = Some ([[chars "a,b\c"; chars "say " ++ [DQ] ++ chars "hi" ++ [DQ]];
                [chars "x\y"; chars ""]],
               CSVKIT_ERROR_EOF).
Proof.
  apply (@write_then_parse signed_char_platform
           (backslash_with true true true)).
  - unfold dialect_ok, nonneg_char. simpl.
    repeat split; try lia; reflexivity.
  - assert (Hquoted : forall f,
               Forall printable f ->
               escapes_kept (backslash_with true true true) f ->
               quoted (backslash_with true true true) f = true ->
               field_ok (backslash_with true true true) f).
    { intros f Hp He Hq. split; [exact Hp|]. split; [intros _; exact He|].
      intros _ Hq'. congruence. }
    assert (Hplain : forall f,
               Forall printable f -> no_blank_ends f ->
               quoted (backslash_with true true true) f = false ->
               field_ok (backslash_with true true true) f).
    { intros f Hp Hb Hq. split; [exact Hp|]. split; [congruence|].
      intros _ _. exact Hb. }
    split.
    + apply Forall_cons; [|apply Forall_cons; [|apply Forall_nil]].
      * split; [discriminate|]. split.
        -- apply Forall_cons; [|apply Forall_cons; [|apply Forall_nil]].
           ++ apply Hquoted; [| |reflexivity].
              ** printable_field.
              ** kept_field.
           ++ apply Hquoted; [| |reflexivity].
              ** printable_field.
              ** kept_field.
        -- intros _. exists (chars "a,b\c").
           split; [left; reflexivity|discriminate].
      * split; [discriminate|]. split.
        -- apply Forall_cons; [|apply Forall_cons; [|apply Forall_nil]].
           ++ apply Hplain; [| |reflexivity].
              ** printable_field.
              ** split; simpl; lia.
           ++ apply Hplain; [| |reflexivity].
              ** apply Forall_nil.
              ** split; simpl; lia.
        -- intros _. exists (chars "x\y").
           split; [left; reflexivity|discriminate].
    + intros _ r1 r2 [<-|[<-|[]]] [<-|[<-|[]]]; reflexivity.
Defined.

Lemma write_then_parse_counterexample :
  (* trimming changes an unquoted field *)
  (distinct_dialect (backslash_with true false false)
   /\ printable_rows [[chars " x "]]
   /\ ~ @round_trip_holds signed_char_platform
          (backslash_with true false false) [[chars " x "]]
   /\ ~ @round_trip_holds unsigned_char_platform
          (backslash_with true false false) [[chars " x "]])
  (* a row of empty fields is skipped *)
  /\ (distinct_dialect (backslash_with false true false)
      /\ printable_rows [[chars ""; chars ""]]
      /\ ~ @round_trip_holds signed_char_platform
             (backslash_with false true false) [[chars ""; chars ""]]
      /\ ~ @round_trip_holds unsigned_char_platform
             (backslash_with false true false) [[chars ""; chars ""]])
  (* strict mode refuses a row of another length *)
  /\ (distinct_dialect (backslash_with false false true)
      /\ printable_rows [[chars "a"; chars "b"]; [chars "c"]]
      /\ ~ @round_trip_holds signed_char_platform
             (backslash_with false false true)
             [[chars "a"; chars "b"]; [chars "c"]]
      /\ ~ @round_trip_holds unsigned_char_platform
             (backslash_with false false true)
             [[chars "a"; chars "b"]; [chars "c"]])
  (* a row without fields comes back as a row with one empty field *)
  /\ (distinct_dialect (backslash_with false false false)
      /\ printable_rows [[]]
      /\ ~ @round_trip_holds signed_char_platform
             (backslash_with false false false) [[]]
      /\ ~ @round_trip_holds unsigned_char_platform
             (backslash_with false false false) [[]]).
Proof.
  assert (Hd : forall trim skip strict,
             distinct_dialect (backslash_with trim skip strict)).
  { intros. unfold distinct_dialect. simpl. repeat split; try lia. }
  repeat split; try apply Hd;
    try (repeat constructor; unfold printable; simpl; lia);
    intros (text & Hw & Hp); vm_compute in Hw; injection Hw as <-;
    vm_compute in Hp; discriminate.
Qed.

(** The writer does not escape the escape character, the parser takes two
    of them for one: a quoted field with two backslashes comes back with
    one. *)
Example quoted_escape_not_restored :
  write backslash_config [[chars "\\,"]]
  = Some ([DQ] ++ chars "\\," ++ [DQ; LF])
  /\ @parse signed_char_platform backslash_config
       ([DQ] ++ chars "\\," ++ [DQ; LF])
     = Some ([[chars "\,"]], CSVKIT_ERROR_EOF)
  /\ @parse unsigned_char_platform backslash_config
       ([DQ] ++ chars "\\," ++ [DQ; LF])
     = Some ([[chars "\,"]], CSVKIT_ERROR_EOF).
Proof. repeat split; vm_compute; reflexivity. Qed.

(** Where char is signed, a quote character outside ASCII is written as a
    byte that the parser, comparing the unsigned byte with the signed
    char, does not recognise. *)
Example non_ascii_quote_not_recognised :
  write {| delimiter := 44; quote_char := -128; escape_char := 92;
           trim_whitespace := false; skip_empty_rows := false;
           strict_mode := false |} [[chars "a,b"]]
  = Some ([128] ++ chars "a,b" ++ [128; LF])
  /\ @parse signed_char_platform
       {| delimiter := 44; quote_char := -128; escape_char := 92;
          trim_whitespace := false; skip_empty_rows := false;
          strict_mode := false |}
       ([128] ++ chars "a,b" ++ [128; LF])
     = Some ([[ [-128; 97]; [98; -128] ]], CSVKIT_ERROR_EOF).
Proof. repeat split; vm_compute; reflexivity. Qed.

(** ** The end of input behind the escape character *)

(** Whatever the dialect, a loop that reads the escape character inside
    quotes and then meets the end of input is left with in_quotes set, and
    parse_row_internal answers with a parse error. *)
Lemma escape_then_eof {plat : Platform} (cfg : csvkit_config_t)
  (row : csvkit_row_t) (st : Parser.loop_state) :
  Parser.in_quotes st = true ->
  0 <= escape_char cfg ->
  Parser.parse_loop cfg st [escape_char cfg]
  = Parser.LoopExit (escape_char cfg) st []
  /\ fst (fst (finish cfg row (Parser.parse_loop cfg st [escape_char cfg])))
     = CSVKIT_ERROR_PARSE.
Proof.
  intros Hin He.
  assert (Hloop : Parser.parse_loop cfg st [escape_char cfg]
                  = Parser.LoopExit (escape_char cfg) st []).
  { rewrite parse_loop_step. unfold loop_step. rewrite Hin.
    cbn [negb andb]. rewrite Z.eqb_refl. reflexivity. }
  split; [exact Hloop|]. rewrite Hloop. unfold finish.
  assert (E : (escape_char cfg =? EOF) = false)
    by (apply Z.eqb_neq; unfold EOF; lia).
  rewrite E, Hin. reflexivity.
Qed.

(** * Further properties of the code *)

(** ** trim_whitespace_inplace *)

Lemma skip_spaces_split (s : cstring) :
  exists pre,
    s = pre ++ Parser.skip_spaces s /\ Forall space pre
    /\ match Parser.skip_spaces s with
       | [] => True
       | c :: _ => ~ space c
       end.
Proof.
  induction s as [|c s (pre & Hs & Hpre & Hhd)].
  - exists []. repeat split; constructor.
  - cbn [Parser.skip_spaces].
    destruct (isspace (to_uchar c)) eqn:Hc.
    + exists (c :: pre). cbn [app]. rewrite <- Hs.
      repeat split; [constructor; assumption|exact Hhd].
    + exists []. repeat split; [constructor|].
      unfold space. congruence.
Qed.

(** The scan stops at the last character that is not a space: what follows
    the offset it returns is spaces only. *)
Lemma last_non_space_spec (s : cstring) :
  forall end_ last,
    let r := Parser.last_non_space s end_ last in
    (r = last /\ Forall space s)
    \/ ((end_ <= r < end_ + List.length s)%nat
        /\ ~ space (nth (r - end_) s 0)
        /\ Forall space (skipn (S (r - end_)) s)).
Proof.
  induction s as [|c s IH]; intros end_ last; cbv zeta.
  - left. split; [reflexivity|constructor].
  - cbn [Parser.last_non_space].
    destruct (isspace (to_uchar c)) eqn:Hc.
    + destruct (IH (S end_) last) as [[Hr Hall]|(Hr & Hn & Hall)].
      * left. split; [exact Hr|]. constructor; assumption.
      * right. cbn [List.length]. split; [lia|].
        replace (Parser.last_non_space s (S end_) last - end_)%nat
          with (S (Parser.last_non_space s (S end_) last - S end_)) by lia.
        split; assumption.
    + destruct (IH (S end_) end_) as [[Hr Hall]|(Hr & Hn & Hall)].
      * right. rewrite Hr. cbn [List.length]. split; [lia|].
        rewrite Nat.sub_diag. cbn [nth skipn].
        split; [unfold space; congruence|exact Hall].
      * right. cbn [List.length]. split; [lia|].
        replace (Parser.last_non_space s (S end_) end_ - end_)%nat
          with (S (Parser.last_non_space s (S end_) end_ - S end_)) by lia.
        split; assumption.
Qed.

Lemma trim_trimmed_id (s : cstring) :
  trimmed s -> Parser.trim_whitespace_inplace s = s.
Proof.
  destruct s as [|c s']; [reflexivity|]. intros [Hhd Hlast].
  unfold Parser.trim_whitespace_inplace.
  assert (Hskip : Parser.skip_spaces (c :: s') = c :: s').
  { cbn [Parser.skip_spaces]. unfold space in Hhd.
    destruct (isspace (to_uchar c)); congruence. }
  rewrite Hskip. cbv zeta iota.
  rewrite last_non_space_end.
  - replace (S (0 + List.length (c :: s') - 1)) with (List.length (c :: s'))
      by (simpl; lia).
    apply firstn_all.
  - discriminate.
  - unfold space in Hlast.
    destruct (isspace (to_uchar (last (c :: s') 0))); congruence.
Qed.

Lemma last_firstn_nth (s : cstring) (r : nat) :
  (r < List.length s)%nat -> last (firstn (S r) s) 0 = nth r s 0.
Proof.
  revert r. induction s as [|c s IH]; intros r Hr; [simpl in Hr; lia|].
  destruct r as [|r].
  - reflexivity.
  - cbn [List.length] in Hr.
    change (firstn (S (S r)) (c :: s)) with (c :: firstn (S r) s).
    cbn [nth].
    destruct s as [|c' s']; [simpl in Hr; lia|].
    change (firstn (S r) (c' :: s')) with (c' :: firstn r s').
    change (last (c :: c' :: firstn r s') 0)
      with (last (c' :: firstn r s') 0).
    apply (IH r). lia.
Qed.

(** X1: trim_whitespace_inplace cuts a string down to the part between its
    first and its last character that is not a space: it removes a run of
    spaces at the front and one at the end and nothing else, the result
    neither begins nor ends with a space, and trimming it again changes
    nothing. *)
Theorem trim_whitespace_inplace_spec (str : cstring) :
  (exists pre post,
      str = pre ++ Parser.trim_whitespace_inplace str ++ post
      /\ Forall space pre /\ Forall space post)
  /\ trimmed (Parser.trim_whitespace_inplace str)
  /\ Parser.trim_whitespace_inplace (Parser.trim_whitespace_inplace str)
     = Parser.trim_whitespace_inplace str.
Proof.
  assert (Hmain :
            (exists pre post,
                str = pre ++ Parser.trim_whitespace_inplace str ++ post
                /\ Forall space pre /\ Forall space post)
            /\ trimmed (Parser.trim_whitespace_inplace str)).
  { destruct str as [|c0 str0].
    { split; [exists [], []; repeat split; constructor|exact I]. }
    unfold Parser.trim_whitespace_inplace.
    destruct (skip_spaces_split (c0 :: str0)) as (pre & Hs & Hpre & Hhd).
    destruct (Parser.skip_spaces (c0 :: str0)) as [|c start] eqn:Hstart.
    { split; [|exact I]. exists pre, []. rewrite app_nil_r in Hs.
      cbn [app]. rewrite app_nil_r.
      repeat split; try assumption. constructor. }
    cbv zeta iota.
    destruct (last_non_space_spec (c :: start) 0 0)
      as [[_ Hall]|(Hr & Hn & Hall)].
    { inversion Hall; subst. contradiction. }
    set (r := Parser.last_non_space (c :: start) 0 0) in *.
    rewrite Nat.sub_0_r in Hn, Hall.
    split.
    - exists pre, (skipn (S r) (c :: start)).
      rewrite firstn_skipn. repeat split; assumption.
    - change (firstn (S r) (c :: start)) with (c :: firstn r start).
      split; [exact Hhd|].
      change (c :: firstn r start) with (firstn (S r) (c :: start)).
      rewrite last_firstn_nth by lia. exact Hn. }
  destruct Hmain as [Hsplit Htrimmed].
  split; [exact Hsplit|]. split; [exact Htrimmed|].
  apply trim_trimmed_id, Htrimmed.
Qed.

(** ** Lines, field by field *)

Lemma valid_config_distinct (cfg : csvkit_config_t) :
  Parser.validate_config (Some cfg) = true ->
  delimiter cfg <> quote_char cfg
  /\ delimiter cfg <> LF /\ delimiter cfg <> CR
  /\ quote_char cfg <> LF /\ quote_char cfg <> CR
  /\ escape_char cfg <> LF /\ escape_char cfg <> CR.
Proof.
  intros Hv.
  assert (Hn : ~ invalid_config cfg).
  { intros Hbad. apply parser_validate_config_spec in Hbad. congruence. }
  unfold invalid_config in Hn. tauto.
Qed.

Section FieldwiseLine.
Context {plat : Platform}.
Variable cfg : csvkit_config_t.
Hypothesis Hvalid : Parser.validate_config (Some cfg) = true.

(** Ordinary characters outside quotes are appended one by one. *)
Lemma loop_plain (f : list Z) :
  forall st tail,
    Parser.in_quotes st = false -> Forall (plain cfg) f ->
    Parser.parse_loop cfg st (f ++ tail)
    = Parser.parse_loop cfg (add_chars f st) tail.
Proof.
  induction f as [|x f IH]; intros st tail Hin Hp; [reflexivity|].
  inversion Hp as [|? ? (H1 & H2 & H3 & H4) Hp']; subst.
  cbn [app]. rewrite step_plain by assumption.
  change (add_chars (x :: f) st) with (add_chars f (Parser.add_char x st)).
  apply IH; auto.
Qed.

(** Outside quotes every line end leaves the loop like a newline. *)
Lemma loop_line_end st term rest :
  Parser.in_quotes st = false -> line_end term rest ->
  Parser.parse_loop cfg st (term ++ rest) = Parser.LoopExit LF st rest.
Proof.
  destruct (valid_config_distinct cfg Hvalid)
    as (Hdq & HdL & HdC & HqL & HqC & HeL & HeC).
  intros Hin Hterm.
  assert (E1 : (LF =? quote_char cfg) = false)
    by (apply Z.eqb_neq; congruence).
  assert (E2 : (LF =? delimiter cfg) = false)
    by (apply Z.eqb_neq; congruence).
  destruct Hterm as [->|[->|[-> Hrest]]].
  - apply step_newline; assumption.
  - cbn [app]. rewrite parse_loop_step. unfold loop_step. rewrite Hin.
    cbn [negb andb]. change (CR =? CR) with true.
    change (LF =? LF) with true. cbv iota. rewrite E1, E2. reflexivity.
  - cbn [app]. rewrite parse_loop_step. unfold loop_step. rewrite Hin.
    cbn [negb andb]. change (CR =? CR) with true. cbv iota.
    rewrite E1, E2. cbn [andb]. change (LF =? LF) with true. cbv iota.
    destruct rest as [|next rest']; [reflexivity|].
    destruct (Z.eqb_spec next LF) as [->|]; [|reflexivity].
    destruct (Hrest rest' eq_refl).
Qed.

Variable A : Type.
Variable text : A -> list Z.
Variable value : A -> cstring.
Variable good : A -> Prop.

(** What the fields have to do: in front of a delimiter or a line end, the
    text of a field takes the loop from the start of the field to a state
    outside quotes that holds the value of the field. *)
Hypothesis Hfield :
  forall a done t tail,
    good a -> t = delimiter cfg \/ t = LF \/ t = CR ->
    exists st',
      Parser.parse_loop cfg (field_start done) (text a ++ t :: tail)
      = Parser.parse_loop cfg st' (t :: tail)
      /\ Parser.in_quotes st' = false
      /\ Parser.row_fields st' = done
      /\ Parser.row_field_count st' = List.length done
      /\ Parser.field_value cfg st' = value a.

Lemma line_end_head term rest :
  line_end term rest ->
  exists t term', term = t :: term' /\ (t = LF \/ t = CR).
Proof.
  intros [->|[->|[-> _]]]; eauto.
Qed.

Lemma finish_line (row : csvkit_row_t) (others : list A) :
  forall a done term rest,
    Forall good (a :: others) -> line_end term rest ->
    finish cfg row
      (Parser.parse_loop cfg (field_start done)
         (line_text cfg text a others term ++ rest))
    = (CSVKIT_OK,
       {| fields := done ++ map value (a :: others);
          field_count := List.length (done ++ map value (a :: others));
          row_number := row_number row |},
       rest).
Proof.
  destruct (valid_config_distinct cfg Hvalid)
    as (Hdq & HdL & HdC & HqL & HqC & HeL & HeC).
  induction others as [|a' others IH]; intros a done term rest Hok Hterm;
    inversion Hok as [|? ? Ha Hothers]; subst.
  - cbn [line_text]. rewrite <- app_assoc.
    destruct (line_end_head _ _ Hterm) as (t & term' & -> & Ht).
    cbn [app].
    destruct (Hfield a done t (term' ++ rest) Ha ltac:(tauto))
      as (st' & Hloop & Hin & Hf & Hc & Hv).
    rewrite Hloop.
    change (t :: term' ++ rest) with ((t :: term') ++ rest).
    rewrite loop_line_end by assumption.
    unfold finish. change (LF =? EOF) with false. cbn [andb].
    rewrite Hin, Hf, Hc, Hv. cbn [map]. rewrite length_app. simpl.
    repeat f_equal. lia.
  - cbn [line_text]. rewrite <- app_assoc. cbn [app].
    destruct (Hfield a done (delimiter cfg)
                (line_text cfg text a' others term ++ rest) Ha
                ltac:(tauto))
      as (st' & Hloop & Hin & Hf & Hc & Hv).
    rewrite Hloop, step_delimiter by assumption.
    replace (Parser.end_field cfg st') with (field_start (done ++ [value a])).
    + rewrite IH by assumption. cbn [map]. rewrite <- app_assoc.
      reflexivity.
    + unfold Parser.end_field, field_start.
      rewrite Hin, Hf, Hc, Hv, length_app. simpl.
      f_equal. lia.
Qed.

(** One call of csvkit_read_row on a line of such fields. *)
Lemma read_line (a : A) (others : list A) (term rest : list Z)
  (n k : nat) :
  Forall good (a :: others) -> line_end term rest ->
  (skip_empty_rows cfg = true ->
   exists f, In f (map value (a :: others)) /\ f <> []) ->
  (strict_mode cfg = true ->
   k = 0%nat \/ k = List.length (a :: others)) ->
  Parser.csvkit_read_row
    (handle cfg (line_text cfg text a others term ++ rest) n k)
  = Some (CSVKIT_OK, Some (row_of (map value (a :: others)) (S n)),
          handle cfg rest (S n)
            (expected_after cfg k [map value (a :: others)])).
Proof.
  intros Hok Hterm Hskip Hstrict.
  set (src := line_text cfg text a others term ++ rest).
  apply read_row_from_last_pass
    with (n := 0%nat) (last := handle cfg src n k);
    [discriminate|constructor|].
  unfold pass. cbn [handle Parser.config Parser.unread_input Parser.source].
  unfold Parser.parse_row_internal.
  change (Parser.initial_state fresh_row) with (field_start []).
  pose proof (finish_line fresh_row others a [] term rest Hok Hterm) as Hfin.
  unfold finish in Hfin. subst src. rewrite Hfin. cbv zeta.
  cbn [app List.length].
  change (Parser.parser_row_number
            (handle cfg (line_text cfg text a others term ++ rest) n k))
    with n.
  change (Parser.expected_field_count
            (handle cfg (line_text cfg text a others term ++ rest) n k))
    with k.
  change (Parser.stamp
            {| fields := map value (a :: others);
               field_count := List.length (map value (a :: others));
               row_number := row_number fresh_row |} (S n))
    with (row_of (map value (a :: others)) (S n)).
  change (Parser.advance
            (handle cfg (line_text cfg text a others term ++ rest) n k) rest)
    with (handle cfg rest).
  assert (Hempty : skip_empty_rows cfg
                   && Parser.csvkit_row_is_empty
                        (Some (row_of (map value (a :: others)) (S n)))
                   = false).
  { destruct (skip_empty_rows cfg); [|reflexivity].
    cbn [andb]. apply row_is_empty_false, Hskip. reflexivity. }
  rewrite Hempty. unfold expected_after.
  destruct (strict_mode cfg); [|reflexivity].
  cbn [andb]. destruct (Nat.eqb_spec k 0) as [->|Hk]; [reflexivity|].
  destruct (Hstrict eq_refl) as [->| ->]; [congruence|].
  change (field_count (row_of (map value (a :: others)) (S n)))
    with (List.length (map value (a :: others))).
  rewrite length_map, Nat.eqb_refl. reflexivity.
Qed.

End FieldwiseLine.

(** ** Lines without quotes *)

Section PlainLines.
Context {plat : Platform}.
Variable cfg : csvkit_config_t.
Hypothesis Hvalid : Parser.validate_config (Some cfg) = true.

Lemma plain_field_read (f : list Z) (done : list cstring) :
  Parser.in_quotes (add_chars f (field_start done)) = false
  /\ Parser.row_fields (add_chars f (field_start done)) = done
  /\ Parser.row_field_count (add_chars f (field_start done))
     = List.length done
  /\ Parser.field_value cfg (add_chars f (field_start done))
     = unquoted_value cfg f
  /\ Parser.buffer (add_chars f (field_start done)) = map to_char f
  /\ Parser.field_started (add_chars f (field_start done)) = nonempty f.
Proof.
  rewrite add_chars_state. unfold Parser.field_value, unquoted_value.
  cbn. rewrite andb_true_r. repeat split; reflexivity.
Qed.

Lemma plain_field (f : list Z) (done : list cstring) (t : Z)
  (tail : list Z) :
  Forall (plain cfg) f ->
  t = delimiter cfg \/ t = LF \/ t = CR ->
  exists st',
    Parser.parse_loop cfg (field_start done) (f ++ t :: tail)
    = Parser.parse_loop cfg st' (t :: tail)
    /\ Parser.in_quotes st' = false
    /\ Parser.row_fields st' = done
    /\ Parser.row_field_count st' = List.length done
    /\ Parser.field_value cfg st' = unquoted_value cfg f.
Proof.
  intros Hp _. exists (add_chars f (field_start done)).
  split; [apply loop_plain; [reflexivity|exact Hp]|].
  pose proof (plain_field_read f done). tauto.
Qed.

(** The last line of a source, without a line end. *)
Lemma finish_plain_eof (row : csvkit_row_t) (others : list (list Z)) :
  forall f done,
    Forall (Forall (plain cfg)) (f :: others) ->
    done <> [] \/ f <> [] \/ others <> [] ->
    finish cfg row
      (Parser.parse_loop cfg (field_start done)
         (line_text cfg (fun f => f) f others []))
    = (CSVKIT_OK,
       {| fields := done ++ map (unquoted_value cfg) (f :: others);
          field_count :=
            List.length (done ++ map (unquoted_value cfg) (f :: others));
          row_number := row_number row |},
       []).
Proof.
  destruct (valid_config_distinct cfg Hvalid)
    as (Hdq & HdL & HdC & HqL & HqC & HeL & HeC).
  induction others as [|f' others IH]; intros f done Hok Hne;
    inversion Hok as [|? ? Hf Hothers]; subst.
  - cbn [line_text].
    rewrite loop_plain by (auto; reflexivity).
    cbn [Parser.parse_loop].
    destruct (plain_field_read f done) as (Hin & Hfs & Hc & Hv & Hb & Hs).
    unfold finish. rewrite Hin, Hfs, Hc, Hv, Hb, Hs.
    assert (Htest : (EOF =? EOF)
                    && Nat.eqb (List.length (map to_char f)) 0
                    && Nat.eqb (List.length done) 0
                    && negb (nonempty f) = false).
    { destruct done as [|d0 done'];
        [|cbn [List.length Nat.eqb]; rewrite andb_false_r; reflexivity].
      destruct f as [|x f'']; [|reflexivity].
      destruct Hne as [H|[H|H]]; congruence. }
    rewrite Htest. cbn [map]. rewrite length_app. simpl.
    repeat f_equal. lia.
  - cbn [line_text].
    rewrite loop_plain by (auto; reflexivity).
    destruct (plain_field_read f done) as (Hin & Hfs & Hc & Hv & _).
    rewrite step_delimiter by assumption.
    replace (Parser.end_field cfg (add_chars f (field_start done)))
      with (field_start (done ++ [unquoted_value cfg f])).
    + rewrite IH; [|assumption|left; destruct done; discriminate].
      cbn [map]. rewrite <- app_assoc. reflexivity.
    + unfold Parser.end_field. rewrite Hin, Hfs, Hc, Hv.
      unfold field_start. rewrite length_app. simpl. f_equal. lia.
Qed.

End PlainLines.

(** X2: a line without quote characters is split at its delimiters.  For a
    valid dialect, csvkit_read_row on fields of ordinary characters
    (neither delimiter, quote, '\n' nor '\r') separated by delimiters and
    ended by '\n', by '\r' '\n' or by a '\r' that no '\n' follows returns
    one row with these fields, each cut at its first NUL and trimmed when
    trim_whitespace is on, and leaves the source behind the line end; the
    last line of a source is returned in the same way when it has no line
    end, unless it is empty.  (The row is neither skipped as empty nor
    refused by strict mode.) *)
Theorem plain_line_split {plat : Platform} (cfg : csvkit_config_t)
  (f : list Z) (others : list (list Z)) (n k : nat) :
  Parser.validate_config (Some cfg) = true ->
  Forall (Forall (plain cfg)) (f :: others) ->
  (skip_empty_rows cfg = true ->
   exists v, In v (map (unquoted_value cfg) (f :: others)) /\ v <> []) ->
  (strict_mode cfg = true -> k = 0%nat \/ k = List.length (f :: others)) ->
  (forall term rest,
      line_end term rest ->
      Parser.csvkit_read_row
        (handle cfg (line_text cfg (fun f => f) f others term ++ rest) n k)
      = Some (CSVKIT_OK,
              Some (row_of (map (unquoted_value cfg) (f :: others)) (S n)),
              handle cfg rest (S n)
                (expected_after cfg k
                   [map (unquoted_value cfg) (f :: others)])))
  /\ (f <> [] \/ others <> [] ->
      Parser.csvkit_read_row
        (handle cfg (line_text cfg (fun f => f) f others []) n k)
      = Some (CSVKIT_OK,
              Some (row_of (map (unquoted_value cfg) (f :: others)) (S n)),
              handle cfg [] (S n)
                (expected_after cfg k
                   [map (unquoted_value cfg) (f :: others)]))).
Proof.
  intros Hvalid Hok Hskip Hstrict. split.
  - intros term rest Hterm.
    apply (read_line cfg Hvalid (list Z) (fun f => f) (unquoted_value cfg)
             (Forall (plain cfg))); try assumption.
    intros a done t tail Ha Ht. apply plain_field; assumption.
  - intros Hne.
    set (src := line_text cfg (fun f => f) f others []).
    apply read_row_from_last_pass
      with (n := 0%nat) (last := handle cfg src n k);
      [discriminate|constructor|].
    unfold pass.
    cbn [handle Parser.config Parser.unread_input Parser.source].
    unfold Parser.parse_row_internal.
    change (Parser.initial_state fresh_row) with (field_start []).
    pose proof (finish_plain_eof cfg Hvalid fresh_row others f [] Hok
                  ltac:(tauto)) as Hfin.
    unfold finish in Hfin. subst src. rewrite Hfin. cbv zeta.
    cbn [app List.length].
    change (Parser.parser_row_number
              (handle cfg (line_text cfg (fun f => f) f others []) n k))
      with n.
    change (Parser.expected_field_count
              (handle cfg (line_text cfg (fun f => f) f others []) n k))
      with k.
    change (Parser.stamp
              {| fields := map (unquoted_value cfg) (f :: others);
                 field_count :=
                   List.length (map (unquoted_value cfg) (f :: others));
                 row_number := row_number fresh_row |} (S n))
      with (row_of (map (unquoted_value cfg) (f :: others)) (S n)).
    change (Parser.advance
              (handle cfg (line_text cfg (fun f => f) f others []) n k) [])
      with (handle cfg []).
    assert (Hempty : skip_empty_rows cfg
                     && Parser.csvkit_row_is_empty
                          (Some (row_of (map (unquoted_value cfg)
                                             (f :: others)) (S n)))
                     = false).
    { destruct (skip_empty_rows cfg); [|reflexivity].
      cbn [andb]. apply row_is_empty_false, Hskip. reflexivity. }
    rewrite Hempty. unfold expected_after.
    destruct (strict_mode cfg); [|reflexivity].
    cbn [andb]. destruct (Nat.eqb_spec k 0) as [->|Hk]; [reflexivity|].
    destruct (Hstrict eq_refl) as [->| ->]; [congruence|].
    change (field_count (row_of (map (unquoted_value cfg) (f :: others))
                                (S n)))
      with (List.length (map (unquoted_value cfg) (f :: others))).
    rewrite length_map, Nat.eqb_refl. reflexivity.
Qed.

(** ** Quoted fields *)

Section QuotedFields.
Context {plat : Platform}.
Variable cfg : csvkit_config_t.
Hypothesis Hvalid : Parser.validate_config (Some cfg) = true.

Lemma spec_escape_cons (x : Z) (l : cstring) :
  spec_escape cfg (x :: l)
  = (if x =? quote_char cfg
     then [escape_char cfg; quote_char cfg] else [x])
    ++ spec_escape cfg l.
Proof. reflexivity. Qed.

(** Between the quotes the loop undoes the escaping of the writer. *)
Lemma loop_quoted_text (f : cstring) :
  body_ok cfg f ->
  forall st tail,
    Parser.in_quotes st = true ->
    Parser.parse_loop cfg st (spec_escape cfg f ++ tail)
    = Parser.parse_loop cfg (add_chars f st) tail.
Proof.
  assert (Hrfc : escape_char cfg = quote_char cfg ->
                 forall st tail,
                   Parser.in_quotes st = true ->
                   Parser.parse_loop cfg st (spec_escape cfg f ++ tail)
                   = Parser.parse_loop cfg (add_chars f st) tail).
  { intros Heq. induction f as [|x f IH]; intros st tail Hin;
      [reflexivity|].
    rewrite spec_escape_cons.
    change (add_chars (x :: f) st) with (add_chars f (Parser.add_char x st)).
    destruct (Z.eqb_spec x (quote_char cfg)) as [->|Hq].
    - cbn [app]. rewrite step_escaped_quote by assumption.
      apply IH. exact Hin.
    - cbn [app]. rewrite step_quoted_plain by congruence.
      apply IH. exact Hin. }
  intros [Heq|Hkept]; [exact (Hrfc Heq)|].
  destruct (Z.eq_dec (escape_char cfg) (quote_char cfg)) as [Heq|Hne];
    [exact (Hrfc Heq)|].
  clear Hrfc.
  assert (E1 : (escape_char cfg =? quote_char cfg) = false)
    by (apply Z.eqb_neq; assumption).
  induction Hkept as [|x f Hx _ IH|y f Hye Hyq _ IH]; intros st tail Hin.
  - reflexivity.
  - rewrite spec_escape_cons.
    change (add_chars (x :: f) st) with (add_chars f (Parser.add_char x st)).
    destruct (Z.eqb_spec x (quote_char cfg)) as [->|Hq].
    + cbn [app]. rewrite step_escaped_quote by assumption.
      apply IH. exact Hin.
    + cbn [app]. rewrite step_quoted_plain by assumption.
      apply IH. exact Hin.
  - rewrite !spec_escape_cons.
    assert (E2 : (y =? quote_char cfg) = false)
      by (apply Z.eqb_neq; assumption).
    rewrite E1, E2. cbn [app].
    change (add_chars (escape_char cfg :: y :: f) st)
      with (add_chars f (Parser.add_char y
                           (Parser.add_char (escape_char cfg) st))).
    rewrite step_escaped_other by assumption.
    apply IH. exact Hin.
Qed.

(** The closing quote in front of a character that may follow it. *)
Lemma step_close_quote_any st t rest :
  Parser.in_quotes st = true ->
  t <> quote_char cfg ->
  (strict_mode cfg = true -> Parser.after_quote_ok cfg t = true) ->
  Parser.parse_loop cfg st (quote_char cfg :: t :: rest)
  = Parser.parse_loop cfg (Parser.set_in_quotes false st) (t :: rest).
Proof.
  intros Hin Ht Hstrict.
  assert (Et : (t =? quote_char cfg) = false) by (apply Z.eqb_neq; exact Ht).
  assert (Es : strict_mode cfg && negb (Parser.after_quote_ok cfg t) = false).
  { destruct (strict_mode cfg); [|reflexivity].
    rewrite Hstrict by reflexivity. reflexivity. }
  rewrite parse_loop_step. unfold loop_step. rewrite Hin. cbn [negb andb].
  destruct (Z.eqb_spec (escape_char cfg) (quote_char cfg)) as [Heq|Hne].
  - assert (E1 : (quote_char cfg =? escape_char cfg) = true)
      by (apply Z.eqb_eq; congruence).
    assert (Ee : (t =? escape_char cfg) = false)
      by (apply Z.eqb_neq; congruence).
    rewrite E1, Et, Ee, Es. reflexivity.
  - assert (E1 : (quote_char cfg =? escape_char cfg) = false)
      by (apply Z.eqb_neq; congruence).
    rewrite E1, Z.eqb_refl. cbn [negb andb].
    destruct (strict_mode cfg); [|reflexivity].
    rewrite Hstrict by reflexivity. reflexivity.
Qed.

(** In strict mode the closing quote in front of any other character ends
    the call. *)
Lemma step_stray st t rest :
  Parser.in_quotes st = true ->
  t <> quote_char cfg ->
  strict_mode cfg = true -> Parser.after_quote_ok cfg t = false ->
  exists st',
    Parser.parse_loop cfg st (quote_char cfg :: t :: rest)
    = Parser.LoopReturn CSVKIT_ERROR_PARSE st' rest.
Proof.
  intros Hin Ht Hstrict Hafter.
  assert (Et : (t =? quote_char cfg) = false) by (apply Z.eqb_neq; exact Ht).
  rewrite parse_loop_step. unfold loop_step. rewrite Hin. cbn [negb andb].
  destruct (Z.eqb_spec (escape_char cfg) (quote_char cfg)) as [Heq|Hne].
  - assert (E1 : (quote_char cfg =? escape_char cfg) = true)
      by (apply Z.eqb_eq; congruence).
    assert (Ee : (t =? escape_char cfg) = false)
      by (apply Z.eqb_neq; congruence).
    rewrite E1, Et, Ee, Hstrict, Hafter. eexists. reflexivity.
  - assert (E1 : (quote_char cfg =? escape_char cfg) = false)
      by (apply Z.eqb_neq; congruence).
    rewrite E1, Z.eqb_refl, Hstrict, Hafter. eexists. reflexivity.
Qed.

(** The state after the opening quote and the characters [f]. *)
Lemma quoted_state_read (f : list Z) (done : list cstring) :
  add_chars f (Parser.start_quoted (field_start done))
  = quoted_state (map to_char f) done.
Proof. rewrite add_chars_state. reflexivity. Qed.

Lemma close_quoted_state (buf : list Z) (done : list cstring) :
  Parser.set_in_quotes false (quoted_state buf done)
  = field_read buf true true done.
Proof. reflexivity. Qed.

(** A quoted field in front of a character that may follow it. *)
Lemma loop_quoted_field (f : cstring) (done : list cstring) (t : Z)
  (tail : list Z) :
  body_ok cfg f -> t <> quote_char cfg ->
  (strict_mode cfg = true -> Parser.after_quote_ok cfg t = true) ->
  Parser.parse_loop cfg (field_start done)
    (quote_char cfg :: spec_escape cfg f ++ quote_char cfg :: t :: tail)
  = Parser.parse_loop cfg (field_read (map to_char f) true true done)
      (t :: tail).
Proof.
  destruct (valid_config_distinct cfg Hvalid)
    as (Hdq & HdL & HdC & HqL & HqC & HeL & HeC).
  intros Hbody Ht Hstrict.
  rewrite step_open_quote by (auto; reflexivity).
  rewrite loop_quoted_text by (auto; reflexivity).
  rewrite quoted_state_read.
  rewrite step_close_quote_any by (auto; reflexivity).
  reflexivity.
Qed.

(** Fields of ordinary characters in front of the field under
    inspection. *)
Lemma loop_leading_fields (fs : list (list Z)) :
  forall done tail,
    Forall (Forall (plain cfg)) fs ->
    Parser.parse_loop cfg (field_start done) (leading_fields cfg fs ++ tail)
    = Parser.parse_loop cfg
        (field_start (done ++ map (unquoted_value cfg) fs)) tail.
Proof.
  destruct (valid_config_distinct cfg Hvalid)
    as (Hdq & HdL & HdC & HqL & HqC & HeL & HeC).
  induction fs as [|f fs IH]; intros done tail Hok.
  - cbn. rewrite app_nil_r. reflexivity.
  - inversion Hok as [|? ? Hf Hfs]; subst.
    unfold leading_fields. cbn [flat_map]. fold (leading_fields cfg fs).
    rewrite <- !app_assoc. cbn [app].
    rewrite loop_plain by (auto; reflexivity).
    destruct (plain_field_read cfg f done) as (Hin & Hfs' & Hc & Hv & _).
    rewrite step_delimiter by assumption.
    replace (Parser.end_field cfg (add_chars f (field_start done)))
      with (field_start (done ++ [unquoted_value cfg f])).
    + rewrite IH by assumption. cbn [map]. rewrite <- app_assoc.
      reflexivity.
    + unfold Parser.end_field. rewrite Hin, Hfs', Hc, Hv.
      unfold field_start. rewrite length_app. simpl. f_equal. lia.
Qed.

End QuotedFields.

(** ** From parse_row_internal to csvkit_read_row *)

Section CallResults.
Context {plat : Platform}.
Variable cfg : csvkit_config_t.

(** A decoded row that is neither skipped nor refused is handed out. *)
Lemma read_row_of_parse_ok (src rest : list Z) (fs : list cstring)
  (n k : nat) :
  Parser.parse_row_internal cfg fresh_row src
  = (CSVKIT_OK, row_of fs 0, rest) ->
  (skip_empty_rows cfg = true -> exists f, In f fs /\ f <> []) ->
  (strict_mode cfg = true -> k = 0%nat \/ k = List.length fs) ->
  Parser.csvkit_read_row (handle cfg src n k)
  = Some (CSVKIT_OK, Some (row_of fs (S n)),
          handle cfg rest (S n) (expected_after cfg k [fs])).
Proof.
  intros Hparse Hskip Hstrict.
  apply read_row_from_last_pass
    with (n := 0%nat) (last := handle cfg src n k);
    [discriminate|constructor|].
  unfold pass. cbn [handle Parser.config Parser.unread_input Parser.source].
  rewrite Hparse. cbv zeta.
  change (Parser.parser_row_number (handle cfg src n k)) with n.
  change (Parser.expected_field_count (handle cfg src n k)) with k.
  change (Parser.stamp (row_of fs 0) (S n)) with (row_of fs (S n)).
  change (Parser.advance (handle cfg src n k) rest) with (handle cfg rest).
  assert (Hempty : skip_empty_rows cfg
                   && Parser.csvkit_row_is_empty (Some (row_of fs (S n)))
                   = false).
  { destruct (skip_empty_rows cfg); [|reflexivity].
    cbn [andb]. apply row_is_empty_false, Hskip. reflexivity. }
  rewrite Hempty. unfold expected_after.
  destruct (strict_mode cfg); [|reflexivity].
  cbn [andb]. destruct (Nat.eqb_spec k 0) as [->|Hk]; [reflexivity|].
  destruct (Hstrict eq_refl) as [->| ->]; [congruence|].
  change (field_count (row_of fs (S n))) with (List.length fs).
  rewrite Nat.eqb_refl. reflexivity.
Qed.

(** A parse error of parse_row_internal ends the call. *)
Lemma read_row_of_parse_error (src rest : list Z) (row : csvkit_row_t)
  (n k : nat) :
  Parser.parse_row_internal cfg fresh_row src
  = (CSVKIT_ERROR_PARSE, row, rest) ->
  Parser.csvkit_read_row (handle cfg src n k)
  = Some (CSVKIT_ERROR_PARSE, None,
          Parser.set_error (handle cfg rest n k)
            (Some "Unclosed quoted field"%string)).
Proof.
  intros Hparse.
  apply read_row_from_last_pass
    with (n := 0%nat) (last := handle cfg src n k);
    [discriminate|constructor|].
  unfold pass. cbn [handle Parser.config Parser.unread_input Parser.source].
  rewrite Hparse. reflexivity.
Qed.

(** A decoded row of empty fields is skipped when empty rows are: the call
    goes on behind it, with the row counted. *)
Lemma read_row_of_parse_skipped (src rest : list Z) (fs : list cstring)
  (n k : nat) :
  Parser.parse_row_internal cfg fresh_row src
  = (CSVKIT_OK, row_of fs 0, rest) ->
  skip_empty_rows cfg = true ->
  Forall (fun f => f = []) fs ->
  Parser.csvkit_read_row (handle cfg src n k)
  = Parser.csvkit_read_row (handle cfg rest (S n) k).
Proof.
  intros Hparse Hskip Hempty.
  assert (Hpass : pass (handle cfg src n k) = Skip (handle cfg rest (S n) k)).
  { unfold pass.
    cbn [handle Parser.config Parser.unread_input Parser.source].
    rewrite Hparse. cbv zeta. rewrite Hskip. cbn [andb].
    change (Parser.stamp (row_of fs 0)
              (S (Parser.parser_row_number (handle cfg src n k))))
      with (row_of fs (S n)).
    assert (E : Parser.csvkit_row_is_empty (Some (row_of fs (S n))) = true).
    { unfold Parser.csvkit_row_is_empty, row_of. cbn [field_count fields].
      rewrite firstn_all.
      destruct (Nat.eqb (List.length fs) 0); [reflexivity|].
      apply forallb_forall. intros f Hf.
      rewrite Forall_forall in Hempty. rewrite (Hempty f Hf). reflexivity. }
    rewrite E. reflexivity. }
  destruct (csvkit_read_row_total (handle cfg rest (S n) k)) as (res & Hres).
  rewrite Hres.
  assert (Hsrc : Parser.source (handle cfg rest (S n) k) <> None)
    by discriminate.
  destruct (read_row_last_pass _ _ Hsrc Hres) as (m & last & Hs & Hl).
  apply read_row_from_last_pass with (n := S m) (last := last);
    [discriminate| |exact Hl].
  econstructor; eassumption.
Qed.

End CallResults.

(** ** Quoted fields that do not end as they should *)

Section QuoteErrors.
Context {plat : Platform}.
Variable cfg : csvkit_config_t.
Hypothesis Hvalid : Parser.validate_config (Some cfg) = true.

(** The loop up to the characters behind the opening quote of a field that
    follows the fields [fs]. *)
Lemma loop_to_quoted_text (fs : list (list Z)) (f : cstring)
  (tail : list Z) :
  Forall (Forall (plain cfg)) fs -> body_ok cfg f ->
  Parser.parse_loop cfg (field_start [])
    (leading_fields cfg fs ++ quote_char cfg :: spec_escape cfg f ++ tail)
  = Parser.parse_loop cfg
      (quoted_state (map to_char f) (map (unquoted_value cfg) fs)) tail.
Proof.
  destruct (valid_config_distinct cfg Hvalid)
    as (Hdq & HdL & HdC & HqL & HqC & HeL & HeC).
  intros Hfs Hbody.
  rewrite loop_leading_fields by assumption. cbn [app].
  rewrite step_open_quote by (auto; reflexivity).
  rewrite loop_quoted_text by (auto; reflexivity).
  rewrite quoted_state_read. reflexivity.
Qed.

(** With distinct escape and quote characters the quote character closes
    the field also at the end of input. *)
Lemma step_close_quote_eof st :
  Parser.in_quotes st = true ->
  escape_char cfg <> quote_char cfg ->
  Parser.parse_loop cfg st [quote_char cfg]
  = Parser.LoopExit EOF (Parser.set_in_quotes false st) [].
Proof.
  intros Hin Hne.
  assert (E1 : (quote_char cfg =? escape_char cfg) = false)
    by (apply Z.eqb_neq; congruence).
  assert (E2 : (escape_char cfg =? quote_char cfg) = false)
    by (apply Z.eqb_neq; congruence).
  rewrite parse_loop_step. unfold loop_step. rewrite Hin. cbn [negb andb].
  rewrite E1, Z.eqb_refl, E2. cbn [negb andb].
  destruct (strict_mode cfg); reflexivity.
Qed.

End QuoteErrors.

(** X3: a quoted field that the input does not close is refused.  For a
    valid dialect, when the source holds, behind any fields of ordinary
    characters, an opening quote and then the characters of a field as the
    writer escapes them, but no closing quote, csvkit_read_row returns
    CSVKIT_ERROR_PARSE without a row, has consumed the source and leaves
    the message [Unclosed quoted field]. *)
Theorem unterminated_quote {plat : Platform} (cfg : csvkit_config_t)
  (fs : list (list Z)) (f : cstring) (n k : nat) :
  Parser.validate_config (Some cfg) = true ->
  Forall (Forall (plain cfg)) fs -> body_ok cfg f ->
  Parser.csvkit_read_row
    (handle cfg
       (leading_fields cfg fs ++ quote_char cfg :: spec_escape cfg f) n k)
  = Some (CSVKIT_ERROR_PARSE, None,
          Parser.set_error (handle cfg [] n k)
            (Some "Unclosed quoted field"%string)).
Proof.
  intros Hvalid Hfs Hbody.
  eapply read_row_of_parse_error.
  rewrite parse_row_internal_finish.
  change (Parser.initial_state fresh_row) with (field_start []).
  rewrite <- (app_nil_r (spec_escape cfg f)).
  rewrite loop_to_quoted_text by assumption.
  rewrite parse_loop_nil. unfold finish.
  cbn [quoted_state Parser.field_started Parser.in_quotes negb].
  rewrite andb_false_r. reflexivity.
Qed.

(** X4: the closing quote at the very end of the input.  For a valid
    dialect whose escape character is the quote character (the default
    dialect), a quoted field that ends the source, with no line end behind
    its closing quote, makes csvkit_read_row fail with CSVKIT_ERROR_PARSE
    and the message [Unclosed quoted field]; when the escape character
    differs from the quote character the row is handed out, the quoted
    field untrimmed. *)
Theorem closing_quote_at_end_of_input {plat : Platform}
  (cfg : csvkit_config_t) (fs : list (list Z)) (f : cstring) (n k : nat) :
  Parser.validate_config (Some cfg) = true ->
  Forall (Forall (plain cfg)) fs -> body_ok cfg f ->
  0 <= quote_char cfg ->
  (escape_char cfg = quote_char cfg ->
   Parser.csvkit_read_row
     (handle cfg
        (leading_fields cfg fs
         ++ quote_char cfg :: spec_escape cfg f ++ [quote_char cfg]) n k)
   = Some (CSVKIT_ERROR_PARSE, None,
           Parser.set_error (handle cfg [] n k)
             (Some "Unclosed quoted field"%string)))
  /\ (escape_char cfg <> quote_char cfg ->
      (skip_empty_rows cfg = true ->
       exists v, In v (map (unquoted_value cfg) fs ++ [quoted_value f])
                 /\ v <> []) ->
      (strict_mode cfg = true -> k = 0%nat \/ k = S (List.length fs)) ->
      Parser.csvkit_read_row
        (handle cfg
           (leading_fields cfg fs
            ++ quote_char cfg :: spec_escape cfg f ++ [quote_char cfg]) n k)
      = Some (CSVKIT_OK,
              Some (row_of (map (unquoted_value cfg) fs ++ [quoted_value f])
                           (S n)),
              handle cfg [] (S n)
                (expected_after cfg k
                   [map (unquoted_value cfg) fs ++ [quoted_value f]]))).
Proof.
  intros Hvalid Hfs Hbody Hq. split.
  - intros Heq. eapply read_row_of_parse_error.
    rewrite parse_row_internal_finish.
    change (Parser.initial_state fresh_row) with (field_start []).
    rewrite loop_to_quoted_text by assumption.
    rewrite <- Heq.
    destruct (escape_then_eof cfg fresh_row
                (quoted_state (map to_char f) (map (unquoted_value cfg) fs))
                eq_refl ltac:(lia)) as [Hloop _].
    rewrite Hloop. unfold finish.
    assert (E : (escape_char cfg =? EOF) = false)
      by (apply Z.eqb_neq; unfold EOF; lia).
    rewrite E. reflexivity.
  - intros Hne Hskip Hstrict.
    apply read_row_of_parse_ok; [|exact Hskip|].
    + rewrite parse_row_internal_finish.
      change (Parser.initial_state fresh_row) with (field_start []).
      rewrite loop_to_quoted_text by assumption.
      rewrite step_close_quote_eof by (auto; reflexivity).
      unfold finish, row_of, quoted_value. cbn.
      rewrite !length_app, length_map. cbn.
      rewrite andb_false_r. unfold Parser.field_value. cbn.
      rewrite andb_false_r. repeat f_equal. lia.
    + intros Hs. rewrite length_app, length_map. cbn.
      destruct (Hstrict Hs); [left; assumption|right; lia].
Qed.

(** X5: a character behind a closing quote.  For a valid dialect, when the
    closing quote of a field is followed by an ordinary character, strict
    mode makes csvkit_read_row fail with CSVKIT_ERROR_PARSE (message
    [Unclosed quoted field]), the source left behind that character;
    without strict mode the character and the ordinary characters after it
    up to the line end are appended to the field, which counts as quoted
    and is not trimmed. *)
Theorem stray_character_after_quote {plat : Platform}
  (cfg : csvkit_config_t) (fs : list (list Z)) (f : cstring) (x : Z)
  (n k : nat) :
  Parser.validate_config (Some cfg) = true ->
  Forall (Forall (plain cfg)) fs -> body_ok cfg f -> plain cfg x ->
  (strict_mode cfg = true ->
   forall rest,
     Parser.csvkit_read_row
       (handle cfg
          (leading_fields cfg fs
           ++ quote_char cfg :: spec_escape cfg f
           ++ quote_char cfg :: x :: rest) n k)
     = Some (CSVKIT_ERROR_PARSE, None,
             Parser.set_error (handle cfg rest n k)
               (Some "Unclosed quoted field"%string)))
  /\ (strict_mode cfg = false ->
      forall g term rest,
        Forall (plain cfg) g -> line_end term rest ->
        (skip_empty_rows cfg = true ->
         exists v, In v (map (unquoted_value cfg) fs
                         ++ [quoted_value (f ++ x :: g)])
                   /\ v <> []) ->
        Parser.csvkit_read_row
          (handle cfg
             (leading_fields cfg fs
              ++ quote_char cfg :: spec_escape cfg f
              ++ quote_char cfg :: x :: g ++ term ++ rest) n k)
        = Some (CSVKIT_OK,
                Some (row_of (map (unquoted_value cfg) fs
                              ++ [quoted_value (f ++ x :: g)]) (S n)),
                handle cfg rest (S n) k)).
Proof.
  intros Hvalid Hfs Hbody Hx.
  pose proof Hx as (Hxd & Hxq & HxL & HxC).
  assert (Hafter : Parser.after_quote_ok cfg x = false).
  { unfold Parser.after_quote_ok.
    rewrite !orb_false_iff, !Z.eqb_neq. tauto. }
  split.
  - intros Hstrict rest.
    edestruct (step_stray cfg)
      with (st := quoted_state (map to_char f) (map (unquoted_value cfg) fs))
           (t := x) (rest := rest) as (st' & Hloop);
      try eassumption; try reflexivity.
    eapply read_row_of_parse_error.
    rewrite parse_row_internal_finish.
    change (Parser.initial_state fresh_row) with (field_start []).
    rewrite loop_to_quoted_text by assumption.
    rewrite Hloop. reflexivity.
  - intros Hstrict g term rest Hg Hterm Hskip.
    replace k with (expected_after cfg k
                      [map (unquoted_value cfg) fs
                       ++ [quoted_value (f ++ x :: g)]]) at 2
      by (unfold expected_after; rewrite Hstrict; reflexivity).
    apply read_row_of_parse_ok; [|exact Hskip|congruence].
    rewrite parse_row_internal_finish.
    change (Parser.initial_state fresh_row) with (field_start []).
    rewrite loop_to_quoted_text by assumption.
    rewrite step_close_quote_any by (auto; congruence).
    rewrite close_quoted_state.
    change (x :: g ++ term ++ rest) with ((x :: g) ++ term ++ rest).
    rewrite loop_plain by (auto; reflexivity).
    rewrite loop_line_end; [|exact Hvalid|
                             rewrite add_chars_state; reflexivity|
                             exact Hterm].
    rewrite add_chars_state. unfold finish, row_of, quoted_value.
    cbn. rewrite !length_app, length_map, map_app. cbn.
    unfold Parser.field_value. cbn.
    rewrite andb_false_r. repeat f_equal. lia.
Qed.

(** X6: a line of empty fields is skipped.  For a valid dialect with
    skip_empty_rows on, when the source starts with a line of unquoted
    fields that are all empty (an empty line, delimiters only or, with
    trim_whitespace on, fields of spaces), csvkit_read_row returns what it
    returns on the source behind that line with the row counter one
    higher: the line is counted but neither handed out nor compared with
    the expected field count of strict mode. *)
Theorem empty_line_skipped {plat : Platform} (cfg : csvkit_config_t)
  (f : list Z) (others : list (list Z)) (term rest : list Z) (n k : nat) :
  Parser.validate_config (Some cfg) = true ->
  skip_empty_rows cfg = true ->
  Forall (Forall (plain cfg)) (f :: others) ->
  Forall (fun g => unquoted_value cfg g = []) (f :: others) ->
  line_end term rest ->
  Parser.csvkit_read_row
    (handle cfg (line_text cfg (fun g => g) f others term ++ rest) n k)
  = Parser.csvkit_read_row (handle cfg rest (S n) k).
Proof.
  intros Hvalid Hskip Hok Hempty Hterm.
  apply read_row_of_parse_skipped
    with (fs := map (unquoted_value cfg) (f :: others)).
  - rewrite parse_row_internal_finish.
    change (Parser.initial_state fresh_row) with (field_start []).
    rewrite (finish_line cfg Hvalid (list Z) (fun g => g)
               (unquoted_value cfg) (Forall (plain cfg))
               (fun a done t tail Ha Ht =>
                  plain_field cfg a done t tail Ha Ht)
               fresh_row others f [] term rest Hok Hterm).
    reflexivity.
  - exact Hskip.
  - apply Forall_map. exact Hempty.
Qed.

Ltac concrete_plain :=
  repeat match goal with
         | |- Forall _ [] => apply Forall_nil
         | |- Forall _ (_ :: _) => apply Forall_cons
         | |- Forall _ ?l =>
           let l' := eval vm_compute in l in change l with l'
         | |- plain _ _ =>
           unfold plain, LF, CR; simpl; repeat split; lia
         end.

Lemma plain_line_split_witness :
  @Parser.csvkit_read_row signed_char_platform
    (handle (default_with true false true)
       (line_text (default_with true false true) (fun f => f)
          (chars " ab ") [chars ""; chars "c d"] [CR; LF] ++ chars "x")
       0 0)
  = Some (CSVKIT_OK,
          Some (row_of [chars "ab"; chars ""; chars "c d"] 1),
          handle (default_with true false true) (chars "x") 1 3)
  /\ @Parser.csvkit_read_row signed_char_platform
       (handle (default_with true false true)
          (line_text (default_with true false true) (fun f => f)
             (chars " ab ") [chars ""; chars "c d"] []) 0 0)
     = Some (CSVKIT_OK,
             Some (row_of [chars "ab"; chars ""; chars "c d"] 1),
             handle (default_with true false true) [] 1 3).
Proof.
  destruct (@plain_line_split signed_char_platform
              (default_with true false true)
              (chars " ab ") [chars ""; chars "c d"] 0 0) as [Hline Hlast].
  - reflexivity.
  - concrete_plain.
  - discriminate.
  - intros _. left. reflexivity.
  - split.
    + apply (Hline [CR; LF] (chars "x")). right. left. reflexivity.
    + apply Hlast. left. discriminate.
Defined.

Lemma unterminated_quote_witness :
  @Parser.csvkit_read_row signed_char_platform
    (handle csvkit_config_default
       (leading_fields csvkit_config_default [chars "a"]
        ++ quote_char csvkit_config_default
           :: spec_escape csvkit_config_default (chars "b,c")) 0 0)
  = Some (CSVKIT_ERROR_PARSE, None,
          Parser.set_error (handle csvkit_config_default [] 0 0)
            (Some "Unclosed quoted field"%string)).
Proof.
  apply (@unterminated_quote signed_char_platform csvkit_config_default
           [chars "a"] (chars "b,c") 0 0).
  - reflexivity.
  - concrete_plain.
  - left. reflexivity.
Defined.

Lemma closing_quote_at_end_of_input_witness :
  @Parser.csvkit_read_row signed_char_platform
    (handle csvkit_config_default
       (leading_fields csvkit_config_default [chars "a"]
        ++ quote_char csvkit_config_default
           :: spec_escape csvkit_config_default (chars "b,c")
           ++ [quote_char csvkit_config_default]) 0 0)
  = Some (CSVKIT_ERROR_PARSE, None,
          Parser.set_error (handle csvkit_config_default [] 0 0)
            (Some "Unclosed quoted field"%string))
  /\ @Parser.csvkit_read_row signed_char_platform
       (handle backslash_config
          (leading_fields backslash_config [chars "a"]
           ++ quote_char backslash_config
              :: spec_escape backslash_config (chars "b,c")
              ++ [quote_char backslash_config]) 0 0)
     = Some (CSVKIT_OK,
             Some (row_of
                     (map (@unquoted_value signed_char_platform
                             backslash_config) [chars "a"]
                      ++ [@quoted_value signed_char_platform (chars "b,c")])
                     1),
             handle backslash_config [] 1
               (expected_after backslash_config 0
                  [map (@unquoted_value signed_char_platform
                          backslash_config) [chars "a"]
                   ++ [@quoted_value signed_char_platform (chars "b,c")]])).
Proof.
  split.
  - apply (@closing_quote_at_end_of_input signed_char_platform
             csvkit_config_default [chars "a"] (chars "b,c") 0 0).
    + reflexivity.
    + concrete_plain.
    + left. reflexivity.
    + simpl. lia.
    + reflexivity.
  - apply (@closing_quote_at_end_of_input signed_char_platform
             backslash_config [chars "a"] (chars "b,c") 0 0).
    + reflexivity.
    + concrete_plain.
    + right. change (chars "b,c") with [98; 44; 99].
      repeat (apply escapes_kept_plain; [simpl; lia|]).
      apply escapes_kept_nil.
    + simpl. lia.
    + simpl. lia.
    + discriminate.
    + discriminate.
Defined.

Lemma stray_character_after_quote_witness :
  @Parser.csvkit_read_row signed_char_platform
    (handle (default_with false false true)
       (leading_fields (default_with false false true) []
        ++ quote_char (default_with false false true)
           :: spec_escape (default_with false false true) (chars "ab")
           ++ quote_char (default_with false false true)
              :: 120 :: chars "y,z") 0 0)
  = Some (CSVKIT_ERROR_PARSE, None,
          Parser.set_error
            (handle (default_with false false true) (chars "y,z") 0 0)
            (Some "Unclosed quoted field"%string))
  /\ @Parser.csvkit_read_row signed_char_platform
       (handle csvkit_config_default
          (leading_fields csvkit_config_default []
           ++ quote_char csvkit_config_default
              :: spec_escape csvkit_config_default (chars "ab")
              ++ quote_char csvkit_config_default
                 :: 120 :: chars "y" ++ [LF] ++ chars "z") 0 0)
     = Some (CSVKIT_OK,
             Some (row_of
                     (map (@unquoted_value signed_char_platform
                             csvkit_config_default) []
                      ++ [@quoted_value signed_char_platform
                            (chars "ab" ++ 120 :: chars "y")]) 1),
             handle csvkit_config_default (chars "z") 1 0).
Proof.
  split.
  - apply (@stray_character_after_quote signed_char_platform
             (default_with false false true) [] (chars "ab") 120 0 0).
    + reflexivity.
    + concrete_plain.
    + left. reflexivity.
    + concrete_plain.
    + reflexivity.
  - apply (@stray_character_after_quote signed_char_platform
             csvkit_config_default [] (chars "ab") 120 0 0).
    + reflexivity.
    + concrete_plain.
    + left. reflexivity.
    + concrete_plain.
    + reflexivity.
    + concrete_plain.
    + left. reflexivity.
    + discriminate.
Defined.

Lemma empty_line_skipped_witness :
  @Parser.csvkit_read_row signed_char_platform
    (handle (default_with true true true)
       (line_text (default_with true true true) (fun g => g)
          (chars "  ") [chars ""] [LF] ++ chars "a" ++ [LF]) 4 3)
  = @Parser.csvkit_read_row signed_char_platform
      (handle (default_with true true true) (chars "a" ++ [LF]) 5 3).
Proof.
  apply (@empty_line_skipped signed_char_platform
           (default_with true true true) (chars "  ") [chars ""]).
  - reflexivity.
  - reflexivity.
  - concrete_plain.
  - repeat constructor.
  - left. reflexivity.
Defined.

(** ** What a call consumes *)

Section Consumption.
Context {plat : Platform}.

Lemma loop_step_suffix cfg st c0 rest :
  match loop_step cfg st c0 rest with
  | Continue _ src' => exists pre, rest = pre ++ src'
  | Leave r => exists pre, rest = pre ++ remaining r
  end.
Proof.
  unfold loop_step.
  set (cr := negb (Parser.in_quotes st) && (c0 =? CR)).
  set (src1 := if cr then _ else rest).
  assert (Hsrc1 : exists pre, rest = pre ++ src1).
  { subst src1. destruct cr; [|exists []; reflexivity].
    destruct rest as [|next rest']; [exists []; reflexivity|].
    destruct (next =? LF); [exists [next]|exists []]; reflexivity. }
  clearbody src1 cr. cbv zeta. destruct Hsrc1 as (pre & ->).
  assert (Hcons : forall x l, exists pre', pre ++ x :: l = pre' ++ l).
  { intros x l. exists (pre ++ [x]). rewrite <- app_assoc. reflexivity. }
  destruct src1 as [|next src2];
    repeat match goal with
           | |- context [if ?b then _ else _] => destruct b
           end; cbn [remaining]; eauto.
Qed.

(** The loop leaves a suffix of its input unread. *)
Lemma parse_loop_suffix cfg st src :
  exists pre, src = pre ++ remaining (Parser.parse_loop cfg st src).
Proof.
  apply (parse_loop_induction cfg
           (fun _ src r => exists pre, src = pre ++ remaining r)).
  - intros s. exists []. reflexivity.
  - intros s c0 rest r H.
    pose proof (loop_step_suffix cfg s c0 rest) as Hs. rewrite H in Hs.
    destruct Hs as (pre & ->). exists (c0 :: pre). reflexivity.
  - intros s c0 rest s' src' H (pre' & IH).
    pose proof (loop_step_suffix cfg s c0 rest) as Hs. rewrite H in Hs.
    destruct Hs as (pre & ->). exists (c0 :: pre ++ pre').
    cbn [app]. rewrite <- app_assoc. f_equal. f_equal. exact IH.
Qed.

Lemma parse_row_internal_suffix cfg row src e row' src' :
  Parser.parse_row_internal cfg row src = (e, row', src') ->
  exists pre, src = pre ++ src'.
Proof.
  unfold Parser.parse_row_internal.
  destruct (parse_loop_suffix cfg (Parser.initial_state row) src)
    as (pre & Hpre).
  destruct (Parser.parse_loop cfg (Parser.initial_state row) src)
    as [e0 st s|c st s]; cbn [remaining] in Hpre.
  - intros E. inversion E; subst. eauto.
  - repeat match goal with
           | |- context [if ?b then _ else _] => destruct b
           end; intros E; inversion E; subst; eauto.
Qed.

Lemma unread_input_advance_any parser src n e pre :
  Parser.unread_input parser = pre ++ src ->
  Parser.unread_input parser
  = pre ++ Parser.unread_input (Parser.advance parser src n e).
Proof.
  unfold Parser.unread_input, Parser.advance. cbn [Parser.source].
  destruct (Parser.source parser); [auto|].
  intros H. symmetry in H. apply app_eq_nil in H. destruct H as [-> ->].
  reflexivity.
Qed.

(** One pass leaves a suffix of the source and keeps the configuration. *)
Lemma pass_suffix parser :
  match pass parser with
  | Done (_, _, parser') | Skip parser' =>
    (exists pre,
        Parser.unread_input parser = pre ++ Parser.unread_input parser')
    /\ Parser.config parser' = Parser.config parser
  end.
Proof.
  unfold pass.
  destruct (Parser.parse_row_internal (Parser.config parser) fresh_row
              (Parser.unread_input parser)) as [[result row] src'] eqn:Hp.
  apply parse_row_internal_suffix in Hp. destruct Hp as (pre & Hpre).
  destruct result; cbv zeta;
    repeat match goal with
           | |- context [if ?b then _ else _] => destruct b
           end;
    (split; [exists pre|reflexivity]);
    unfold Parser.set_error;
    try (apply unread_input_advance_any; exact Hpre).
  all: unfold Parser.unread_input in *; cbn [Parser.source Parser.advance];
    destruct (Parser.source parser); auto;
    symmetry in Hpre; apply app_eq_nil in Hpre; destruct Hpre as [-> ->];
    reflexivity.
Qed.

Lemma skips_to_suffix parser n last :
  skips_to parser n last ->
  exists pre, Parser.unread_input parser = pre ++ Parser.unread_input last.
Proof.
  induction 1 as [p|p p' n p'' Hp Hs (pre' & IH)].
  - exists []. reflexivity.
  - pose proof (pass_suffix p) as H. rewrite Hp in H.
    destruct H as [(pre & Hpre) _].
    exists (pre ++ pre'). rewrite <- app_assoc, <- IH. exact Hpre.
Qed.

(** X7: csvkit_read_row returns on every handle, and what it has not read
    is still there: the call consumes a prefix of the source, which is not
    empty when a row is handed out, and it leaves the configuration as it
    is. *)
Theorem read_row_consumes_prefix (parser : Parser.csvkit_parser_t) :
  exists e out parser' consumed,
    Parser.csvkit_read_row parser = Some (e, out, parser')
    /\ Parser.unread_input parser
       = consumed ++ Parser.unread_input parser'
    /\ (e = CSVKIT_OK -> consumed <> [])
    /\ Parser.config parser' = Parser.config parser.
Proof.
  destruct (csvkit_read_row_total parser) as ([[e out] parser'] & H).
  destruct (Parser.source parser) as [src|] eqn:Hsrc.
  - assert (Hb : Parser.source parser <> None) by congruence.
    destruct (read_row_last_pass parser _ Hb H) as (n & last & Hs & Hl).
    destruct (skips_to_suffix _ _ _ Hs) as (pre1 & Hpre1).
    pose proof (skips_to_facts _ _ _ Hs) as (Hc & _).
    pose proof (pass_suffix last) as Hp. rewrite Hl in Hp.
    destruct Hp as [(pre2 & Hpre2) Hc'].
    exists e, out, parser', (pre1 ++ pre2).
    split; [exact H|]. split.
    + rewrite <- app_assoc, <- Hpre2. exact Hpre1.
    + split; [|congruence].
      intros -> Hnil. apply app_eq_nil in Hnil. destruct Hnil as [-> ->].
      apply pass_done_ok in Hl.
      destruct Hl as (row & _ & _ & _ & _ & _ & _ & _ & _ & Hlen & _).
      cbn [app] in Hpre2. rewrite <- Hpre2 in Hlen. lia.
  - unfold Parser.csvkit_read_row in H. rewrite Hsrc in H.
    injection H as <- <- <-.
    exists CSVKIT_ERROR_INVALID_ARG, None, parser, [].
    unfold Parser.csvkit_read_row. rewrite Hsrc.
    repeat split; try reflexivity. discriminate.
Qed.

End Consumption.

(** ** The error message and the rows that are skipped *)

Section Messages.
Context {plat : Platform}.

Lemma skips_to_error_msg parser n last :
  skips_to parser n last ->
  Parser.error_msg last = Parser.error_msg parser.
Proof.
  induction 1 as [p|p p' n p'' Hp Hs IH]; [reflexivity|].
  rewrite IH. unfold pass in Hp.
  destruct (Parser.parse_row_internal (Parser.config p) fresh_row
              (Parser.unread_input p)) as [[result row] src'].
  destruct result; try discriminate. cbv zeta in Hp.
  repeat match type of Hp with
         | context [if ?b then _ else _] => destruct b
         end; inversion Hp; reflexivity.
Qed.

Lemma pass_done_message parser e out parser' :
  pass parser = Done (e, out, parser') ->
  (e = CSVKIT_ERROR_PARSE ->
   Parser.error_msg parser' = Some "Unclosed quoted field"%string
   \/ (strict_mode (Parser.config parser) = true
       /\ Parser.error_msg parser'
          = Some "Field count mismatch in strict mode"%string))
  /\ (e <> CSVKIT_ERROR_PARSE ->
      Parser.error_msg parser' = Parser.error_msg parser).
Proof.
  unfold pass.
  destruct (Parser.parse_row_internal (Parser.config parser) fresh_row
              (Parser.unread_input parser)) as [[result row] src'] eqn:Hp.
  assert (Hmem : result <> CSVKIT_ERROR_MEMORY).
  { intros ->. unfold Parser.parse_row_internal in Hp.
    destruct (Parser.parse_loop (Parser.config parser)
                (Parser.initial_state fresh_row)
                (Parser.unread_input parser)) as [e0 st s|c st s] eqn:Hl.
    - apply parse_loop_return in Hl. subst. discriminate.
    - repeat match type of Hp with
             | context [if ?b then _ else _] => destruct b
             end; discriminate. }
  destruct result; try congruence; cbv zeta;
    repeat match goal with
           | |- context [if ?b then _ else _] => destruct b eqn:?
           end;
    intros E; inversion E; subst; clear E;
    (split; [intros He|intros He]); try congruence; try discriminate;
    cbn; auto.
Qed.

(** X8: the message csvkit_get_error_msg gives after a call.  A call of
    csvkit_read_row that returns CSVKIT_ERROR_PARSE leaves the message
    [Unclosed quoted field] or, in strict mode only, [Field count mismatch
    in strict mode]; a call that returns anything else, a row or the end
    of input included, leaves the message as it was, so that the message
    of an earlier failure stays. *)
Theorem read_row_error_message (parser : Parser.csvkit_parser_t)
  (e : csvkit_error_t) (out : option csvkit_row_t)
  (parser' : Parser.csvkit_parser_t) :
  Parser.csvkit_read_row parser = Some (e, out, parser') ->
  (e = CSVKIT_ERROR_PARSE ->
   Parser.csvkit_get_error_msg (Some parser')
   = Some "Unclosed quoted field"%string
   \/ (strict_mode (Parser.config parser) = true
       /\ Parser.csvkit_get_error_msg (Some parser')
          = Some "Field count mismatch in strict mode"%string))
  /\ (e <> CSVKIT_ERROR_PARSE ->
      Parser.csvkit_get_error_msg (Some parser')
      = Parser.csvkit_get_error_msg (Some parser)).
Proof.
  intros H. cbn [Parser.csvkit_get_error_msg].
  destruct (Parser.source parser) as [src|] eqn:Hsrc.
  - assert (Hb : Parser.source parser <> None) by congruence.
    destruct (read_row_last_pass parser _ Hb H) as (n & last & Hs & Hl).
    pose proof (skips_to_error_msg _ _ _ Hs) as Hm.
    pose proof (skips_to_facts _ _ _ Hs) as (Hc & _).
    apply pass_done_message in Hl. rewrite Hm, Hc in Hl. exact Hl.
  - unfold Parser.csvkit_read_row in H. rewrite Hsrc in H.
    injection H as <- <- <-. split; [discriminate|reflexivity].
Qed.

Lemma forallb_false_exists {A : Type} (p : A -> bool) (l : list A) :
  forallb p l = false -> exists x, In x l /\ p x = false.
Proof.
  induction l as [|x l IH]; [discriminate|].
  cbn [forallb]. destruct (p x) eqn:Hx.
  - intros H. destruct (IH H) as (y & Hy & Hpy).
    exists y. split; [right; exact Hy|exact Hpy].
  - intros _. exists x. split; [left; reflexivity|exact Hx].
Qed.

(** X9: with skip_empty_rows on, no empty row is handed out: every row
    that csvkit_read_row returns has a field that is not the empty
    string, and csvkit_row_is_empty denies it. *)
Theorem empty_rows_never_returned (parser : Parser.csvkit_parser_t)
  (row : csvkit_row_t) (parser' : Parser.csvkit_parser_t) :
  skip_empty_rows (Parser.config parser) = true ->
  Parser.csvkit_read_row parser = Some (CSVKIT_OK, Some row, parser') ->
  Parser.csvkit_row_is_empty (Some row) = false
  /\ exists f, In f (fields row) /\ f <> [].
Proof.
  intros Hskip H.
  assert (Hb : Parser.source parser <> None).
  { apply (read_row_bound _ _ _ _ H). discriminate. }
  destruct (read_row_last_pass parser _ Hb H) as (n & last & Hs & Hl).
  pose proof (skips_to_facts _ _ _ Hs) as (Hc & _).
  apply pass_done_ok in Hl.
  destruct Hl as (row' & E & Hcount & Hpos & _ & _ & _ & _ & _ & _ & He & _).
  injection E as <-. rewrite Hc in He. specialize (He Hskip).
  split; [exact He|].
  unfold Parser.csvkit_row_is_empty in He.
  destruct (Nat.eqb (field_count row) 0); [discriminate|].
  rewrite Hcount, firstn_all in He.
  destruct (forallb_false_exists _ _ He) as (f & Hin & Hf).
  exists f. split; [exact Hin|]. destruct f; [discriminate|discriminate].
Qed.

End Messages.

Lemma read_row_error_message_witness :
  (Parser.csvkit_get_error_msg
     (Some (Parser.set_error
              (handle (default_with false false true) [] 2 3)
              (Some "Field count mismatch in strict mode"%string)))
   = Some "Unclosed quoted field"%string
   \/ (strict_mode (default_with false false true) = true
       /\ Parser.csvkit_get_error_msg
            (Some (Parser.set_error
                     (handle (default_with false false true) [] 2 3)
                     (Some "Field count mismatch in strict mode"%string)))
          = Some "Field count mismatch in strict mode"%string))
  /\ Parser.csvkit_get_error_msg
       (Some (Parser.set_error (handle csvkit_config_default [] 1 0)
                (Some "Unclosed quoted field"%string)))
     = Parser.csvkit_get_error_msg
         (Some (Parser.set_error
                  (handle csvkit_config_default (chars "a") 0 0)
                  (Some "Unclosed quoted field"%string))).
Proof.
  split.
  - apply (proj1 (@read_row_error_message signed_char_platform
                    (handle (default_with false false true) (chars "a,b") 1 3)
                    CSVKIT_ERROR_PARSE None _ eq_refl)).
    reflexivity.
  - apply (proj2 (@read_row_error_message signed_char_platform
                    (Parser.set_error
                       (handle csvkit_config_default (chars "a") 0 0)
                       (Some "Unclosed quoted field"%string))
                    CSVKIT_OK (Some (row_of [chars "a"] 1)) _ eq_refl)).
    discriminate.
Defined.

Lemma empty_rows_never_returned_witness :
  Parser.csvkit_row_is_empty (Some (row_of [chars ""; chars "b"] 2)) = false
  /\ exists f, In f (fields (row_of [chars ""; chars "b"] 2)) /\ f <> [].
Proof.
  apply (@empty_rows_never_returned signed_char_platform
           (handle (default_with false true false)
              ([LF] ++ chars ",b" ++ [LF]) 0 0)
           (row_of [chars ""; chars "b"] 2)
           (handle (default_with false true false) [] 2 0)).
  - reflexivity.
  - reflexivity.
Defined.

(** ** The round trip under any valid dialect *)

Section RoundTripAny.
Context {plat : Platform}.
Variable cfg : csvkit_config_t.
Hypothesis Hdialect : dialect_any cfg.

Let Hvalid : Parser.validate_config (Some cfg) = true := proj1 Hdialect.

Lemma text_char_byte (c : Z) : text_char c -> 0 < c < 256.
Proof.
  intros [H0 H].
  assert (Hn : nonneg_char c) by (split; [lia|exact H]).
  apply nonneg_char_byte in Hn. lia.
Qed.

Lemma map_to_char_text (f : cstring) :
  Forall text_char f -> map to_char f = f.
Proof.
  induction 1 as [|c f [_ Hc] _ IH]; simpl; [reflexivity|].
  rewrite IH, Hc. reflexivity.
Qed.

Lemma string_duplicate_text (f : cstring) :
  Forall text_char f -> Parser.string_duplicate f = f.
Proof.
  induction 1 as [|c f [Hc _] _ IH]; simpl; [reflexivity|].
  rewrite IH. destruct (Z.eqb_spec c 0); [lia|reflexivity].
Qed.

Lemma unquoted_plain (f : cstring) :
  quoted cfg f = false -> Forall (plain cfg) f.
Proof.
  unfold quoted. induction f as [|x f IH]; intros Hq; [constructor|].
  cbn [Writer.needs_quoting] in Hq.
  destruct ((x =? delimiter cfg) || (x =? quote_char cfg) || (x =? LF)
            || (x =? CR)) eqn:Hx; [discriminate|].
  rewrite !orb_false_iff, !Z.eqb_neq in Hx.
  constructor; [unfold plain; tauto|auto].
Qed.

(** A field as the writer writes it, read back. *)
Lemma written_field (f : cstring) (done : list cstring) (t : Z)
  (tail : list Z) :
  field_ok_any cfg f ->
  t = delimiter cfg \/ t = LF \/ t = CR ->
  exists st',
    Parser.parse_loop cfg (field_start done)
      (spec_field cfg (Some f) ++ t :: tail)
    = Parser.parse_loop cfg st' (t :: tail)
    /\ Parser.in_quotes st' = false
    /\ Parser.row_fields st' = done
    /\ Parser.row_field_count st' = List.length done
    /\ Parser.field_value cfg st' = f.
Proof.
  destruct (valid_config_distinct cfg Hvalid)
    as (Hdq & HdL & HdC & HqL & HqC & HeL & HeC).
  intros (Htext & Hbody & Htrim) Ht.
  unfold spec_field. rewrite <- needs_quoting_existsb. fold (quoted cfg f).
  destruct (quoted cfg f) eqn:Hq.
  - exists (field_read (map to_char f) true true done).
    split.
    + rewrite <- !app_assoc. cbn [app].
      apply loop_quoted_field; [exact Hvalid|auto| |].
      * destruct Ht as [->|[->| ->]]; congruence.
      * intros _. unfold Parser.after_quote_ok.
        destruct Ht as [->|[->| ->]]; rewrite Z.eqb_refl, ?orb_true_r;
          reflexivity.
    + repeat split. unfold Parser.field_value. cbn.
      rewrite andb_false_r, map_to_char_text, string_duplicate_text
        by assumption.
      reflexivity.
  - exists (add_chars f (field_start done)).
    split; [apply loop_plain; [reflexivity|apply unquoted_plain, Hq]|].
    destruct (plain_field_read cfg f done) as (Hin & Hfs & Hc & Hv & _).
    repeat split; try assumption.
    rewrite Hv. unfold unquoted_value.
    rewrite map_to_char_text, string_duplicate_text by assumption.
    destruct (trim_whitespace cfg); [|reflexivity].
    apply trim_trimmed_id. auto.
Qed.

Lemma row_text_line_text (fs : list cstring) :
  forall f,
    row_text cfg f fs
    = line_text cfg (fun f => spec_field cfg (Some f)) f fs [LF].
Proof.
  induction fs as [|f' fs IH]; intros f; cbn [row_text line_text];
    [reflexivity|]. rewrite IH. reflexivity.
Qed.

Lemma read_written_row_any (f : cstring) (fs : list cstring)
  (more : list Z) (n k : nat) :
  row_ok_any cfg (f :: fs) ->
  (strict_mode cfg = true -> k = 0%nat \/ k = List.length (f :: fs)) ->
  Parser.csvkit_read_row (handle cfg (row_text cfg f fs ++ more) n k)
  = Some (CSVKIT_OK, Some (row_of (f :: fs) (S n)),
          handle cfg more (S n) (expected_after cfg k [f :: fs])).
Proof.
  intros (_ & Hok & Hskip) Hstrict.
  rewrite row_text_line_text.
  pose proof (read_line cfg Hvalid cstring
                (fun f => spec_field cfg (Some f)) (fun f => f)
                (field_ok_any cfg) written_field f fs [LF] more n k Hok)
    as H.
  rewrite map_id in H. apply H.
  - left. reflexivity.
  - exact Hskip.
  - exact Hstrict.
Qed.

Lemma read_written_rows_any (rows : list (list cstring)) :
  forall fuel n k,
    Forall (row_ok_any cfg) rows ->
    (strict_mode cfg = true ->
     exists m, (k = 0%nat \/ k = m)
               /\ Forall (fun r => List.length r = m) rows) ->
    (List.length rows < fuel)%nat ->
    exists parser',
      Parser.read_rows fuel (handle cfg (rows_text cfg rows) n k)
      = Some (numbered n rows, CSVKIT_ERROR_EOF, parser').
Proof.
  induction rows as [|row rows IH]; intros fuel n k Hok Hstrict Hfuel;
    (destruct fuel as [|fuel]; [simpl in Hfuel; lia|]).
  - cbn [Parser.read_rows rows_text flat_map].
    rewrite read_row_exhausted by reflexivity. eauto.
  - inversion Hok as [|? ? Hrow Hrows]; subst.
    destruct row as [|f fs]; [destruct Hrow as (H & _); congruence|].
    cbn [Parser.read_rows rows_text flat_map].
    fold (rows_text cfg rows).
    rewrite (read_written_row_any f fs (rows_text cfg rows) n k Hrow).
    + destruct (IH fuel (S n) (expected_after cfg k [f :: fs]) Hrows)
        as (parser' & Hrest).
      * intros Hs. destruct (Hstrict Hs) as (m & Hk & Hm).
        inversion Hm as [|? ? Hlen Hm']; subst.
        exists (List.length (f :: fs)). split; [|assumption].
        right. unfold expected_after. rewrite Hs. cbn [andb].
        destruct (Nat.eqb_spec k 0); [reflexivity|].
        destruct Hk; congruence.
      * simpl in Hfuel. lia.
      * rewrite Hrest. eauto.
    + intros Hs. destruct (Hstrict Hs) as (m & Hk & Hm).
      inversion Hm; subst. exact Hk.
Qed.

Lemma spec_field_bytes_any (f : cstring) :
  Forall text_char f ->
  Forall (fun c => 0 <= c < 256) (spec_field cfg (Some f)).
Proof.
  pose proof Hdialect as (_ & Hd & Hq & He).
  apply nonneg_char_byte in Hd, Hq, He. intros Hp.
  assert (Hf : Forall (fun c => 0 <= c < 256) f).
  { eapply Forall_impl; [|exact Hp].
    intros c Hc. apply text_char_byte in Hc. lia. }
  unfold spec_field. destruct (existsb (is_specialb cfg) f); [|exact Hf].
  apply Forall_app. split; [repeat constructor; lia|].
  apply Forall_app. split; [|repeat constructor; lia].
  unfold spec_escape. apply Forall_flat_map.
  eapply Forall_impl; [|exact Hf]. simpl. intros c Hc.
  destruct (c =? quote_char cfg); repeat constructor; lia.
Qed.

Lemma row_text_bytes_any (fs : list cstring) :
  forall f,
    Forall (Forall text_char) (f :: fs) ->
    Forall (fun c => 0 <= c < 256) (row_text cfg f fs).
Proof.
  pose proof Hdialect as (_ & Hd & _). apply nonneg_char_byte in Hd.
  induction fs as [|f' fs IH]; intros f Hp;
    inversion Hp as [|? ? Hf Hfs]; subst; cbn [row_text];
    apply Forall_app; split; try (apply spec_field_bytes_any; assumption).
  - repeat constructor; unfold LF; lia.
  - constructor; [lia|]. apply IH. assumption.
Qed.

Lemma rows_text_bytes_any (rows : list (list cstring)) :
  Forall (Forall (Forall text_char)) rows ->
  Forall (fun c => 0 <= c < 256) (rows_text cfg rows).
Proof.
  induction 1 as [|row rows Hrow _ IH]; [constructor|].
  cbn [rows_text flat_map]. apply Forall_app. split; [|exact IH].
  destruct row as [|f fs]; [repeat constructor; unfold LF; lia|].
  apply row_text_bytes_any, Hrow.
Qed.

Lemma spec_row_text_any (row : list cstring) :
  Forall (Forall text_char) row ->
  spec_row cfg (map Some row)
  = match row with
    | [] => [LF]
    | f :: fs => row_text cfg f fs
    end.
Proof.
  intros Hp. unfold spec_row. destruct row as [|f fs]; [reflexivity|].
  rewrite spec_fields_row_text. cbn [app].
  apply map_to_uchar_bytes, row_text_bytes_any, Hp.
Qed.

Lemma write_output_any (rows : list (list cstring)) :
  Forall (Forall (Forall text_char)) rows ->
  write cfg rows = Some (rows_text cfg rows).
Proof.
  intros Hp. unfold write, Writer.csvkit_writer_new_with_config.
  rewrite <- validate_config_agree, Hvalid. cbn [negb].
  rewrite (write_rows_output _ _ []) by reflexivity.
  cbn [Writer.file Writer.config Writer.csvkit_writer_open_stream snd app].
  f_equal. unfold rows_text.
  induction Hp as [|row rows Hrow _ IH]; [reflexivity|].
  cbn [map flat_map]. rewrite IH, spec_row_text_any by assumption.
  reflexivity.
Qed.

Lemma rows_text_chars (rows : list (list cstring)) :
  Forall (row_ok_any cfg) rows -> Forall (Forall (Forall text_char)) rows.
Proof.
  intros Hok. eapply Forall_impl; [|exact Hok].
  intros row (_ & Hf & _). eapply Forall_impl; [|exact Hf].
  intros f (H & _). exact H.
Qed.

Lemma parse_rows_text_any (rows : list (list cstring)) :
  rows_ok_any cfg rows ->
  parse cfg (rows_text cfg rows) = Some (rows, CSVKIT_ERROR_EOF).
Proof.
  intros (Hok & Hstrict).
  pose proof (rows_text_chars rows Hok) as Hp.
  unfold parse, parser_on, Parser.csvkit_parser_new_with_config.
  rewrite Hvalid. cbn [negb].
  unfold Parser.csvkit_open_string, Parser.csvkit_close.
  cbn [snd Parser.config Parser.error_msg].
  rewrite map_to_uchar_bytes by (apply rows_text_bytes_any; assumption).
  change {| Parser.config := cfg;
            Parser.source := Some (rows_text cfg rows);
            Parser.parser_row_number := 0; Parser.error_msg := None;
            Parser.expected_field_count := 0 |}
    with (handle cfg (rows_text cfg rows) 0 0).
  unfold Parser.read_all.
  destruct (read_written_rows_any rows
              (S (List.length
                    (Parser.unread_input
                       (handle cfg (rows_text cfg rows) 0 0))))
              0 0 Hok) as (parser' & Hread).
  - intros Hs. specialize (Hstrict Hs).
    destruct rows as [|row rows'].
    + exists 0%nat. split; [left; reflexivity|constructor].
    + exists (List.length row). split; [left; reflexivity|].
      apply Forall_forall. intros r Hr. apply Hstrict; [exact Hr|].
      left. reflexivity.
  - cbn [Parser.unread_input handle Parser.source].
    pose proof (rows_text_length cfg rows). lia.
  - rewrite Hread, fields_numbered. reflexivity.
Qed.

End RoundTripAny.

(** X10: writing and reading back under any valid dialect, the default one
    included.  For a dialect the constructors accept whose three characters
    are not negative as chars, and for rows of strings of such characters
    (line breaks and other control characters included) in which every row
    has a field, a field that the writer quotes has every escape character
    followed by a character other than the escape and the quote character
    unless the escape character is the quote character, a field written
    unquoted neither begins nor ends with a space when trim_whitespace is
    on, no row has empty fields only when skip_empty_rows is on, and all
    rows have one length when strict_mode is on: csvkit_writer_write_row on
    each row and then csvkit_read_row up to the end of input give back
    exactly the rows. *)
Theorem write_then_parse_any {plat : Platform} (cfg : csvkit_config_t)
  (rows : list (list cstring)) :
  dialect_any cfg -> rows_ok_any cfg rows ->
  exists text,
    write cfg rows = Some text
    /\ parse cfg text = Some (rows, CSVKIT_ERROR_EOF).
Proof.
  intros Hd Hr. exists (rows_text cfg rows). split.
  - apply write_output_any; [exact Hd|].
    apply (rows_text_chars cfg), Hr.
  - apply parse_rows_text_any; assumption.
Qed.


Ltac text_field :=
  lazymatch goal with
  | |- Forall ?P ?f =>
      let v := eval vm_compute in f in
      change (Forall P v);
      repeat (apply Forall_cons; [split; [lia|reflexivity]|]);
      apply Forall_nil
  end.

Lemma write_then_parse_any_witness :
  exists text,
    write (default_with true true true)
          [[chars "a,b"; chars "say " ++ [DQ] ++ chars "hi" ++ [DQ];
            chars "two" ++ [LF] ++ chars "lines"];
           [chars "x y"; chars ""; [CR] ++ chars " z "]]
    = Some text
    /\ @parse signed_char_platform (default_with true true true) text
       = Some ([[chars "a,b"; chars "say " ++ [DQ] ++ chars "hi" ++ [DQ];
                 chars "two" ++ [LF] ++ chars "lines"];
                [chars "x y"; chars ""; [CR] ++ chars " z "]],
               CSVKIT_ERROR_EOF).
Proof.
  apply (@write_then_parse_any signed_char_platform
           (default_with true true true)).
  - unfold dialect_any, nonneg_char. simpl.
    repeat split; try lia; reflexivity.
  - assert (Hquoted : forall f,
               Forall (@text_char signed_char_platform) f ->
               quoted (default_with true true true) f = true ->
               @field_ok_any signed_char_platform
                 (default_with true true true) f).
    { intros f Hp Hq. split; [exact Hp|].
      split; [intros _; left; reflexivity|].
      intros _ Hq'. congruence. }
    assert (Hplain : forall f,
               Forall (@text_char signed_char_platform) f -> trimmed f ->
               quoted (default_with true true true) f = false ->
               @field_ok_any signed_char_platform
                 (default_with true true true) f).
    { intros f Hp Hb Hq. split; [exact Hp|]. split; [congruence|].
      intros _ _. exact Hb. }
    split.
    + apply Forall_cons; [|apply Forall_cons; [|apply Forall_nil]].
      * split; [discriminate|]. split.
        -- apply Forall_cons;
             [|apply Forall_cons; [|apply Forall_cons; [|apply Forall_nil]]];
             (apply Hquoted; [text_field|reflexivity]).
        -- intros _. exists (chars "a,b").
           split; [left; reflexivity|discriminate].
      * split; [discriminate|]. split.
        -- apply Forall_cons;
             [|apply Forall_cons; [|apply Forall_cons; [|apply Forall_nil]]].
           ++ apply Hplain; [text_field| |reflexivity].
              split; unfold space; vm_compute; discriminate.
           ++ apply Hplain; [text_field| |reflexivity]. exact I.
           ++ apply Hquoted; [text_field|reflexivity].
        -- intros _. exists (chars "x y").
           split; [left; reflexivity|discriminate].
    + intros _ r1 r2 H1 H2.
      destruct H1 as [<-|[<-|[]]]; destruct H2 as [<-|[<-|[]]];
        reflexivity.
Defined.


(** ** Handles that are used again *)

Section Reuse.
Context {plat : Platform}.

Lemma same_input_refl (p : Parser.csvkit_parser_t) : same_input p p.
Proof. repeat split. Qed.

Lemma read_next_row_same (fuel : nat) :
  forall p q,
    same_input p q ->
    same_result (Parser.read_next_row fuel p) (Parser.read_next_row fuel q).
Proof.
  induction fuel as [|fuel IH]; intros p q Hpq; [exact I|].
  destruct p as [cfg src n m1 k], q as [cfg' src' n' m2 k'].
  destruct Hpq as (Hc & Hs & Hn & Hk). cbn in Hc, Hs, Hn, Hk.
  destruct Hc, Hs, Hn, Hk.
  cbn [Parser.read_next_row Parser.config Parser.unread_input Parser.source
       Parser.parser_row_number Parser.expected_field_count].
  destruct (Parser.parse_row_internal cfg _ _) as [[result row] rest].
  destruct result; cbn [same_result];
    try (repeat split; reflexivity).
  destruct (skip_empty_rows cfg && Parser.csvkit_row_is_empty _).
  - apply IH. repeat split.
  - destruct (strict_mode cfg); [|repeat split].
    destruct (Nat.eqb k 0); [repeat split|].
    destruct (negb _); repeat split.
Qed.

Lemma csvkit_read_row_same (p q : Parser.csvkit_parser_t) :
  same_input p q ->
  same_result (Parser.csvkit_read_row p) (Parser.csvkit_read_row q).
Proof.
  intros Hpq. pose proof Hpq as (_ & Hs & _).
  unfold Parser.csvkit_read_row. rewrite <- Hs.
  destruct (Parser.source p); [apply read_next_row_same, Hpq|].
  repeat split; apply Hpq.
Qed.

Lemma read_rows_same (k : nat) :
  forall p q,
    same_input p q ->
    same_rows (Parser.read_rows k p) (Parser.read_rows k q).
Proof.
  induction k as [|k IH]; intros p q Hpq; [exact I|].
  cbn [Parser.read_rows].
  pose proof (csvkit_read_row_same p q Hpq) as H.
  destruct (Parser.csvkit_read_row p) as [[[e1 o1] p1]|],
           (Parser.csvkit_read_row q) as [[[e2 o2] p2]|];
    cbn [same_result] in H; try contradiction; [|exact I].
  destruct H as (<- & <- & H12).
  destruct e1;
    try (cbn [same_rows]; split; [reflexivity|split; [reflexivity|exact H12]]).
  destruct o1 as [row|];
    [|cbn [same_rows]; split; [reflexivity|split; [reflexivity|exact H12]]].
  specialize (IH p1 p2 H12).
  destruct (Parser.read_rows k p1) as [[[rows1 e1] p1']|],
           (Parser.read_rows k p2) as [[[rows2 e2] p2']|];
    cbn [same_rows] in IH |- *; try contradiction; [|exact I].
  destruct IH as (<- & <- & H').
  split; [reflexivity|split; [reflexivity|exact H']].
Qed.

Lemma read_all_same (p q : Parser.csvkit_parser_t) :
  same_input p q ->
  same_rows (Parser.read_all p) (Parser.read_all q).
Proof.
  intros Hpq. pose proof Hpq as (_ & Hs & _).
  unfold Parser.read_all, Parser.unread_input. rewrite <- Hs.
  apply read_rows_same, Hpq.
Qed.

End Reuse.

(** X11: a handle can be used again.  Whatever two handles of one
    configuration have been through (rows read, a strict-mode field count
    fixed, an error, a close), after csvkit_open_string on the same buffer,
    or csvkit_open_stream on streams that deliver the same bytes, calling
    csvkit_read_row until it no longer returns CSVKIT_OK hands out the same
    rows with the same row numbers and ends with the same code on both: a
    handle opened again reads as a new one does. *)
Theorem reopened_handle_reads_as_new {plat : Platform}
  (p q : Parser.csvkit_parser_t) (data : list Z) :
  Parser.config p = Parser.config q ->
  (exists rows e p' q',
      Parser.read_all (snd (Parser.csvkit_open_string p data))
      = Some (rows, e, p')
      /\ Parser.read_all (snd (Parser.csvkit_open_string q data))
         = Some (rows, e, q'))
  /\ (exists rows e p' q',
         Parser.read_all (snd (Parser.csvkit_open_stream p data))
         = Some (rows, e, p')
         /\ Parser.read_all (snd (Parser.csvkit_open_stream q data))
            = Some (rows, e, q')).
Proof.
  intros Hc.
  assert (H : forall p1 q1,
             same_input p1 q1 ->
             exists rows e p' q',
               Parser.read_all p1 = Some (rows, e, p')
               /\ Parser.read_all q1 = Some (rows, e, q')).
  { intros p1 q1 H1. pose proof (read_all_same p1 q1 H1) as H.
    destruct (read_all_total p1) as ([[rows e] p'] & Hp).
    rewrite Hp in H |- *.
    destruct (Parser.read_all q1) as [[[rows2 e2] q']|];
      cbn [same_rows] in H; [|contradiction].
    destruct H as (<- & <- & _). eauto 6. }
  split; apply H; repeat split; exact Hc.
Qed.

Lemma reopened_handle_reads_as_new_witness :
  Parser.config
    (handle (default_with false false true) (chars "x") 7 3)
  = Parser.config (handle (default_with false false true) [] 0 0)
  /\ (exists rows e p' q',
      @Parser.read_all signed_char_platform
        (snd (Parser.csvkit_open_string
                (handle (default_with false false true) (chars "x") 7 3)
                (chars "a,b")))
      = Some (rows, e, p')
      /\ @Parser.read_all signed_char_platform
           (snd (Parser.csvkit_open_string
                   (handle (default_with false false true) [] 0 0)
                   (chars "a,b")))
         = Some (rows, e, q')).
Proof.
  split; [reflexivity|].
  apply (@reopened_handle_reads_as_new signed_char_platform
           (handle (default_with false false true) (chars "x") 7 3)
           (handle (default_with false false true) [] 0 0)
           (chars "a,b")).
  reflexivity.
Defined.


(** * The C++ wrapper *)

Section CppWrapper.
Context {plat : Platform}.

Lemma csvkit_error_t_eq_dec (e1 e2 : csvkit_error_t) :
  {e1 = e2} + {e1 <> e2}.
Proof. decide equality. Qed.

Lemma cpp_read_row_ok parser row parser' :
  Parser.csvkit_read_row parser = Some (CSVKIT_OK, Some row, parser') ->
  Cpp.read_row parser = Some (Cpp.Return (Some (cpp_row row)), parser').
Proof.
  intros H. unfold Cpp.read_row. rewrite H.
  apply read_row_ok in H. destruct H as (row' & E & _ & Hlen).
  injection E as <-.
  cbn [Cpp.Row_new]. rewrite Hlen, firstn_all. reflexivity.
Qed.

Lemma cpp_read_row_eof parser out parser' :
  Parser.csvkit_read_row parser = Some (CSVKIT_ERROR_EOF, out, parser') ->
  Cpp.read_row parser = Some (Cpp.Return None, parser').
Proof. intros H. unfold Cpp.read_row. rewrite H. reflexivity. Qed.

Lemma cpp_read_row_error parser e out parser' :
  Parser.csvkit_read_row parser = Some (e, out, parser') ->
  e <> CSVKIT_OK -> e <> CSVKIT_ERROR_EOF ->
  Cpp.read_row parser
  = Some (Cpp.Throw (Cpp.Exception (Cpp.get_error_message parser')),
          parser').
Proof.
  intros H Hok Heof. unfold Cpp.read_row. rewrite H.
  destruct e; congruence.
Qed.

(** The three ways a call of csvkit_read_row inside an iteration ends. *)
Lemma read_rows_cases (n : nat) parser rows e parser' :
  Parser.read_rows (S n) parser = Some (rows, e, parser') ->
  (exists row p1 rows',
      Parser.csvkit_read_row parser = Some (CSVKIT_OK, Some row, p1)
      /\ Parser.read_rows n p1 = Some (rows', e, parser')
      /\ rows = row :: rows')
  \/ (exists out,
         Parser.csvkit_read_row parser = Some (e, out, parser')
         /\ e <> CSVKIT_OK /\ rows = []).
Proof.
  cbn [Parser.read_rows].
  destruct (Parser.csvkit_read_row parser) as [[[e1 out] p1]|] eqn:H1;
    [|discriminate].
  destruct e1;
    try (intros E; injection E as <- <- <-; right; exists out;
         repeat split; congruence).
  destruct out as [row|].
  - destruct (Parser.read_rows n p1) as [[[rows' e'] p']|] eqn:H2;
      [|discriminate].
    intros E. injection E as <- <- <-. left. eauto 7.
  - apply read_row_ok in H1. destruct H1 as (row & E & _). discriminate.
Qed.

Lemma cpp_read_all_loop (n : nat) :
  forall parser seen rows e parser',
    Parser.read_rows n parser = Some (rows, e, parser') ->
    Cpp.read_all_loop n seen parser = Some (cpp_outcome rows e parser' seen).
Proof.
  induction n as [|n IH]; intros parser seen rows e parser' H;
    [discriminate|].
  cbn [Cpp.read_all_loop]. unfold Cpp.bind.
  destruct (read_rows_cases n _ _ _ _ H)
    as [(row & p1 & rows' & H1 & H2 & ->)|(out & H1 & Hok & ->)].
  - rewrite (cpp_read_row_ok _ _ _ H1), (IH _ _ _ _ _ H2).
    unfold cpp_outcome. cbn [map]. rewrite <- app_assoc. reflexivity.
  - destruct (csvkit_error_t_eq_dec e CSVKIT_ERROR_EOF) as [->|Heof].
    + rewrite (cpp_read_row_eof _ _ _ H1). unfold cpp_outcome, Cpp.ret.
      cbn [map]. rewrite app_nil_r. reflexivity.
    + rewrite (cpp_read_row_error _ _ _ _ H1 Hok Heof).
      unfold cpp_outcome. destruct e; congruence.
Qed.

Lemma cpp_read_all parser rows e parser' :
  Parser.read_all parser = Some (rows, e, parser') ->
  Cpp.read_all parser = Some (cpp_outcome rows e parser' []).
Proof. apply cpp_read_all_loop. Qed.

Lemma bind_return {A B : Type} (m : Cpp.M A) (f : A -> Cpp.M B)
  parser a parser' :
  m parser = Some (Cpp.Return a, parser') ->
  Cpp.bind m f parser = f a parser'.
Proof. intros H. unfold Cpp.bind. rewrite H. reflexivity. Qed.

Lemma bind_throw {A B : Type} (m : Cpp.M A) (f : A -> Cpp.M B)
  parser e parser' :
  m parser = Some (Cpp.Throw e, parser') ->
  Cpp.bind m f parser = Some (Cpp.Throw e, parser').
Proof. intros H. unfold Cpp.bind. rewrite H. reflexivity. Qed.

(** Iterator::advance on an iterator that is not at the end, by what
    read_row does. *)
Lemma advance_row (it : Cpp.Iterator) parser r parser' :
  Cpp.is_end_ it = false ->
  Cpp.read_row parser = Some (Cpp.Return (Some r), parser') ->
  Cpp.advance it parser = Some (Cpp.Return (iterator_at r), parser').
Proof.
  intros Hend H. unfold Cpp.advance. cbn [Cpp.is_end_ Cpp.initialized_].
  rewrite Hend. cbn [negb]. rewrite (bind_return _ _ _ _ _ H).
  reflexivity.
Qed.

Lemma advance_end (it : Cpp.Iterator) parser parser' :
  Cpp.is_end_ it = false ->
  Cpp.read_row parser = Some (Cpp.Return None, parser') ->
  Cpp.advance it parser
  = Some (Cpp.Return {| Cpp.current_ := None; Cpp.is_end_ := true;
                        Cpp.initialized_ := true |}, parser').
Proof.
  intros Hend H. unfold Cpp.advance. cbn [Cpp.is_end_ Cpp.initialized_].
  rewrite Hend. cbn [negb]. rewrite (bind_return _ _ _ _ _ H).
  reflexivity.
Qed.

Lemma advance_throw (it : Cpp.Iterator) parser e parser' :
  Cpp.is_end_ it = false ->
  Cpp.read_row parser = Some (Cpp.Throw e, parser') ->
  Cpp.advance it parser = Some (Cpp.Throw e, parser').
Proof.
  intros Hend H. unfold Cpp.advance. cbn [Cpp.is_end_ Cpp.initialized_].
  rewrite Hend. cbn [negb]. apply bind_throw, H.
Qed.

(** One turn of the loop of the range-based for statement, by what the
    iterator has to do for the comparison. *)
Lemma range_for_turn (n : nat) (it : Cpp.Iterator) (r : Cpp.Row) seen
  parser parser' :
  Cpp.neq it Cpp.end_ parser
  = Some (Cpp.Return (true, iterator_at r), parser') ->
  Cpp.range_for_loop (S n) it Cpp.end_ seen parser
  = Cpp.bind (Cpp.advance (iterator_at r))
      (fun it => Cpp.range_for_loop n it Cpp.end_ (seen ++ [r])) parser'.
Proof.
  intros H. cbn [Cpp.range_for_loop].
  rewrite (bind_return _ _ _ _ _ H). cbn [fst snd].
  rewrite (bind_return _ _ parser' (r, iterator_at r) parser')
    by reflexivity.
  reflexivity.
Qed.

Lemma range_for_stop (n : nat) (it it' : Cpp.Iterator) seen parser parser' :
  Cpp.neq it Cpp.end_ parser = Some (Cpp.Return (false, it'), parser') ->
  Cpp.range_for_loop (S n) it Cpp.end_ seen parser
  = Some (Cpp.Return seen, parser').
Proof.
  intros H. cbn [Cpp.range_for_loop].
  rewrite (bind_return _ _ _ _ _ H). reflexivity.
Qed.

Lemma range_for_throw (n : nat) (it : Cpp.Iterator) seen parser e parser' :
  Cpp.neq it Cpp.end_ parser = Some (Cpp.Throw e, parser') ->
  Cpp.range_for_loop (S n) it Cpp.end_ seen parser
  = Some (Cpp.Throw e, parser').
Proof. intros H. cbn [Cpp.range_for_loop]. apply bind_throw, H. Qed.

(** The loop of the range-based for statement, from an iterator that has
    read a row. *)
Lemma cpp_range_for_loop (n : nat) :
  forall parser r seen rows e parser',
    Parser.read_rows n parser = Some (rows, e, parser') ->
    Cpp.range_for_loop (S n) (iterator_at r) Cpp.end_ seen parser
    = Some (cpp_outcome rows e parser' (seen ++ [r])).
Proof.
  induction n as [|n IH]; intros parser r seen rows e parser' H;
    [discriminate|].
  rewrite (range_for_turn _ _ r seen parser parser)
    by reflexivity.
  destruct (read_rows_cases n _ _ _ _ H)
    as [(row & p1 & rows' & H1 & H2 & ->)|(out & H1 & Hok & ->)].
  - rewrite (bind_return _ _ _ (iterator_at (cpp_row row)) p1)
      by (apply advance_row; [reflexivity|apply cpp_read_row_ok, H1]).
    rewrite (IH _ _ _ _ _ _ H2).
    unfold cpp_outcome. cbn [map]. rewrite <- !app_assoc. reflexivity.
  - destruct (csvkit_error_t_eq_dec e CSVKIT_ERROR_EOF) as [->|Heof].
    + erewrite bind_return
        by (apply advance_end; [reflexivity|eapply cpp_read_row_eof, H1]).
      erewrite range_for_stop by reflexivity.
      unfold cpp_outcome. cbn [map]. rewrite app_nil_r. reflexivity.
    + erewrite bind_throw
        by (apply advance_throw;
            [reflexivity|eapply cpp_read_row_error; eassumption]).
      unfold cpp_outcome. destruct e; congruence.
Qed.

Lemma neq_begin parser :
  Cpp.neq Cpp.begin Cpp.end_ parser
  = Cpp.bind (Cpp.advance Cpp.begin)
      (fun it => Cpp.ret (xorb (Cpp.is_end_ it) true, it)) parser.
Proof. reflexivity. Qed.

Lemma cpp_range_for parser rows e parser' :
  Parser.read_all parser = Some (rows, e, parser') ->
  Cpp.range_for parser = Some (cpp_outcome rows e parser' []).
Proof.
  unfold Parser.read_all, Cpp.range_for.
  set (n := List.length (Parser.unread_input parser)). intros H.
  destruct (read_rows_cases n _ _ _ _ H)
    as [(row & p1 & rows' & H1 & H2 & ->)|(out & H1 & Hok & ->)].
  - transitivity (Cpp.range_for_loop (S n) (iterator_at (cpp_row row))
                    Cpp.end_ [] p1).
    + rewrite (range_for_turn _ _ (cpp_row row) [] parser p1).
      * rewrite (range_for_turn _ _ (cpp_row row) [] p1 p1) by reflexivity.
        reflexivity.
      * rewrite neq_begin.
        erewrite bind_return
          by (apply advance_row; [reflexivity|apply cpp_read_row_ok, H1]).
        reflexivity.
    + rewrite (cpp_range_for_loop n p1 (cpp_row row) [] _ _ _ H2).
      reflexivity.
  - destruct (csvkit_error_t_eq_dec e CSVKIT_ERROR_EOF) as [->|Heof].
    + erewrite range_for_stop; [reflexivity|].
      rewrite neq_begin.
      erewrite bind_return
        by (apply advance_end; [reflexivity|eapply cpp_read_row_eof, H1]).
      reflexivity.
    + erewrite range_for_throw;
        [unfold cpp_outcome; destruct e; try congruence; reflexivity|].
      rewrite neq_begin.
      erewrite bind_throw
        by (apply advance_throw;
            [reflexivity|eapply cpp_read_row_error; eassumption]).
      reflexivity.
Qed.

End CppWrapper.

(** X12: iterating over a Parser is reading all of it.  The range-based
    for statement over begin() and end() of a Parser runs its body on
    exactly the rows that Parser::read_all returns, in the same order, and
    leaves the parser in the same state; it ends with an exception exactly
    when read_all does, with the same exception; and no step of it
    dereferences a null current_. *)
Theorem range_for_reads_all {plat : Platform}
  (parser : Parser.csvkit_parser_t) :
  exists res,
    Cpp.read_all parser = Some res /\ Cpp.range_for parser = Some res.
Proof.
  destruct (read_all_total parser) as ([[rows e] parser'] & H).
  exists (cpp_outcome rows e parser' []).
  split; [apply cpp_read_all, H|apply cpp_range_for, H].
Qed.


(** ** read_string *)

Section ReadString.
Context {plat : Platform}.

Lemma pass_done_codes parser e out parser' :
  pass parser = Done (e, out, parser') ->
  e = CSVKIT_OK \/ e = CSVKIT_ERROR_EOF \/ e = CSVKIT_ERROR_PARSE.
Proof.
  unfold pass.
  destruct (Parser.parse_row_internal (Parser.config parser) fresh_row
              (Parser.unread_input parser)) as [[result row] src'] eqn:Hp.
  assert (Hcodes : result = CSVKIT_OK \/ result = CSVKIT_ERROR_EOF
                   \/ result = CSVKIT_ERROR_PARSE).
  { unfold Parser.parse_row_internal in Hp.
    destruct (Parser.parse_loop (Parser.config parser)
                (Parser.initial_state fresh_row)
                (Parser.unread_input parser)) as [e0 st s|c st s] eqn:Hl.
    - apply parse_loop_return in Hl. subst. injection Hp as <- _ _. auto.
    - repeat match type of Hp with
             | context [if ?b then _ else _] => destruct b
             end; injection Hp as <- _ _; auto. }
  destruct Hcodes as [->|[->| ->]]; cbv zeta;
    repeat match goal with
           | |- context [if ?b then _ else _] => destruct b
           end;
    intros E; inversion E; auto.
Qed.

Lemma read_row_codes parser e out parser' :
  Parser.csvkit_read_row parser = Some (e, out, parser') ->
  Parser.source parser <> None ->
  e = CSVKIT_OK \/ e = CSVKIT_ERROR_EOF \/ e = CSVKIT_ERROR_PARSE.
Proof.
  intros H Hsrc.
  destruct (read_row_last_pass parser _ Hsrc H) as (n & last & _ & Hl).
  eapply pass_done_codes, Hl.
Qed.

Lemma read_row_parse_message parser out parser' :
  Parser.csvkit_read_row parser = Some (CSVKIT_ERROR_PARSE, out, parser') ->
  Parser.error_msg parser' = Some "Unclosed quoted field"%string
  \/ (strict_mode (Parser.config parser) = true
      /\ Parser.error_msg parser'
         = Some "Field count mismatch in strict mode"%string).
Proof.
  intros H.
  assert (Hsrc : Parser.source parser <> None)
    by (eapply read_row_bound; [exact H|discriminate]).
  destruct (read_row_last_pass parser _ Hsrc H) as (n & last & Hs & Hl).
  pose proof (skips_to_facts _ _ _ Hs) as (Hc & _).
  apply pass_done_message in Hl. rewrite Hc in Hl.
  apply Hl. reflexivity.
Qed.

(** How reading all rows of an open source ends. *)
Lemma read_rows_end (n : nat) :
  forall parser rows e parser',
    Parser.read_rows n parser = Some (rows, e, parser') ->
    Parser.source parser <> None ->
    e = CSVKIT_ERROR_EOF
    \/ (e = CSVKIT_ERROR_PARSE
        /\ (Parser.error_msg parser' = Some "Unclosed quoted field"%string
            \/ (strict_mode (Parser.config parser) = true
                /\ Parser.error_msg parser'
                   = Some "Field count mismatch in strict mode"%string))).
Proof.
  induction n as [|n IH]; intros parser rows e parser' H Hsrc;
    [discriminate|].
  destruct (read_rows_cases n _ _ _ _ H)
    as [(row & p1 & rows' & H1 & H2 & ->)|(out & H1 & Hok & ->)].
  - apply read_row_ok_facts in H1.
    destruct H1 as (_ & _ & _ & _ & _ & _ & _ & Hc & Hsrc1 & _).
    rewrite <- Hc. apply (IH _ _ _ _ H2 Hsrc1).
  - destruct (read_row_codes _ _ _ _ H1 Hsrc) as [->|[->| ->]];
      [congruence|left; reflexivity|right].
    split; [reflexivity|]. eapply read_row_parse_message, H1.
Qed.

Lemma cpp_read_string_on (cfg : csvkit_config_t) (data : list Z)
  parser rows e parser' :
  parser_on cfg data = Some parser ->
  Parser.read_all parser = Some (rows, e, parser') ->
  Cpp.read_string data cfg = Some (fst (cpp_outcome rows e parser' [])).
Proof.
  unfold parser_on, Cpp.read_string, Cpp.Parser_new.
  destruct (Parser.csvkit_parser_new_with_config (Some cfg)) as [p0|];
    [|discriminate].
  intros E H. injection E as E.
  assert (Hb : Cpp.bind (Cpp.open_string data) (fun _ => Cpp.read_all) p0
               = Cpp.read_all parser) by (rewrite <- E; reflexivity).
  rewrite Hb, (cpp_read_all _ _ _ _ H). reflexivity.
Qed.

End ReadString.

(** X13: read_string against the C library.  With a configuration that
    the constructors refuse, read_string throws [Failed to create parser
    with config].  Otherwise it is decided by the calls of csvkit_read_row
    on a parser opened on the string: when they end with CSVKIT_ERROR_EOF,
    read_string returns the rows they handed out, fields and row numbers
    as they are; when they end with CSVKIT_ERROR_PARSE, it throws with the
    message [Unclosed quoted field] or, in strict mode only, [Field count
    mismatch in strict mode], and the rows read before the failure are
    lost; and they end in no other way. *)
Theorem read_string_spec {plat : Platform} (data : list Z)
  (cfg : csvkit_config_t) :
  (Parser.validate_config (Some cfg) = false ->
   Cpp.read_string data cfg
   = Some (Cpp.Throw
             (Cpp.Exception "Failed to create parser with config")))
  /\ (Parser.validate_config (Some cfg) = true ->
      exists parser rows e parser',
        parser_on cfg data = Some parser
        /\ Parser.read_all parser = Some (rows, e, parser')
        /\ ((e = CSVKIT_ERROR_EOF
             /\ Cpp.read_string data cfg
                = Some (Cpp.Return (map cpp_row rows)))
            \/ (e = CSVKIT_ERROR_PARSE
                /\ exists msg,
                    Cpp.read_string data cfg
                    = Some (Cpp.Throw (Cpp.Exception msg))
                    /\ (msg = "Unclosed quoted field"%string
                        \/ (strict_mode cfg = true
                            /\ msg = "Field count mismatch in strict mode"
                                       %string))))).
Proof.
  split; intros Hvalid.
  - unfold Cpp.read_string, Cpp.Parser_new,
      Parser.csvkit_parser_new_with_config.
    rewrite Hvalid. reflexivity.
  - assert (Hon : parser_on cfg data
                  = Some (handle cfg (map to_uchar data) 0 0)).
    { unfold parser_on, Parser.csvkit_parser_new_with_config.
      rewrite Hvalid. reflexivity. }
    destruct (read_all_total (handle cfg (map to_uchar data) 0 0))
      as ([[rows e] parser'] & Hall).
    exists (handle cfg (map to_uchar data) 0 0), rows, e, parser'.
    split; [exact Hon|]. split; [exact Hall|].
    pose proof (cpp_read_string_on cfg data _ _ _ _ Hon Hall) as Hcpp.
    destruct (read_rows_end _ _ _ _ _ Hall ltac:(discriminate))
      as [->|(-> & Hmsg)].
    + left. split; [reflexivity|exact Hcpp].
    + right. split; [reflexivity|].
      exists (Cpp.get_error_message parser'). split; [exact Hcpp|].
      unfold Cpp.get_error_message. cbn [Parser.csvkit_get_error_msg].
      destruct Hmsg as [->|(Hs & ->)]; [left|right]; auto.
Qed.

Lemma read_string_spec_witness :
  @Cpp.read_string signed_char_platform (chars "a,b")
    {| delimiter := 44; quote_char := 44; escape_char := 34;
       trim_whitespace := false; skip_empty_rows := false;
       strict_mode := false |}
  = Some (Cpp.Throw (Cpp.Exception "Failed to create parser with config"))
  /\ exists parser rows e parser',
      @parser_on signed_char_platform csvkit_config_default
        (chars "a,b" ++ [LF; DQ] ++ chars "c")
      = Some parser
      /\ @Parser.read_all signed_char_platform parser
         = Some (rows, e, parser')
      /\ ((e = CSVKIT_ERROR_EOF
           /\ @Cpp.read_string signed_char_platform
                (chars "a,b" ++ [LF; DQ] ++ chars "c") csvkit_config_default
              = Some (Cpp.Return (map cpp_row rows)))
          \/ (e = CSVKIT_ERROR_PARSE
              /\ exists msg,
                  @Cpp.read_string signed_char_platform
                    (chars "a,b" ++ [LF; DQ] ++ chars "c")
                    csvkit_config_default
                  = Some (Cpp.Throw (Cpp.Exception msg))
                  /\ (msg = "Unclosed quoted field"%string
                      \/ (strict_mode csvkit_config_default = true
                          /\ msg = "Field count mismatch in strict mode"
                                     %string)))).
Proof.
  split.
  - apply (@read_string_spec signed_char_platform). reflexivity.
  - apply (@read_string_spec signed_char_platform
             (chars "a,b" ++ [LF; DQ] ++ chars "c") csvkit_config_default).
    reflexivity.
Defined.


(** ** Writer::write_row and read_string *)

Section CppRoundTrip.
Context {plat : Platform}.
Variable cfg : csvkit_config_t.
Hypothesis Hdialect : dialect_any cfg.

Lemma c_str_text (f : list Z) : Forall text_char f -> Cpp.c_str f = f.
Proof.
  induction 1 as [|c f [Hc _] _ IH]; simpl; [reflexivity|].
  rewrite IH. destruct (Z.eqb_spec c 0); [lia|reflexivity].
Qed.

Lemma cpp_write_rows_ok (rows : list (list (list Z))) :
  forall writer writer',
    Forall (Forall (Forall text_char)) rows ->
    Writer.write_rows writer (map (map Some) rows) = (CSVKIT_OK, writer') ->
    cpp_write_rows rows writer = (Cpp.Return tt, writer').
Proof.
  induction rows as [|row rows IH]; intros writer writer' Hp H.
  - cbn in H |- *. injection H as <-. reflexivity.
  - inversion Hp as [|? ? Hrow Hrows]; subst.
    cbn [Writer.write_rows map cpp_write_rows] in H |- *.
    unfold Cpp.write_row.
    replace (map (fun field => Some (Cpp.c_str field)) row)
      with (map Some row).
    + destruct (Writer.csvkit_writer_write_row writer (map Some row))
        as [err w1].
      destruct err; try (injection H as H _; discriminate).
      apply IH; assumption.
    + apply map_ext_in. intros f Hf. rewrite c_str_text; [reflexivity|].
      rewrite Forall_forall in Hrow. apply Hrow, Hf.
Qed.

Lemma cpp_write_any (rows : list (list (list Z))) :
  Forall (Forall (Forall text_char)) rows ->
  cpp_write cfg rows = Cpp.Return (Some (rows_text cfg rows)).
Proof.
  intros Hp. pose proof (write_output_any cfg Hdialect rows Hp) as H.
  unfold write in H. unfold cpp_write, Cpp.Writer_new.
  destruct (Writer.csvkit_writer_new_with_config (Some cfg)) as [writer|];
    [|discriminate].
  unfold Cpp.Writer_open.
  destruct (Writer.csvkit_writer_open_stream writer []) as [err w0] eqn:Ho.
  cbn [snd] in H.
  assert (err = CSVKIT_OK) as -> by (injection Ho as <- _; reflexivity).
  match type of H with
  | context [Writer.write_rows ?w ?r] =>
      destruct (Writer.write_rows w r) as [err w'] eqn:Hw
  end.
  destruct err; try discriminate.
  rewrite (cpp_write_rows_ok rows w0 w' Hp Hw), H. reflexivity.
Qed.

Lemma read_all_rows_text_any (rows : list (list cstring)) :
  rows_ok_any cfg rows ->
  exists parser parser',
    parser_on cfg (rows_text cfg rows) = Some parser
    /\ Parser.read_all parser
       = Some (numbered 0 rows, CSVKIT_ERROR_EOF, parser').
Proof.
  intros (Hok & Hstrict).
  pose proof (rows_text_chars cfg rows Hok) as Hp.
  destruct (read_written_rows_any cfg Hdialect rows
              (S (List.length (rows_text cfg rows))) 0 0 Hok)
    as (parser' & Hread).
  - intros Hs. specialize (Hstrict Hs).
    destruct rows as [|row rows'].
    + exists 0%nat. split; [left; reflexivity|constructor].
    + exists (List.length row). split; [left; reflexivity|].
      apply Forall_forall. intros r Hr. apply Hstrict; [exact Hr|].
      left. reflexivity.
  - pose proof (rows_text_length cfg rows). lia.
  - exists (handle cfg (rows_text cfg rows) 0 0), parser'.
    split; [|exact Hread].
    unfold parser_on, Parser.csvkit_parser_new_with_config.
    rewrite (proj1 Hdialect). cbn [negb].
    unfold Parser.csvkit_open_string, Parser.csvkit_close.
    cbn [snd Parser.config Parser.error_msg].
    rewrite map_to_uchar_bytes
      by (apply rows_text_bytes_any; assumption).
    reflexivity.
Qed.

End CppRoundTrip.

(** X14: the round trip through the wrapper.  For a dialect the
    constructors accept whose three characters are not negative as chars,
    and for rows of strings without NUL that meet the conditions of the
    round trip of the C library, Writer::write_row on each row followed by
    read_string on what was written throws nothing and returns one Row for
    each row, with the fields as they were written and the row numbers 1,
    2, 3 and so on. *)
Theorem wrapper_write_then_read {plat : Platform} (cfg : csvkit_config_t)
  (rows : list (list (list Z))) :
  dialect_any cfg -> rows_ok_any cfg rows ->
  exists text,
    cpp_write cfg rows = Cpp.Return (Some text)
    /\ Cpp.read_string text cfg
       = Some (Cpp.Return (map cpp_row (numbered 0 rows))).
Proof.
  intros Hd Hr. exists (rows_text cfg rows). split.
  - apply cpp_write_any; [exact Hd|].
    apply (rows_text_chars cfg), Hr.
  - destruct (read_all_rows_text_any cfg Hd rows Hr)
      as (parser & parser' & Hon & Hall).
    rewrite (cpp_read_string_on cfg _ _ _ _ _ Hon Hall). reflexivity.
Qed.

Lemma wrapper_write_then_read_witness :
  exists text,
    cpp_write (default_with true true true)
      [[chars "a,b"; chars "say " ++ [DQ] ++ chars "hi" ++ [DQ]];
       [chars "x y"; [LF] ++ chars " z "]]
    = Cpp.Return (Some text)
    /\ @Cpp.read_string signed_char_platform text
         (default_with true true true)
       = Some (Cpp.Return
                 (map cpp_row
                    (numbered 0
                       [[chars "a,b";
                         chars "say " ++ [DQ] ++ chars "hi" ++ [DQ]];
                        [chars "x y"; [LF] ++ chars " z "]]))).
Proof.
  apply (@wrapper_write_then_read signed_char_platform
           (default_with true true true)).
  - unfold dialect_any, nonneg_char. simpl.
    repeat split; try lia; reflexivity.
  - assert (Hquoted : forall f,
               Forall (@text_char signed_char_platform) f ->
               quoted (default_with true true true) f = true ->
               @field_ok_any signed_char_platform
                 (default_with true true true) f).
    { intros f Hp Hq. split; [exact Hp|].
      split; [intros _; left; reflexivity|].
      intros _ Hq'. congruence. }
    split.
    + apply Forall_cons; [|apply Forall_cons; [|apply Forall_nil]].
      * split; [discriminate|]. split.
        -- apply Forall_cons; [|apply Forall_cons; [|apply Forall_nil]];
             (apply Hquoted; [text_field|reflexivity]).
        -- intros _. exists (chars "a,b").
           split; [left; reflexivity|discriminate].
      * split; [discriminate|]. split.
        -- apply Forall_cons; [|apply Forall_cons; [|apply Forall_nil]].
           ++ split; [text_field|].
              split; [intros Hq; vm_compute in Hq; discriminate|].
              intros _ _. split; unfold space; vm_compute; discriminate.
           ++ apply Hquoted; [text_field|reflexivity].
        -- intros _. exists (chars "x y").
           split; [left; reflexivity|discriminate].
    + intros _ r1 r2 H1 H2.
      destruct H1 as [<-|[<-|[]]]; destruct H2 as [<-|[<-|[]]];
        reflexivity.
Defined.


(** X15: Row::at against csvkit_row_get_field.  A row that
    csvkit_read_row hands out makes a Row without an exception, with the
    row number of the row and as many fields as csvkit_row_field_count
    counts; Row::at returns the string csvkit_row_get_field points to at
    every index where that is not NULL, and throws std::out_of_range at
    every index where it is NULL, that is from the field count on. *)
Theorem row_at_is_get_field {plat : Platform}
  (parser : Parser.csvkit_parser_t) (row : csvkit_row_t)
  (parser' : Parser.csvkit_parser_t) (index : nat) :
  Parser.csvkit_read_row parser = Some (CSVKIT_OK, Some row, parser') ->
  exists r,
    Cpp.Row_new (Some row) = Cpp.Return r
    /\ Cpp.row_number_ r = row_number row
    /\ Cpp.Row_size r = Parser.csvkit_row_field_count (Some row)
    /\ match Parser.csvkit_row_get_field (Some row) index with
       | Parser.Field f => Cpp.Row_at r index = Cpp.Return f
       | Parser.NULL =>
         (Cpp.Row_size r <= index)%nat
         /\ Cpp.Row_at r index
            = Cpp.Throw (Cpp.out_of_range "Field index out of range")
       | Parser.OutOfBounds => False
       end.
Proof.
  intros H. apply read_row_ok in H.
  destruct H as (row' & E & _ & Hlen). injection E as <-.
  exists (cpp_row row). unfold Cpp.Row_new, Cpp.Row_at, Cpp.Row_size.
  rewrite Hlen, firstn_all.
  cbn [cpp_row Cpp.fields_ Cpp.row_number_ Parser.csvkit_row_get_field
       Parser.csvkit_row_field_count].
  split; [reflexivity|]. split; [reflexivity|].
  split; [symmetry; exact Hlen|].
  rewrite Hlen.
  change (Cpp.fields_ (cpp_row row)) with (fields row).
  unfold cstring in *.
  match goal with
  | |- context [Nat.leb ?a index] => destruct (Nat.leb a index) eqn:Hleb
  end.
  - apply Nat.leb_le in Hleb. split; [exact Hleb|reflexivity].
  - apply Nat.leb_gt in Hleb.
    match goal with
    | |- context [@nth_error ?T ?l index] =>
        destruct (@nth_error T l index) as [f|] eqn:Hn
    end.
    + f_equal. apply nth_error_nth. exact Hn.
    + apply nth_error_None in Hn. lia.
Qed.

Lemma row_at_is_get_field_witness :
  exists r,
    Cpp.Row_new
      (Some {| fields := [chars "a"; chars "b"]; field_count := 2;
               row_number := 1 |})
    = Cpp.Return r
    /\ Cpp.row_number_ r = 1%nat
    /\ Cpp.Row_size r = 2%nat
    /\ (Cpp.Row_size r <= 2)%nat
    /\ Cpp.Row_at r 2
       = Cpp.Throw (Cpp.out_of_range "Field index out of range").
Proof.
  destruct (@row_at_is_get_field signed_char_platform
              (handle csvkit_config_default (chars "a,b") 0 0)
              {| fields := [chars "a"; chars "b"]; field_count := 2;
                 row_number := 1 |}
              (handle csvkit_config_default [] 1 0) 2 eq_refl)
    as (r & Hr & Hn & Hs & Hle & Hat).
  exists r. repeat split; assumption.
Defined.


(** * The escape character before an ordinary character *)

Section EscapeKept.
Context {plat : Platform}.
Variable cfg : csvkit_config_t.
Hypothesis Hvalid : Parser.validate_config (Some cfg) = true.

(** A quoted field, as it stands in the input, in front of a character
    that may follow it. *)
Lemma quoted_field_read (f : cstring) (done : list cstring) (t : Z)
  (tail : list Z) :
  body_ok cfg f ->
  t = delimiter cfg \/ t = LF \/ t = CR ->
  exists st',
    Parser.parse_loop cfg (field_start done)
      ((quote_char cfg :: spec_escape cfg f ++ [quote_char cfg])
       ++ t :: tail)
    = Parser.parse_loop cfg st' (t :: tail)
    /\ Parser.in_quotes st' = false
    /\ Parser.row_fields st' = done
    /\ Parser.row_field_count st' = List.length done
    /\ Parser.field_value cfg st' = quoted_value f.
Proof.
  destruct (valid_config_distinct cfg Hvalid)
    as (Hdq & HdL & HdC & HqL & HqC & HeL & HeC).
  intros Hbody Ht.
  exists (field_read (map to_char f) true true done). split.
  - cbn [app]. rewrite <- app_assoc. cbn [app].
    apply loop_quoted_field; [exact Hvalid|exact Hbody| |].
    + destruct Ht as [->|[->| ->]]; congruence.
    + intros _. unfold Parser.after_quote_ok.
      destruct Ht as [->|[->| ->]]; rewrite Z.eqb_refl, ?orb_true_r;
        reflexivity.
  - repeat split. unfold Parser.field_value, quoted_value. cbn.
    rewrite andb_false_r. reflexivity.
Qed.

(** Characters other than the quote character are written between the
    quotes as they are. *)
Lemma spec_escape_ordinary (f : cstring) :
  Forall (fun x => x <> quote_char cfg) f -> spec_escape cfg f = f.
Proof.
  induction 1 as [|x f Hx _ IH]; [reflexivity|].
  rewrite spec_escape_cons, IH.
  apply Z.eqb_neq in Hx. rewrite Hx. reflexivity.
Qed.

Lemma escapes_kept_ordinary (f g : cstring) :
  Forall (fun x => x <> quote_char cfg /\ x <> escape_char cfg) f ->
  escapes_kept cfg g -> escapes_kept cfg (f ++ g).
Proof.
  induction 1 as [|x f [_ Hx] _ IH]; intros Hg; [exact Hg|].
  cbn [app]. apply escapes_kept_plain; auto.
Qed.

End EscapeKept.

(** C7: inside a quoted field, with escape_char different from quote_char,
    an escape character followed by a character that is neither the quote
    nor the escape character is put into the field as it is: the loop goes
    on, on the input that starts with the following character, from the
    state whose buffer has the escape character at its end, still inside
    the quotes and with the row as it was; there the following character
    is handled by the rules for a character read inside quotes, which
    append it to the buffer, the delimiter and the line breaks included.
    So the field that csvkit_read_row hands out for a quoted field of
    characters other than the quote and the escape character with such a
    pair among them holds the escape character and the character after it,
    in their place. *)
Theorem escape_before_ordinary_char {plat : Platform}
  (cfg : csvkit_config_t) :
  (forall (st : Parser.loop_state) (c next : Z) (rest : list Z),
      Parser.in_quotes st = true ->
      c = escape_char cfg ->
      escape_char cfg <> quote_char cfg ->
      next <> quote_char cfg ->
      next <> escape_char cfg ->
      Parser.parse_loop cfg st (c :: next :: rest)
      = Parser.parse_loop cfg
          {| Parser.buffer := Parser.buffer st ++ [to_char c];
             Parser.row_fields := Parser.row_fields st;
             Parser.row_field_count := Parser.row_field_count st;
             Parser.in_quotes := true;
             Parser.field_started := true;
             Parser.field_was_quoted := Parser.field_was_quoted st |}
          (next :: rest)
      /\ Parser.parse_loop cfg
           {| Parser.buffer := Parser.buffer st ++ [to_char c];
              Parser.row_fields := Parser.row_fields st;
              Parser.row_field_count := Parser.row_field_count st;
              Parser.in_quotes := true;
              Parser.field_started := true;
              Parser.field_was_quoted := Parser.field_was_quoted st |}
           (next :: rest)
         = Parser.parse_loop cfg
             {| Parser.buffer :=
                  Parser.buffer st ++ [to_char c; to_char next];
                Parser.row_fields := Parser.row_fields st;
                Parser.row_field_count := Parser.row_field_count st;
                Parser.in_quotes := true;
                Parser.field_started := true;
                Parser.field_was_quoted := Parser.field_was_quoted st |}
             rest)
  /\ (forall (f g : cstring) (next : Z) (rest : list Z) (n k : nat),
      Parser.validate_config (Some cfg) = true ->
      escape_char cfg <> quote_char cfg ->
      next <> quote_char cfg ->
      next <> escape_char cfg ->
      Forall (fun x => x <> quote_char cfg /\ x <> escape_char cfg)
             (f ++ g) ->
      Forall text_char (f ++ escape_char cfg :: next :: g) ->
      (strict_mode cfg = true -> k = 0%nat \/ k = 1%nat) ->
      Parser.csvkit_read_row
        (handle cfg
           (quote_char cfg
            :: f ++ escape_char cfg :: next :: g
            ++ quote_char cfg :: LF :: rest) n k)
      = Some (CSVKIT_OK,
              Some {| fields := [f ++ escape_char cfg :: next :: g];
                      field_count := 1; row_number := S n |},
              handle cfg rest (S n)
                (if strict_mode cfg && Nat.eqb k 0 then 1%nat else k))).
Proof.
  split.
  - intros st c next rest Hin Hc Hne Hq He. subst c.
    apply Z.eqb_neq in Hne, Hq, He.
    assert (Hstep2 :
              Parser.parse_loop cfg
                (Parser.add_char (escape_char cfg) st) (next :: rest)
              = Parser.parse_loop cfg
                  (Parser.add_char next
                     (Parser.add_char (escape_char cfg) st)) rest).
    { rewrite parse_loop_step. unfold loop_step.
      cbn [Parser.in_quotes Parser.add_char]. rewrite Hin.
      cbn [negb andb]. rewrite He, Hq. reflexivity. }
    assert (E1 : Parser.add_char (escape_char cfg) st
                 = {| Parser.buffer :=
                        Parser.buffer st ++ [to_char (escape_char cfg)];
                      Parser.row_fields := Parser.row_fields st;
                      Parser.row_field_count := Parser.row_field_count st;
                      Parser.in_quotes := true;
                      Parser.field_started := true;
                      Parser.field_was_quoted :=
                        Parser.field_was_quoted st |}).
    { unfold Parser.add_char. rewrite Hin. reflexivity. }
    assert (E2 : Parser.add_char next
                   (Parser.add_char (escape_char cfg) st)
                 = {| Parser.buffer :=
                        Parser.buffer st
                        ++ [to_char (escape_char cfg); to_char next];
                      Parser.row_fields := Parser.row_fields st;
                      Parser.row_field_count := Parser.row_field_count st;
                      Parser.in_quotes := true;
                      Parser.field_started := true;
                      Parser.field_was_quoted :=
                        Parser.field_was_quoted st |}).
    { unfold Parser.add_char. cbn. rewrite Hin, <- app_assoc.
      reflexivity. }
    rewrite <- E1, <- E2. split; [|exact Hstep2].
    rewrite Hstep2.
    rewrite parse_loop_step. unfold loop_step. rewrite Hin.
    cbn [negb andb]. rewrite Z.eqb_refl, Hq, He, Hne. reflexivity.
  - intros f g next rest n k Hvalid Hne Hq He Hfg Htext Hstrict.
    set (a := f ++ escape_char cfg :: next :: g).
    apply Forall_app in Hfg. destruct Hfg as [Hf Hg].
    assert (Hkept : escapes_kept cfg a).
    { apply escapes_kept_ordinary; [exact Hf|].
      apply escapes_kept_escape; [exact He|exact Hq|].
      rewrite <- (app_nil_r g).
      apply escapes_kept_ordinary; [exact Hg|constructor]. }
    assert (Hplain : spec_escape cfg a = a).
    { apply spec_escape_ordinary. subst a.
      apply Forall_app. split.
      - eapply Forall_impl; [|exact Hf]. intros x Hx. apply Hx.
      - constructor; [congruence|]. constructor; [exact Hq|].
        eapply Forall_impl; [|exact Hg]. intros x Hx. apply Hx. }
    assert (Hvalue : quoted_value a = a).
    { unfold quoted_value.
      rewrite map_to_char_text, string_duplicate_text by exact Htext.
      reflexivity. }
    pose proof (read_line cfg Hvalid cstring
                  (fun f => quote_char cfg
                            :: spec_escape cfg f ++ [quote_char cfg])
                  quoted_value (body_ok cfg)
                  (quoted_field_read cfg Hvalid)
                  a [] [LF] rest n k) as H.
    cbn [line_text map] in H. rewrite Hplain, Hvalue in H.
    replace (quote_char cfg
             :: f ++ escape_char cfg :: next :: g
             ++ quote_char cfg :: LF :: rest)
      with (((quote_char cfg :: a ++ [quote_char cfg]) ++ [LF]) ++ rest)
      by (subst a; cbn [app]; rewrite <- !app_assoc; cbn [app];
          reflexivity).
    rewrite H.
    + reflexivity.
    + constructor; [right; exact Hkept|constructor].
    + left. reflexivity.
    + intros _. exists a. split; [left; reflexivity|].
      subst a. destruct f; discriminate.
    + exact Hstrict.
Qed.

Lemma escape_before_ordinary_char_witness :
  (@Parser.parse_loop signed_char_platform backslash_config
     (quoted_state (chars "a") []) (92 :: 110 :: [34; 10])
   = @Parser.parse_loop signed_char_platform backslash_config
       {| Parser.buffer := chars "a" ++ [92];
          Parser.row_fields := []; Parser.row_field_count := 0;
          Parser.in_quotes := true; Parser.field_started := true;
          Parser.field_was_quoted := true |}
       (110 :: [34; 10])
   /\ @Parser.parse_loop signed_char_platform backslash_config
        {| Parser.buffer := chars "a" ++ [92];
           Parser.row_fields := []; Parser.row_field_count := 0;
           Parser.in_quotes := true; Parser.field_started := true;
           Parser.field_was_quoted := true |}
        (110 :: [34; 10])
      = @Parser.parse_loop signed_char_platform backslash_config
          {| Parser.buffer := chars "a" ++ [92; 110];
             Parser.row_fields := []; Parser.row_field_count := 0;
             Parser.in_quotes := true; Parser.field_started := true;
             Parser.field_was_quoted := true |}
          [34; 10])
  /\ @Parser.csvkit_read_row signed_char_platform
       (handle backslash_config
          (34 :: chars "a" ++ 92 :: 44 :: chars "b" ++ 34 :: LF :: []) 0 0)
     = Some (CSVKIT_OK,
             Some {| fields := [chars "a" ++ 92 :: 44 :: chars "b"];
                     field_count := 1; row_number := 1 |},
             handle backslash_config [] 1 0).
Proof.
  pose proof (@escape_before_ordinary_char signed_char_platform
                backslash_config) as (Hloop & Hcall).
  split.
  - apply (Hloop (quoted_state (chars "a") []) 92 110 [34; 10]).
    + reflexivity.
    + reflexivity.
    + simpl. lia.
    + simpl. lia.
    + simpl. lia.
  - apply (Hcall (chars "a") (chars "b") 44 [] 0%nat 0%nat).
    + reflexivity.
    + simpl. lia.
    + simpl. lia.
    + simpl. lia.
    + repeat constructor; simpl; lia.
    + text_field.
    + intros _. left. reflexivity.
Defined.
